(** * Flip 7 simulation: a shallow embedding of [flip7_simulation.py]

    The development follows the Python module top-down: the card and
    player records with their scoring helpers, the deck builder, the game
    state with its draw operation, the bot strategies, and the
    turn / round / match engine of [Flip7Game].

    Conventions.
    - Python [int] is [Z]; list indices and loop counters are [nat].
    - An operation that can raise in Python ([TypeError] on a missing
      payload, [IndexError], [ZeroDivisionError], [NotImplementedError])
      returns [option]; [None] stands for the raised exception.
    - Python [float] is the kernel's binary64 [float].
    - The process-global [random] module is an explicit entropy tape
      carried by the game state. *)

From Stdlib Require Import ZArith.
From Stdlib Require Import Floats.PrimFloat.
From Stdlib Require Import Numbers.Cyclic.Int63.Uint63.
From stdpp Require Import base decidable option list fin_sets gmap strings pretty.

Local Open Scope Z_scope.

(** ** Enumerations *)

Inductive CardType := NUMBER | ACTION | MODIFIER.
Inductive ActionType := FREEZE | FLIP_THREE | SECOND_CHANCE.
Inductive ModifierType := ADD | MULTIPLY.

#[global] Instance CardType_eq_dec : EqDecision CardType.
Proof. solve_decision. Defined.
#[global] Instance ActionType_eq_dec : EqDecision ActionType.
Proof. solve_decision. Defined.
#[global] Instance ModifierType_eq_dec : EqDecision ModifierType.
Proof. solve_decision. Defined.

(** [for action in ActionType]: an Enum iterates in definition order. *)
Definition ActionType_members : list ActionType :=
  [FREEZE; FLIP_THREE; SECOND_CHANCE].

(** ** Cards *)

(** The [Card] dataclass.  Every payload field is [Optional] in the
    source and defaults to [None]. *)
Record Card := mkCard {
  card_id : string;
  card_type : CardType;
  value : option Z;
  action_type : option ActionType;
  modifier_type : option ModifierType;
  modifier_value : option Z
}.

(** ** Players *)

Record Player := mkPlayer {
  player_id : string;
  name : string;
  cards : list Card;
  score : Z;
  round_score : Z;
  is_active : bool;
  has_busted : bool;
  has_second_chance : bool;
  has_flip_three_active : bool;
  frozen_by : option string
}.

(** Field updates, one per attribute the engine assigns. *)
Definition set_cards (cs : list Card) (p : Player) : Player :=
  mkPlayer (player_id p) (name p) cs (score p) (round_score p) (is_active p)
           (has_busted p) (has_second_chance p) (has_flip_three_active p)
           (frozen_by p).
Definition set_score (s : Z) (p : Player) : Player :=
  mkPlayer (player_id p) (name p) (cards p) s (round_score p) (is_active p)
           (has_busted p) (has_second_chance p) (has_flip_three_active p)
           (frozen_by p).
Definition set_round_score (s : Z) (p : Player) : Player :=
  mkPlayer (player_id p) (name p) (cards p) (score p) s (is_active p)
           (has_busted p) (has_second_chance p) (has_flip_three_active p)
           (frozen_by p).
Definition set_is_active (b : bool) (p : Player) : Player :=
  mkPlayer (player_id p) (name p) (cards p) (score p) (round_score p) b
           (has_busted p) (has_second_chance p) (has_flip_three_active p)
           (frozen_by p).
Definition set_has_busted (b : bool) (p : Player) : Player :=
  mkPlayer (player_id p) (name p) (cards p) (score p) (round_score p)
           (is_active p) b (has_second_chance p) (has_flip_three_active p)
           (frozen_by p).
Definition set_has_second_chance (b : bool) (p : Player) : Player :=
  mkPlayer (player_id p) (name p) (cards p) (score p) (round_score p)
           (is_active p) (has_busted p) b (has_flip_three_active p)
           (frozen_by p).
Definition set_has_flip_three_active (b : bool) (p : Player) : Player :=
  mkPlayer (player_id p) (name p) (cards p) (score p) (round_score p)
           (is_active p) (has_busted p) (has_second_chance p) b
           (frozen_by p).

(** *** Hand accessors *)

Definition get_number_cards (self : Player) : list Card :=
  filter (λ c, card_type c = NUMBER) (cards self).

Definition get_modifier_cards (self : Player) : list Card :=
  filter (λ c, card_type c = MODIFIER) (cards self).

Definition get_action_cards (self : Player) : list Card :=
  filter (λ c, card_type c = ACTION) (cards self).

Definition get_number_values (self : Player) : list (option Z) :=
  value <$> get_number_cards self.

(** *** Python helpers *)

(** A [for] loop whose body may raise: the accumulator is threaded
    through the elements in list order. *)
Fixpoint for_each {A S : Type} (body : S → A → option S) (xs : list A) (s : S)
  : option S :=
  match xs with
  | [] => Some s
  | x :: xs' => s' ← body s x; for_each body xs' s'
  end.

(** The builtin [sum] over possibly missing integers: starts at 0 and
    adds left to right; adding [None] is a [TypeError]. *)
Definition py_sum (xs : list (option Z)) : option Z :=
  for_each (λ total x, v ← x; Some (total + v)) xs 0.

(** *** Scoring *)

Definition calculate_score (self : Player) (is_flip7 : bool) : option Z :=
  (* 1. Sum number cards *)
  total ← py_sum (get_number_values self);
  (* 2. Apply x2 multiplier if present *)
  total ← for_each (λ total card,
              if decide (modifier_type card = Some MULTIPLY)
              then v ← modifier_value card; Some (total * v)
              else Some total)
            (get_modifier_cards self) total;
  (* 3. Add modifier bonuses *)
  total ← for_each (λ total card,
              if decide (modifier_type card = Some ADD)
              then v ← modifier_value card; Some (total + v)
              else Some total)
            (get_modifier_cards self) total;
  (* 4. Add Flip 7 bonus *)
  Some (if is_flip7 then total + 15 else total).

(** [len(set(self.get_number_values())) == 7] *)
Definition has_flip7 (self : Player) : bool :=
  bool_decide
    (size (list_to_set (get_number_values self) : gset (option Z)) = 7%nat).

(** [new_card.value in self.get_number_values()] for a Number card. *)
Definition would_bust (self : Player) (new_card : Card) : bool :=
  if decide (card_type new_card ≠ NUMBER) then false
  else bool_decide (value new_card ∈ get_number_values self).

(** ** The random source

    [random] is process-global state.  It is modelled as an entropy tape:
    every request for a random integer reads the next cell.  Any
    sequence of outcomes of the generator is some tape. *)

Record Rng := mkRng { tape : nat → nat; pos : nat }.

(** [random._randbelow(n)]: an integer in [0, n). *)
Definition randbelow (n : nat) (g : Rng) : nat * Rng :=
  ((tape g (pos g) `mod` n)%nat, mkRng (tape g) (S (pos g))).

(** [random.randint(a, b)] is [a + randbelow(b - a + 1)]. *)
Definition randint (a b : N) (g : Rng) : N * Rng :=
  let '(r, g') := randbelow (N.to_nat (b - a + 1)) g in
  ((a + N.of_nat r)%N, g').
#[global] Arguments randbelow : simpl never.
#[global] Arguments randint : simpl never.


(** [x[i], x[j] = x[j], x[i]] *)
Definition swap {A : Type} (x : list A) (i j : nat) : list A :=
  match x !! i, x !! j with
  | Some a, Some b => <[j:=a]> (<[i:=b]> x)
  | _, _ => x
  end.

(** [random.shuffle(x)]: the library's Fisher-Yates pass,
    [for i in reversed(range(1, len(x))): j = randbelow(i + 1); swap]. *)
Fixpoint shuffle_loop {A : Type} (i : nat) (x : list A) (g : Rng)
  : list A * Rng :=
  match i with
  | O => (x, g)
  | S i' =>
      let '(j, g') := randbelow (S i) g in
      shuffle_loop i' (swap x i j) g'
  end.

Definition shuffle {A : Type} (x : list A) (g : Rng) : list A * Rng :=
  shuffle_loop (length x - 1) x g.
#[global] Arguments shuffle : simpl never.


(** ** Deck construction *)

Definition number_card (id : string) (v : Z) : Card :=
  mkCard id NUMBER (Some v) None None None.
Definition modifier_card (id : string) (mt : ModifierType) (v : Z) : Card :=
  mkCard id MODIFIER None None (Some mt) (Some v).
Definition action_card (id : string) (a : ActionType) : Card :=
  mkCard id ACTION None (Some a) None None.

(** [for _ in range(n): deck.append(mk(f"{prefix}{card_id}")); card_id += 1] *)
Fixpoint append_copies (prefix : string) (mk : string → Card) (n : nat)
  (acc : list Card * N) : list Card * N :=
  match n with
  | O => acc
  | S n' =>
      let '(deck, cid) := acc in
      append_copies prefix mk n' (deck ++ [mk (prefix +:+ pretty cid)], (cid + 1)%N)
  end.

(** One pass of the body of [for _ in range(num_decks)]. *)
Definition append_base_deck (acc : list Card * N) : list Card * N :=
  (* Number cards: 0-12, with quantity matching the value *)
  let acc :=
    foldl (λ acc v,
             append_copies "card_" (λ id, number_card id v)
               (Z.to_nat (if decide (v > 0) then v else 1)) acc)
          acc (seqZ 0 13) in
  (* Modifier cards *)
  let acc :=
    foldl (λ acc mod_value,
             append_copies "card_" (λ id, modifier_card id ADD mod_value) 3 acc)
          acc [2; 4; 6; 8; 10] in
  (* x2 multiplier (1 copy) *)
  let acc := append_copies "card_" (λ id, modifier_card id MULTIPLY 2) 1 acc in
  (* Action cards (3 of each type) *)
  foldl (λ acc action,
           append_copies "card_" (λ id, action_card id action) 3 acc)
        acc ActionType_members.

Definition num_decks_of (num_players : Z) : Z :=
  Z.max 2 ((num_players + 2) `div` 3).

(** The deck of [create_deck] before the final shuffle. *)
Definition unshuffled_deck (num_players : Z) : list Card :=
  fst (Nat.iter (Z.to_nat (num_decks_of num_players)) append_base_deck ([], 0%N)).

Definition create_deck (num_players : Z) (g : Rng) : list Card * Rng :=
  shuffle (unshuffled_deck num_players) g.
#[global] Arguments unshuffled_deck : simpl never.
#[global] Arguments create_deck : simpl never.


(** ** Game state *)

(** The [GameState] dataclass.  [winner] is a reference to one of the
    player objects of [players]; it is kept as that player's index.
    [rng] is the state of the [random] module. *)
Record GameState := mkGameState {
  players : list Player;
  deck : list Card;
  discard_pile : list Card;
  current_player_idx : nat;
  dealer_idx : nat;
  round_number : Z;
  game_over : bool;
  winner : option nat;
  rng : Rng
}.

Definition set_players (ps : list Player) (s : GameState) : GameState :=
  mkGameState ps (deck s) (discard_pile s) (current_player_idx s)
              (dealer_idx s) (round_number s) (game_over s) (winner s) (rng s).
Definition set_deck (d : list Card) (s : GameState) : GameState :=
  mkGameState (players s) d (discard_pile s) (current_player_idx s)
              (dealer_idx s) (round_number s) (game_over s) (winner s) (rng s).
Definition set_discard_pile (d : list Card) (s : GameState) : GameState :=
  mkGameState (players s) (deck s) d (current_player_idx s)
              (dealer_idx s) (round_number s) (game_over s) (winner s) (rng s).
Definition set_current_player_idx (i : nat) (s : GameState) : GameState :=
  mkGameState (players s) (deck s) (discard_pile s) i
              (dealer_idx s) (round_number s) (game_over s) (winner s) (rng s).
Definition set_dealer_idx (i : nat) (s : GameState) : GameState :=
  mkGameState (players s) (deck s) (discard_pile s) (current_player_idx s)
              i (round_number s) (game_over s) (winner s) (rng s).
Definition set_round_number (n : Z) (s : GameState) : GameState :=
  mkGameState (players s) (deck s) (discard_pile s) (current_player_idx s)
              (dealer_idx s) n (game_over s) (winner s) (rng s).
Definition set_game_over (b : bool) (s : GameState) : GameState :=
  mkGameState (players s) (deck s) (discard_pile s) (current_player_idx s)
              (dealer_idx s) (round_number s) b (winner s) (rng s).
Definition set_winner (w : option nat) (s : GameState) : GameState :=
  mkGameState (players s) (deck s) (discard_pile s) (current_player_idx s)
              (dealer_idx s) (round_number s) (game_over s) w (rng s).
Definition set_rng (g : Rng) (s : GameState) : GameState :=
  mkGameState (players s) (deck s) (discard_pile s) (current_player_idx s)
              (dealer_idx s) (round_number s) (game_over s) (winner s) g.

(** In-place mutation of the player object at index [i]. *)
Definition update_player (i : nat) (f : Player → Player) (s : GameState)
  : GameState :=
  set_players (alter f i (players s)) s.

Definition get_active_players (self : GameState) : list Player :=
  filter (λ p, is_active p = true) (players self).

(** [self.players[self.current_player_idx]] *)
Definition get_current_player (self : GameState) : option Player :=
  players self !! current_player_idx self.

(** The [while True] loop of [next_player].  It runs at most
    [len(players)] times (lemma [next_player_returns]); the model returns
    [None] only if that bound were exceeded or an access raised. *)
Fixpoint next_player_loop (fuel : nat) (start_idx : nat) (self : GameState)
  : option GameState :=
  match fuel with
  | O => None
  | S fuel' =>
      if decide (length (players self) = 0%nat) then None
      else
        let idx := ((current_player_idx self + 1) `mod` length (players self))%nat in
        let self := set_current_player_idx idx self in
        p ← players self !! idx;
        if is_active p then Some self
        else if decide (idx = start_idx) then Some self
        else next_player_loop fuel' start_idx self
  end.

Definition next_player (self : GameState) : option GameState :=
  next_player_loop (length (players self)) (current_player_idx self) self.

(** [list.pop()]: removes and returns the last element; [IndexError]
    on an empty list. *)
Definition py_pop {A : Type} (l : list A) : option (A * list A) :=
  match reverse l with
  | [] => None
  | x :: r => Some (x, reverse r)
  end.

(** The emergency mini-deck of [draw_card], before its shuffle. *)
Definition emergency_deck (card_id : N) : list Card :=
  fst (foldl (λ acc v,
                append_copies "em_" (λ id, number_card id v)
                  (Z.to_nat (Z.max 1 (v `div` 2))) acc)
             ([], card_id) (seqZ 0 13)).
#[global] Arguments emergency_deck : simpl never.


Definition draw_card (self : GameState) : option (Card * GameState) :=
  let self :=
    if decide (deck self = []) then
      (* Reshuffle discard pile *)
      if decide (discard_pile self ≠ []) then
        let '(d, g) := shuffle (discard_pile self) (rng self) in
        set_rng g (set_deck d (set_discard_pile [] self))
      else self
    else self in
  let self :=
    if decide (deck self = []) then
      (* Emergency: if still no cards, create more *)
      let '(card_id, g) := randint 10000 99999 (rng self) in
      let '(mini_deck, g) := shuffle (emergency_deck card_id) g in
      set_rng g (set_deck mini_deck self)
    else self in
  '(card, rest) ← py_pop (deck self);
  Some (card, set_deck rest self).
#[global] Arguments draw_card : simpl never.

(** ** Bot strategies *)

(** The [BotStrategy] interface: the decision method, and the display
    name.  Names are labels only (the engine copies them into
    [Player.name] and prints them); the float formatting that builds
    them in the constructors is not modelled, the label is supplied. *)
Record BotStrategy := mkBotStrategy {
  strategy_name : string;
  should_hit : Player → GameState → option bool
}.

(** The base class: [should_hit] raises [NotImplementedError]. *)
Definition BotStrategy_base (nm : string) : BotStrategy :=
  mkBotStrategy nm (λ _ _, None).

(** [float(n)] for an [int]; exact below 2^53 in absolute value, which
    covers every sum of card values. *)
Definition float_of_int (z : Z) : float :=
  if decide (z < 0) then PrimFloat.opp (PrimFloat.of_uint63 (Uint63.of_Z (- z)))
  else PrimFloat.of_uint63 (Uint63.of_Z z).

(** [a / b] on two [int]s: true division, [ZeroDivisionError] on [b = 0]. *)
Definition py_truediv (a b : Z) : option float :=
  if decide (b = 0) then None
  else Some (PrimFloat.div (float_of_int a) (float_of_int b)).

(** The builtin [min(a, b)] on floats: [b] if [b < a], else [a]. *)
Definition py_min (a b : float) : float :=
  if PrimFloat.ltb b a then b else a.

(** [sum(range(13))] *)
Definition total_number_cards : Z := foldl Z.add 0 (seqZ 0 13).

(** [sum(set(player.get_number_values()))] *)
Definition sum_distinct_values (player : Player) : option Z :=
  py_sum (elements (list_to_set (get_number_values player) : gset (option Z))).

(** [BustProbabilityStrategy.should_hit], with the two attributes of
    [self] as leading arguments. *)
Definition BustProbabilityStrategy_should_hit
  (max_bust_prob : float) (second_chance_aware : bool)
  (player : Player) (game_state : GameState) : option bool :=
  let total_deck_size :=
    (length (deck game_state) + length (discard_pile game_state))%nat in
  if decide (total_deck_size = 0%nat) then Some false (* Can't draw, must stay *)
  else
    bust_cards ← sum_distinct_values player;
    bust_prob ←
      (if decide (total_number_cards > 0)
       then py_truediv bust_cards total_number_cards
       else Some 0%float);
    let effective_threshold :=
      if second_chance_aware && has_second_chance player
      then py_min 1%float (PrimFloat.mul max_bust_prob 2%float)
      else max_bust_prob in
    Some (PrimFloat.leb bust_prob effective_threshold).

Definition BustProbabilityStrategy (nm : string)
  (max_bust_probability : float) (second_chance_aware : bool) : BotStrategy :=
  mkBotStrategy nm
    (BustProbabilityStrategy_should_hit max_bust_probability second_chance_aware).

(** [CardCountStrategy]: hit until holding [target_count] number cards. *)
Definition CardCountStrategy_should_hit
  (target_count : Z) (second_chance_aware : bool)
  (player : Player) (game_state : GameState) : option bool :=
  let num_cards := Z.of_nat (length (get_number_cards player)) in
  let effective_target :=
    if second_chance_aware && has_second_chance player
    then target_count + 1 else target_count in
  Some (bool_decide (num_cards < effective_target)).

Definition CardCountStrategy (nm : string)
  (target_card_count : Z) (second_chance_aware : bool) : BotStrategy :=
  mkBotStrategy nm (CardCountStrategy_should_hit target_card_count second_chance_aware).

(** [PointThresholdStrategy]: hit until reaching a point threshold. *)
Definition PointThresholdStrategy_should_hit (target_points : Z)
  (player : Player) (game_state : GameState) : option bool :=
  current_score ← calculate_score player false;
  Some (bool_decide (current_score < target_points)).

Definition PointThresholdStrategy (nm : string) (target_points : Z) : BotStrategy :=
  mkBotStrategy nm (PointThresholdStrategy_should_hit target_points).

(** [HybridStrategy.should_hit], with the four attributes of [self] as
    leading arguments.  The score is computed first (and may raise);
    the bust estimate only when the two early returns are passed. *)
Definition HybridStrategy_should_hit
  (min_cards target_points : Z) (max_bust_prob : float)
  (second_chance_aware : bool)
  (player : Player) (game_state : GameState) : option bool :=
  let num_cards := Z.of_nat (length (get_number_cards player)) in
  current_score ← calculate_score player false;
  (* Always hit if below minimum cards *)
  if decide (num_cards < min_cards) then Some true
  (* Stop if we've reached target points, unless protected and close *)
  else if bool_decide (current_score >= target_points)
          && negb (second_chance_aware && has_second_chance player
                   && bool_decide (current_score < target_points + 10))
  then Some false
  else
    (* Otherwise check bust probability *)
    bust_cards ← sum_distinct_values player;
    bust_prob ←
      (if decide (total_number_cards > 0)
       then py_truediv bust_cards total_number_cards
       else Some 0%float);
    let effective_threshold :=
      if second_chance_aware && has_second_chance player
      then py_min 1%float (PrimFloat.mul max_bust_prob 2%float)
      else max_bust_prob in
    Some (PrimFloat.leb bust_prob effective_threshold).

Definition HybridStrategy (nm : string) (min_cards target_points : Z)
  (max_bust_prob : float) (second_chance_aware : bool) : BotStrategy :=
  mkBotStrategy nm
    (HybridStrategy_should_hit min_cards target_points max_bust_prob
       second_chance_aware).

(** The decimal literals of [UltimateAdaptiveStrategy], as Python reads
    them: the nearest binary64 values of 0.20, 0.02 and 0.8. *)
Definition lit_0_20 : float := 0x1.999999999999ap-3%float.
Definition lit_0_02 : float := 0x1.47ae147ae147bp-6%float.
Definition lit_0_8 : float := 0x1.999999999999ap-1%float.

(** [UltimateAdaptiveStrategy.should_hit].  [int * float] converts the
    integer; [active_players <= num_players / 2] compares an integer
    with the float quotient. *)
Definition UltimateAdaptiveStrategy_should_hit
  (player : Player) (game_state : GameState) : option bool :=
  let num_cards := Z.of_nat (length (get_number_cards player)) in
  current_score ← calculate_score player false;
  let num_players := Z.of_nat (length (players game_state)) in
  let active_players :=
    Z.of_nat (length (get_active_players game_state)) in
  (* Calculate bust probability *)
  bust_cards ← sum_distinct_values player;
  bust_prob ←
    (if decide (total_number_cards > 0)
     then py_truediv bust_cards total_number_cards
     else Some 0%float);
  (* Adjust strategy based on player count *)
  let base_bust_tolerance :=
    PrimFloat.add lit_0_20
      (PrimFloat.mul (float_of_int (num_players - 2)) lit_0_02) in
  let point_target := 40 + num_players * 2 in
  let min_cards := 3 in
  (* Double risk tolerance with Second Chance *)
  let base_bust_tolerance :=
    if has_second_chance player
    then py_min 1%float (PrimFloat.mul base_bust_tolerance 2%float)
    else base_bust_tolerance in
  let point_target :=
    if has_second_chance player then point_target + 10 else point_target in
  (* Always hit if below minimum cards *)
  if decide (num_cards < min_cards) then Some true
  (* Close to Flip 7 (6 cards) with Second Chance: go for it *)
  else if bool_decide (num_cards = 6) && has_second_chance player
  then Some true
  (* Stop if we've reached target points *)
  else if decide (current_score >= point_target) then
    if has_second_chance player
       && bool_decide (current_score < point_target + 15)
    then Some (PrimFloat.leb bust_prob base_bust_tolerance)
    else Some false
  else
    (* If many players busted, be more conservative *)
    half ← py_truediv num_players 2;
    let base_bust_tolerance :=
      if PrimFloat.leb (float_of_int active_players) half
      then PrimFloat.mul base_bust_tolerance lit_0_8
      else base_bust_tolerance in
    Some (PrimFloat.leb bust_prob base_bust_tolerance).

Definition UltimateAdaptiveStrategy : BotStrategy :=
  mkBotStrategy "Ultimate_Adaptive" UltimateAdaptiveStrategy_should_hit.

(** ** The game engine ([Flip7Game]) *)

(** [initialize_game]; [1 % len(players)] raises on an empty strategy
    list. *)
Definition initialize_game (strategies : list BotStrategy) (g : Rng)
  : option GameState :=
  let players :=
    imap (λ i strategy,
            mkPlayer ("player_" +:+ pretty i) (strategy_name strategy) [] 0 0
                     true false false false None)
         strategies in
  let '(deck, g) := create_deck (Z.of_nat (length players)) g in
  if decide (length players = 0%nat) then None
  else Some (mkGameState players deck [] (1 `mod` length players)%nat 0%nat 1
                         false None g).

(** The action-card bookkeeping shared by the initial deal and by a
    hit: Second Chance and Flip Three set their flag, Freeze sets
    nothing. *)
Definition handle_action_card (i : nat) (card : Card) (gs : GameState)
  : GameState :=
  if decide (card_type card = ACTION) then
    if decide (action_type card = Some SECOND_CHANCE) then
      update_player i (set_has_second_chance true) gs
    else if decide (action_type card = Some FLIP_THREE) then
      update_player i (set_has_flip_three_active true) gs
    else gs
  else gs.

(** One iteration of the loop of [deal_initial_cards], for the player
    at index [i]. *)
Definition deal_one (gs : GameState) (i : nat) : option GameState :=
  '(card, gs) ← draw_card gs;
  let gs := update_player i (λ p, set_cards (cards p ++ [card]) p) gs in
  Some (handle_action_card i card gs).

(** The deal to the first [k] players. *)
Definition deal_upto (k : nat) (gs : GameState) : option GameState :=
  for_each deal_one (seq 0 k) gs.

Definition deal_initial_cards (gs : GameState) : option GameState :=
  deal_upto (length (players gs)) gs.

(** How the [for i in range(num_cards)] loop of [play_turn] was left. *)
Inductive BatchOutcome := BatchCompleted | BatchBust.

#[global] Instance BatchOutcome_eq_dec : EqDecision BatchOutcome.
Proof. solve_decision. Defined.

Definition bust_player (p : Player) : Player :=
  set_round_score 0 (set_is_active false (set_has_busted true p)).

(** The hit loop of [play_turn] for the player at index [i], with [n]
    draws left. *)
Fixpoint hit_batch (n : nat) (i : nat) (gs : GameState)
  : option (GameState * BatchOutcome) :=
  match n with
  | O => Some (gs, BatchCompleted)
  | S n' =>
      '(card, gs) ← draw_card gs;
      player ← players gs !! i;
      (* Check for bust *)
      if would_bust player card then
        if has_second_chance player then
          (* Use second chance *)
          let gs := update_player i (set_has_second_chance false) gs in
          let gs := set_discard_pile (discard_pile gs ++ [card]) gs in
          hit_batch n' i gs
        else
          (* Bust! *)
          Some (update_player i bust_player gs, BatchBust)
      else
        (* Add card to hand *)
        let gs := update_player i (λ p, set_cards (cards p ++ [card]) p) gs in
        hit_batch n' i (handle_action_card i card gs)
  end.

(** Banking a score: [player.round_score = s; player.is_active = False]. *)
Definition bank (s : Z) (p : Player) : Player :=
  set_is_active false (set_round_score s p).

(** [play_turn(player, strategy)], where [player] is the object at
    index [i] of [players].  The boolean is the method's result: [true]
    if the round continues. *)
Definition play_turn (i : nat) (strategy : BotStrategy) (gs : GameState)
  : option (GameState * bool) :=
  player ← players gs !! i;
  if negb (is_active player) then Some (gs, true)
  (* Check for Flip 7 before turn *)
  else if has_flip7 player then
    s ← calculate_score player true;
    Some (update_player i (bank s) gs, false)
  (* Safety: 10+ number cards force a stay *)
  else if decide (10 ≤ length (get_number_cards player))%nat then
    s ← calculate_score player false;
    Some (update_player i (bank s) gs, true)
  else
    (* Bot decides: hit or stay *)
    hit ← should_hit strategy player gs;
    if negb hit then
      s ← calculate_score player false;
      Some (update_player i (bank s) gs, true)
    else
      (* Hit: draw card(s) *)
      let num_cards := if has_flip_three_active player then 3%nat else 1%nat in
      '(gs, outcome) ← hit_batch num_cards i gs;
      match outcome with
      | BatchBust => Some (gs, true)
      | BatchCompleted =>
          player ← players gs !! i;
          (* Check for Flip 7 after drawing *)
          if has_flip7 player then
            s ← calculate_score player true;
            Some (update_player i (bank s) gs, false)
          else
            (* Reset flip three after use *)
            let gs :=
              if decide (num_cards = 3%nat)
              then update_player i (set_has_flip_three_active false) gs
              else gs in
            Some (gs, true)
      end.

(** The reset at the top of [play_round]. *)
Definition reset_player (p : Player) : Player :=
  set_round_score 0
    (set_has_flip_three_active false
      (set_has_second_chance false
        (set_has_busted false (set_is_active true (set_cards [] p))))).

Definition reset_players (gs : GameState) : GameState :=
  set_players (reset_player <$> players gs) gs.

(** Safety limit of the turn loop. *)
Definition max_turns : nat := 100.

(** The [while] loop of [play_round]; [turns_left] is
    [max_turns - turn_count]. *)
Fixpoint round_loop (turns_left : nat) (strategies : list BotStrategy)
  (gs : GameState) : option GameState :=
  match turns_left with
  | O => Some gs
  | S n =>
      if negb (existsb is_active (players gs)) then Some gs
      else
        _ ← get_current_player gs;
        strategy ← strategies !! current_player_idx gs;
        '(gs, round_continues) ← play_turn (current_player_idx gs) strategy gs;
        if negb round_continues then Some gs
        else
          gs ← next_player gs;
          round_loop n strategies gs
  end.

(** [player.score += player.round_score] for every player. *)
Definition add_round_scores (gs : GameState) : GameState :=
  set_players ((λ p, set_score (score p + round_score p) p) <$> players gs) gs.

Definition play_round (strategies : list BotStrategy) (gs : GameState)
  : option GameState :=
  gs ← deal_initial_cards (reset_players gs);
  gs ← round_loop max_turns strategies gs;
  Some (add_round_scores gs).

(** The winner check of [play_game]: the first player, in list order,
    with [score >= 200]. *)
Definition find_winner (ps : list Player) : option nat :=
  fst <$> list_find (λ p, 200 ≤ score p) ps.

(** The bookkeeping between two rounds. *)
Definition next_round (gs : GameState) : option GameState :=
  if decide (length (players gs) = 0%nat) then None
  else
    let gs := set_round_number (round_number gs + 1) gs in
    let gs := set_dealer_idx ((dealer_idx gs + 1) `mod` length (players gs))%nat gs in
    Some (set_current_player_idx
            ((dealer_idx gs + 1) `mod` length (players gs))%nat gs).

(** The [while not game_over] loop of [play_game], for at most
    [rounds] rounds; it returns the final state and the index of the
    winner.  [None] when an operation raises or when [rounds] rounds do
    not decide the match. *)
Fixpoint game_loop (rounds : nat) (strategies : list BotStrategy)
  (gs : GameState) : option (GameState * nat) :=
  match rounds with
  | O => None
  | S n =>
      gs ← play_round strategies gs;
      match find_winner (players gs) with
      | Some w => Some (set_winner (Some w) (set_game_over true gs), w)
      | None =>
          gs ← next_round gs;
          game_loop n strategies gs
      end
  end.

Definition play_game (rounds : nat) (strategies : list BotStrategy) (g : Rng)
  : option (GameState * nat) :=
  gs ← initialize_game strategies g;
  game_loop rounds strategies gs.

(** ** Specification-level definitions *)

(** *** Score, as the specification words it

    (a) the sum of all number values in the hand; (b) multiplied by each
    Multiply modifier's amount, in hand order; (c) plus each Add
    modifier's amount, in hand order; (d) plus a flat 15 on a Flip 7. *)

Definition is_multiply_modifier (c : Card) : Prop :=
  card_type c = MODIFIER ∧ modifier_type c = Some MULTIPLY.
Definition is_add_modifier (c : Card) : Prop :=
  card_type c = MODIFIER ∧ modifier_type c = Some ADD.

#[global] Instance is_multiply_modifier_dec c : Decision (is_multiply_modifier c).
Proof. unfold is_multiply_modifier. apply _. Defined.
#[global] Instance is_add_modifier_dec c : Decision (is_add_modifier c).
Proof. unfold is_add_modifier. apply _. Defined.

Definition score_spec (hand : list Card) (isFlip7 : bool) : option Z :=
  numbers ← mapM value (filter (λ c, card_type c = NUMBER) hand);
  multipliers ← mapM modifier_value (filter is_multiply_modifier hand);
  addends ← mapM modifier_value (filter is_add_modifier hand);
  let total := foldl Z.add 0 numbers in
  let total := foldl Z.mul total multipliers in
  let total := foldl Z.add total addends in
  Some (total + (if isFlip7 then 15 else 0)).

(** The kind and amount printed on a modifier card. *)
Definition modifier_face (c : Card) : option ModifierType * option Z :=
  (modifier_type c, modifier_value c).

(** A hand for the worked example: numbers 3 and 7, an Add(+4) drawn
    before a Multiply(x2). *)
Definition example_hand : list Card :=
  [number_card "card_3" 3; modifier_card "card_80" ADD 4;
   number_card "card_30" 7; modifier_card "card_93" MULTIPLY 2].

Definition example_player (hand : list Card) : Player :=
  mkPlayer "player_0" "bot" hand 0 0 true false false false None.

(** *** Card faces and deck composition *)

(** What is printed on a card: everything but its identifier. *)
Abbreviation Face :=
  (CardType * option Z * option ActionType * option ModifierType * option Z)%type.

Definition face (c : Card) : Face :=
  (card_type c, value c, action_type c, modifier_type c, modifier_value c).

Definition number_face (v : Z) : Face := face (number_card "" v).
Definition add_face (a : Z) : Face := face (modifier_card "" ADD a).
Definition multiply_face (a : Z) : Face := face (modifier_card "" MULTIPLY a).
Definition action_face (k : ActionType) : Face := face (action_card "" k).

(** Number of cards of a list that show face [f]. *)
Definition count_face (f : Face) (l : list Card) : nat :=
  length (filter (λ c, face c = f) l).

(** One copy of the base deck, as the specification lists it: [v] cards
    of each value [v] in 1..12 and one card of value 0; three Add cards
    for each amount in 2, 4, 6, 8, 10; one Multiply(x2); three Action
    cards of each of the three kinds. *)
Definition base_copy_spec : list Face :=
  (seqZ 1 12 ≫= λ v, replicate (Z.to_nat v) (number_face v))
  ++ [number_face 0]
  ++ ([2; 4; 6; 8; 10] ≫= λ a, replicate 3 (add_face a))
  ++ [multiply_face 2]
  ++ ([FREEZE; FLIP_THREE; SECOND_CHANCE] ≫= λ k, replicate 3 (action_face k)).

(** [k] copies of the base deck. *)
Definition copies_spec (k : nat) : list Face :=
  mjoin (replicate k base_copy_spec).

(** [ceil(a / b)] for a positive divisor. *)
Definition ceil_div (a b : Z) : Z := - ((- a) `div` b).

(** The number of copies the specification states:
    [max(2, ceil((playerCount + 2) / 3))]. *)
Definition copies_stated (playerCount : Z) : Z :=
  Z.max 2 (ceil_div (playerCount + 2) 3).

(** The emergency deck, as the specification lists it: Number cards
    only, [max(1, v div 2)] copies of each value 0..12. *)
Definition emergency_spec : list Face :=
  seqZ 0 13 ≫= λ v, replicate (Z.to_nat (Z.max 1 (v `div` 2))) (number_face v).

(** A tape that always answers 0, at its start. *)
Definition zero_rng : Rng := mkRng (λ _, 0%nat) 0.

(** A state with an empty deck and an empty discard pile, and one with
    two spent cards waiting in the discard pile. *)
Definition exhausted_state : GameState :=
  mkGameState [example_player []] [] [] 0 0 1 false None zero_rng.
Definition discard_only_state : GameState :=
  mkGameState [example_player []] []
    [number_card "card_5" 3; action_card "card_100" FREEZE] 0 0 1 false None
    zero_rng.

(** *** Reachable states and their invariant *)

(** A card is well formed when it shows one of the faces of the base
    deck. *)
Definition wf_card (c : Card) : Prop := face c ∈ base_copy_spec.

(** The invariant of a hand: well-formed cards, and no number value
    held twice. *)
Definition hand_ok (p : Player) : Prop :=
  Forall wf_card (cards p) ∧ NoDup (get_number_values p).

(** The invariant of the game state. *)
Record state_ok (gs : GameState) : Prop := mk_state_ok {
  ok_hands : Forall hand_ok (players gs);
  ok_round_scores : Forall (λ p, 0 ≤ round_score p) (players gs);
  ok_deck : Forall wf_card (deck gs);
  ok_discard : Forall wf_card (discard_pile gs);
  ok_players : players gs ≠ [];
  ok_current : (current_player_idx gs < length (players gs))%nat
}.

(** The states of a match: those of [initialize_game], closed under the
    operations the engine performs on them.  The deal is tied to the
    reset that precedes it in [play_round]; [reach_deal] and
    [reach_hit] also cover the states inside the deal loop and inside a
    hit batch. *)
Inductive reachable : GameState → Prop :=
| reach_init strategies g gs :
    initialize_game strategies g = Some gs → reachable gs
| reach_deal gs k gs' :
    reachable gs → (k ≤ length (players gs))%nat →
    deal_upto k (reset_players gs) = Some gs' → reachable gs'
| reach_hit gs n i gs' o :
    reachable gs → (n ≤ 3)%nat →
    hit_batch n i gs = Some (gs', o) → reachable gs'
| reach_turn gs i strategy gs' b :
    reachable gs → play_turn i strategy gs = Some (gs', b) → reachable gs'
| reach_next_player gs gs' :
    reachable gs → next_player gs = Some gs' → reachable gs'
| reach_scores gs :
    reachable gs → reachable (add_round_scores gs)
| reach_winner gs w :
    reachable gs → find_winner (players gs) = Some w →
    reachable (set_winner (Some w) (set_game_over true gs))
| reach_next_round gs gs' :
    reachable gs → next_round gs = Some gs' → reachable gs'.

(** A strategy that answers on every hand that can occur in a match
    (its [should_hit] does not raise there). *)
Definition total_strategy (s : BotStrategy) : Prop :=
  ∀ player gs, hand_ok player → is_Some (should_hit s player gs).

(** What a round never touches between its reset and its final
    scoring: the seating (number of players, whose turn it is, the
    dealer) and every cumulative score. *)
Definition same_seats (gs gs' : GameState) : Prop :=
  score <$> players gs' = score <$> players gs
  ∧ current_player_idx gs' = current_player_idx gs
  ∧ dealer_idx gs' = dealer_idx gs.

(** *** Concrete states used to exercise the theorems *)

(** A player holding a single 5, with or without Second Chance, in a
    state whose deck has another 5 on top (the deck is popped from its
    end) and a 9 below it. *)
Definition five_holder (second_chance : bool) : Player :=
  mkPlayer "player_0" "bot" [number_card "card_11" 5] 0 0 true false
           second_chance false None.

Definition duplicate_on_top (second_chance : bool) : GameState :=
  mkGameState [five_holder second_chance]
    [number_card "card_37" 9; number_card "card_12" 5] [] 0 0 1 false None
    zero_rng.

(** *** Match prefixes: the states real executions pass through *)

(** [k] complete rounds, each followed by the bookkeeping between
    rounds, as the loop of [play_game] runs them while nobody has won. *)
Fixpoint rounds_played (k : nat) (strategies : list BotStrategy)
  (gs : GameState) : option GameState :=
  match k with
  | O => Some gs
  | S k' =>
      gs ← play_round strategies gs;
      gs ← next_round gs;
      rounds_played k' strategies gs
  end.

(** The state of a match after [rounds] complete rounds, the reset and
    deal of the next round, and [turns] iterations of its turn loop. *)
Definition match_prefix (rounds turns : nat) (strategies : list BotStrategy)
  (g : Rng) : option GameState :=
  gs ← initialize_game strategies g;
  gs ← rounds_played rounds strategies gs;
  gs ← deal_initial_cards (reset_players gs);
  round_loop turns strategies gs.

(** A tape whose first cells are [js], then zeros: it stacks the top of
    the shuffled deck. *)
Definition stacked_rng (js : list nat) : Rng :=
  mkRng (λ k, nth k js 0%nat) 0.

Definition always_hit : BotStrategy := CardCountStrategy "CardCount_100" 100 false.
Definition never_hit : BotStrategy := CardCountStrategy "CardCount_0" 0 false.
Definition half_risk : BotStrategy := BustProbabilityStrategy "BustProb_50%" 0.5 false.
Definition no_risk : BotStrategy := BustProbabilityStrategy "BustProb_0%" 0 false.

(** Two players; the second draws 1..6, a Flip Three, then 7, 8, 9 in
    one batch (passing seven distinct values inside the batch) and a 10:
    ten Number cards after nine turns. *)
Definition ten_cards_rng : Rng :=
  stacked_rng [0; 1; 2; 4; 7; 11; 16; 4; 22; 29; 37; 46]%nat.
Definition ten_cards_bots : list BotStrategy := [never_hit; always_hit].
Definition ten_cards_state : GameState :=
  default exhausted_state (match_prefix 0 9 ten_cards_bots ten_cards_rng).

(** Two players who always hit; after ten turns the second holds 1..6
    and the first, still active, holds 12, 11, +2, +4 and two Freeze
    cards; the next card is a 7. *)
Definition flip7_rng : Rng :=
  stacked_rng [95; 1; 2; 79; 4; 82; 7; 7; 11; 67; 16; 56; 22]%nat.
Definition flip7_bots : list BotStrategy := [always_hit; always_hit].
Definition flip7_eve : GameState :=
  default exhausted_state (match_prefix 0 10 flip7_bots flip7_rng).
Definition flip7_drawn : GameState :=
  default exhausted_state (fst <$> hit_batch 1 1 flip7_eve).
Definition flip7_done : GameState :=
  default exhausted_state (match_prefix 0 11 flip7_bots flip7_rng).

(** Two players with a 50% bust threshold on the zero tape: in the
    42nd round the deck and the discard pile are both empty when the
    sixth turn begins. *)
Definition dry_bots : list BotStrategy := [half_risk; half_risk].
Definition dry_state : GameState :=
  default exhausted_state (match_prefix 41 6 dry_bots zero_rng).

(** Two players who hit only on a zero sum, on the zero tape: twelve
    rounds leave nobody at 200, the thirteenth decides the match. *)
Definition cautious_bots : list BotStrategy := [no_risk; no_risk].
Definition before_last_round : GameState :=
  default exhausted_state
    (gs ← initialize_game cautious_bots zero_rng;
     rounds_played 12 cautious_bots gs).
Definition after_last_round : GameState :=
  default exhausted_state (play_round cautious_bots before_last_round).

(** A state in which the only player already holds the seven values
    0..6 when the turn begins. *)
Definition seven_state : GameState :=
  mkGameState
    [example_player
       [number_card "card_0" 0; number_card "card_1" 1; number_card "card_2" 2;
        number_card "card_4" 3; number_card "card_7" 4; number_card "card_11" 5;
        number_card "card_16" 6]]
    [number_card "card_37" 9] [] 0 0 1 false None zero_rng.

(** The opening state of the cautious match, and the state after its
    first round. *)
Definition cautious_start : GameState :=
  default exhausted_state (initialize_game cautious_bots zero_rng).
Definition after_first_round : GameState :=
  default exhausted_state (play_round cautious_bots cautious_start).

(** *** The bust-probability rule, as the specification words it *)

(** The estimate: the sum of the distinct number values held, over 78. *)
Definition bust_estimate (s : Z) : float :=
  PrimFloat.div (float_of_int s) (float_of_int 78).

(** The effective threshold: [min(1, 2p)] for a Second-Chance-aware
    strategy whose player holds Second Chance, [p] otherwise. *)
Definition effective_threshold (p : float) (scAware : bool) (player : Player)
  : float :=
  if scAware && has_second_chance player
  then py_min 1%float (PrimFloat.mul p 2%float)
  else p.

(** C6 as stated: the strategy hits exactly when the estimate is at most
    the effective threshold. *)
Definition hits_iff_within_threshold (p : float) (scAware : bool)
  (player : Player) (gs : GameState) : Prop :=
  ∀ s, sum_distinct_values player = Some s →
       (BustProbabilityStrategy_should_hit p scAware player gs = Some true
        ↔ PrimFloat.leb (bust_estimate s) (effective_threshold p scAware player)
          = true).

(** Sum of a list of present values. *)
Definition sum_present (xs : list (option Z)) : Z :=
  foldr (λ x acc, default 0 x + acc) 0 xs.

(** The player whose turn it is in [dry_state]. *)
Definition dry_player : Player :=
  default (example_player []) (players dry_state !! 0%nat).

(** *** Definitions for the further properties *)

(** A hand of seven Number cards, one value held twice. *)
Definition seven_with_duplicate : list Card :=
  [number_card "card_1" 1; number_card "card_2" 2; number_card "card_4" 3;
   number_card "card_7" 4; number_card "card_11" 5; number_card "card_16" 6;
   number_card "card_17" 6].

(** Every card of the table: deck, discard pile and hands. *)
Definition all_cards (gs : GameState) : list Card :=
  deck gs ++ discard_pile gs ++ mjoin (cards <$> players gs).

(** A player with a Flip Three pending and a 4 in hand; the next three
    cards of the deck (popped from its end) are a 9, another Flip Three
    and a Freeze. *)
Definition flip_three_state : GameState :=
  mkGameState
    [mkPlayer "player_0" "bot"
       [action_card "card_97" FLIP_THREE; number_card "card_7" 4]
       0 0 true false false true None]
    [number_card "card_50" 12; action_card "card_95" FREEZE;
     action_card "card_98" FLIP_THREE; number_card "card_37" 9]
    [] 0 0 1 false None zero_rng.

(** The round-state invariant of a player: while active nothing is
    banked and the player has not busted; a busted player has left the
    round with nothing. *)
Definition round_state_ok (p : Player) : Prop :=
  (is_active p = true → round_score p = 0 ∧ has_busted p = false)
  ∧ (has_busted p = true → is_active p = false ∧ round_score p = 0).

(** The dealer of round [r] on a table of [n] players is seat
    [(r - 1) mod n]. *)
Definition rotation_ok (gs : GameState) : Prop :=
  1 ≤ round_number gs
  ∧ Z.of_nat (dealer_idx gs)
    = (round_number gs - 1) `mod` Z.of_nat (length (players gs)).

(** A second invariant of the game state, on what the engine's
    bookkeeping maintains: the discard pile receives Number cards only,
    every player's round state is consistent, and the dealer follows the
    round number. *)
Record table_ok (gs : GameState) : Prop := mk_table_ok {
  tbl_discard : Forall (λ c, card_type c = NUMBER) (discard_pile gs);
  tbl_round : Forall round_state_ok (players gs);
  tbl_rotation : rotation_ok gs
}.

(** The last round of the cautious match, replayed with a first player
    who always hits. *)
Definition reckless_bots : list BotStrategy := [always_hit; never_hit].

Definition after_reckless_round : GameState :=
  default exhausted_state (play_round reckless_bots before_last_round).

(** *** [UltimateAdaptiveStrategy] in exact arithmetic *)

(** The bust tolerance in percent: 20 + 2 (n - 2), doubled and capped at
    100 for a player who holds Second Chance. *)
Definition tolerance_percent (num_players : Z) (protected : bool) : Z :=
  let t := 20 + 2 * (num_players - 2) in
  if protected then Z.min 100 (2 * t) else t.

(** [s / 78 ≤ t / 100], and [s / 78 ≤ 0.8 * t / 100] for the cautious
    variant, over the integers. *)
Definition within_tolerance (s t : Z) (cautious : bool) : bool :=
  if cautious then bool_decide (1000 * s ≤ 78 * 8 * t)
  else bool_decide (100 * s ≤ 78 * t).

(** The decision of the strategy, from the number of Number cards held,
    the plain score, the sum of the distinct values, the number of
    players, the number of active players and the Second Chance flag. *)
Definition ultimate_spec (num_cards current_score s num_players active : Z)
  (protected : bool) : bool :=
  let point_target := 40 + 2 * num_players + (if protected then 10 else 0) in
  if bool_decide (num_cards < 3) then true
  else if bool_decide (num_cards = 6) && protected then true
  else if bool_decide (point_target ≤ current_score) then
    protected && bool_decide (current_score < point_target + 15)
    && within_tolerance s (tolerance_percent num_players true) false
  else
    within_tolerance s (tolerance_percent num_players protected)
      (bool_decide (2 * active ≤ num_players)).

(** The same tolerance as the code computes it, in binary64. *)
Definition ultimate_tolerance (num_players : Z) (protected cautious : bool)
  : float :=
  let t := PrimFloat.add lit_0_20
             (PrimFloat.mul (float_of_int (num_players - 2)) lit_0_02) in
  let t := if protected then py_min 1%float (PrimFloat.mul t 2%float) else t in
  if cautious then PrimFloat.mul t lit_0_8 else t.

(** The record of a player who receives the card [c]: the card is
    appended to the hand, then Second Chance and Flip Three set their
    flag (the bookkeeping of [deal_initial_cards] and of a kept card in
    [play_turn]). *)
Definition receive (c : Card) (p : Player) : Player :=
  let p := set_cards (cards p ++ [c]) p in
  if decide (card_type c = ACTION) then
    if decide (action_type c = Some SECOND_CHANCE) then
      set_has_second_chance true p
    else if decide (action_type c = Some FLIP_THREE) then
      set_has_flip_three_active true p
    else p
  else p.

(** The identifiers [f"{prefix}{k}"] for [k] in [cid, cid + n). *)
Definition id_range (prefix : string) (cid : N) (n : nat) : list string :=
  (λ k, prefix +:+ pretty (cid + N.of_nat k)%N) <$> seq 0 n.

(** * Properties *)

(** ** Scoring *)

Section for_each_facts.
Context {A S : Type}.
Implicit Types (body : S → A → option S) (xs : list A) (s : S).

Lemma for_each_app body xs ys s :
  for_each body (xs ++ ys) s = s' ← for_each body xs s; for_each body ys s'.
Proof.
  revert s. induction xs as [|x xs IH]; intros s; simpl; [done|].
  destruct (body s x) as [s'|]; simpl; [apply IH | done].
Qed.

Lemma for_each_ext body1 body2 xs s :
  (∀ s x, x ∈ xs → body1 s x = body2 s x) →
  for_each body1 xs s = for_each body2 xs s.
Proof.
  revert s. induction xs as [|x xs IH]; intros s Hb; simpl; [done|].
  rewrite Hb by left. destruct (body2 s x); simpl; [|done].
  apply IH. intros; apply Hb. by right.
Qed.

End for_each_facts.

Lemma py_sum_acc (cs : list Card) (acc : Z) :
  for_each (λ total x, v ← x; Some (total + v)) (value <$> cs) acc
  = ns ← mapM value cs; Some (foldl Z.add acc ns).
Proof.
  revert acc. induction cs as [|c cs IH]; intros acc; simpl; [done|].
  destruct (value c) as [v|]; simpl; [|done].
  rewrite IH. by destruct (mapM value cs).
Qed.

Lemma multiply_pass_spec (hand : list Card) (acc : Z) :
  for_each (λ total card,
              if decide (modifier_type card = Some MULTIPLY)
              then v ← modifier_value card; Some (total * v)
              else Some total)
           (filter (λ c, card_type c = MODIFIER) hand) acc
  = ms ← mapM modifier_value (filter is_multiply_modifier hand);
    Some (foldl Z.mul acc ms).
Proof.
  revert acc. induction hand as [|c hand IH]; intros acc; [done|].
  rewrite !filter_cons. unfold is_multiply_modifier at 1.
  destruct (decide (card_type c = MODIFIER)) as [Hk|Hk].
  - simpl. destruct (decide (modifier_type c = Some MULTIPLY)) as [Hm|Hm].
    + rewrite decide_True by done. simpl.
      destruct (modifier_value c) as [v|]; simpl; [|done].
      rewrite IH. by destruct (mapM _ _).
    + rewrite decide_False by (by intros [? ?]). simpl. apply IH.
  - rewrite decide_False by (by intros [? ?]). apply IH.
Qed.

Lemma add_pass_spec (hand : list Card) (acc : Z) :
  for_each (λ total card,
              if decide (modifier_type card = Some ADD)
              then v ← modifier_value card; Some (total + v)
              else Some total)
           (filter (λ c, card_type c = MODIFIER) hand) acc
  = ms ← mapM modifier_value (filter is_add_modifier hand);
    Some (foldl Z.add acc ms).
Proof.
  revert acc. induction hand as [|c hand IH]; intros acc; [done|].
  rewrite !filter_cons. unfold is_add_modifier at 1.
  destruct (decide (card_type c = MODIFIER)) as [Hk|Hk].
  - simpl. destruct (decide (modifier_type c = Some ADD)) as [Hm|Hm].
    + rewrite decide_True by done. simpl.
      destruct (modifier_value c) as [v|]; simpl; [|done].
      rewrite IH. by destruct (mapM _ _).
    + rewrite decide_False by (by intros [? ?]). simpl. apply IH.
  - rewrite decide_False by (by intros [? ?]). apply IH.
Qed.

Lemma calculate_score_spec (self : Player) (is_flip7 : bool) :
  calculate_score self is_flip7 = score_spec (cards self) is_flip7.
Proof.
  unfold calculate_score, score_spec, py_sum, get_number_values,
    get_modifier_cards, get_number_cards.
  rewrite py_sum_acc.
  destruct (mapM value _) as [ns|]; simpl; [|done].
  rewrite multiply_pass_spec.
  destruct (mapM modifier_value (filter is_multiply_modifier _)) as [ms|];
    simpl; [|done].
  rewrite add_pass_spec.
  destruct (mapM modifier_value (filter is_add_modifier _)) as [az|];
    simpl; [|done].
  destruct is_flip7; f_equal; lia.
Qed.

Lemma score_of_add4_mul2 (self : Player) :
  py_sum (get_number_values self) = Some 10 →
  modifier_face <$> get_modifier_cards self
    ≡ₚ [(Some ADD, Some 4); (Some MULTIPLY, Some 2)] →
  calculate_score self false = Some 24.
Proof.
  intros Hsum Hmods. unfold calculate_score. rewrite Hsum. simpl.
  symmetry in Hmods. apply Permutation_length_2_inv in Hmods.
  destruct (get_modifier_cards self) as [|c1 [|c2 [|c3 l]]];
    destruct Hmods as [Hm|Hm]; try discriminate Hm;
    unfold modifier_face in Hm; simpl in Hm;
    injection Hm as Ht1 Hv1 Ht2 Hv2;
    simpl; rewrite Ht1, Ht2, Hv1, Hv2; reflexivity.
Qed.

(** C1.  [calculate_score] is the pipeline of the specification: number
    sum, then every Multiply modifier in hand order, then every Add
    modifier in hand order, then the flat 15 of a Flip 7.  A hand whose
    numbers sum to 10 and whose modifiers are one Add(+4) and one
    Multiply(x2), in either order, scores 24 without the bonus. *)
Theorem calculate_score_pipeline :
  (∀ (self : Player) (is_flip7 : bool),
     calculate_score self is_flip7 = score_spec (cards self) is_flip7)
  ∧ (∀ self : Player,
       py_sum (get_number_values self) = Some 10 →
       modifier_face <$> get_modifier_cards self
         ≡ₚ [(Some ADD, Some 4); (Some MULTIPLY, Some 2)] →
       calculate_score self false = Some 24).
Proof.
  split.
  - apply calculate_score_spec.
  - apply score_of_add4_mul2.
Qed.

Lemma calculate_score_pipeline_witness :
  calculate_score (example_player example_hand) false = Some 24
  ∧ score_spec example_hand true = Some 39.
Proof.
  split.
  - apply (proj2 calculate_score_pipeline (example_player example_hand)).
    + reflexivity.
    + reflexivity.
  - exact (eq_trans
             (eq_sym (proj1 calculate_score_pipeline
                        (example_player example_hand) true))
             eq_refl).
Defined.

(** ** The random source and the deck *)

(** Simplification that leaves the random source and the decks folded. *)
Ltac cbn_state :=
  cbn -[randint randbelow shuffle emergency_deck create_deck unshuffled_deck].

Lemma swap_Permutation {A : Type} (x : list A) (i j : nat) : swap x i j ≡ₚ x.
Proof.
  unfold swap.
  destruct (x !! i) as [a|] eqn:Hi; [|done].
  destruct (x !! j) as [b|] eqn:Hj; [|done].
  by apply Permutation_insert_swap.
Qed.

Lemma shuffle_loop_Permutation {A : Type} (i : nat) (x : list A) (g : Rng) :
  (shuffle_loop i x g).1 ≡ₚ x.
Proof.
  revert x g. induction i as [|i IH]; intros x g; [done|].
  cbn [shuffle_loop]. unfold randbelow.
  rewrite IH. apply swap_Permutation.
Qed.

Lemma shuffle_Permutation {A : Type} (x : list A) (g : Rng) :
  (shuffle x g).1 ≡ₚ x.
Proof. apply shuffle_loop_Permutation. Qed.

Lemma shuffle_nil_inv {A : Type} (x : list A) (g : Rng) :
  (shuffle x g).1 = [] → x = [].
Proof.
  intros H. apply Permutation_nil_r. rewrite <- H.
  symmetry. apply shuffle_Permutation.
Qed.

Lemma randint_range (a b : N) (g : Rng) :
  (a ≤ b)%N → (a ≤ (randint a b g).1 ≤ b)%N.
Proof.
  intros Hab. unfold randint, randbelow. cbn [fst].
  assert (tape g (pos g) `mod` N.to_nat (b - a + 1) < N.to_nat (b - a + 1))%nat.
  { apply Nat.mod_upper_bound. lia. }
  lia.
Qed.

Lemma py_pop_snoc {A : Type} (l : list A) (x : A) :
  py_pop (l ++ [x]) = Some (x, l).
Proof. unfold py_pop. by rewrite reverse_snoc, reverse_involutive. Qed.

Lemma py_pop_Some {A : Type} (l r : list A) (x : A) :
  py_pop l = Some (x, r) ↔ l = r ++ [x].
Proof.
  split.
  - unfold py_pop. destruct (reverse l) as [|y k] eqn:Hr; [done|].
    intros [= <- <-]. rewrite <- (reverse_involutive l), Hr.
    by rewrite reverse_cons.
  - intros ->. apply py_pop_snoc.
Qed.

Lemma py_pop_is_Some {A : Type} (l : list A) :
  l ≠ [] → ∃ x r, py_pop l = Some (x, r) ∧ l = r ++ [x].
Proof.
  intros Hl. destruct (reverse l) as [|y k] eqn:Hr.
  - apply (f_equal reverse) in Hr. rewrite reverse_involutive in Hr. done.
  - exists y, (reverse k).
    assert (l = reverse k ++ [y]) as ->.
    { by rewrite <- (reverse_involutive l), Hr, reverse_cons. }
    split; [apply py_pop_snoc | done].
Qed.

(** Faces of the cards that [append_copies] adds. *)
Lemma append_copies_faces prefix (mk : string → Card) (f : Face)
    (n : nat) (acc : list Card * N) :
  (∀ id, face (mk id) = f) →
  face <$> (append_copies prefix mk n acc).1 = (face <$> acc.1) ++ replicate n f.
Proof.
  intros Hmk. revert acc. induction n as [|n IH]; intros [deck cid]; simpl.
  - by rewrite app_nil_r.
  - rewrite IH. simpl. rewrite fmap_app. simpl. rewrite Hmk.
    by rewrite <- app_assoc.
Qed.

Lemma foldl_append_copies_faces {X : Type} prefix (mk : X → string → Card)
    (cnt : X → nat) (f : X → Face) (xs : list X) (acc : list Card * N) :
  (∀ x id, face (mk x id) = f x) →
  face <$> (foldl (λ acc x, append_copies prefix (mk x) (cnt x) acc) acc xs).1
  = (face <$> acc.1) ++ (xs ≫= λ x, replicate (cnt x) (f x)).
Proof.
  intros Hmk. revert acc. induction xs as [|x xs IH]; intros acc; simpl.
  - by rewrite app_nil_r.
  - rewrite IH, (append_copies_faces _ _ (f x)) by apply Hmk.
    by rewrite <- app_assoc.
Qed.

Lemma emergency_deck_faces (card_id : N) :
  face <$> emergency_deck card_id = emergency_spec.
Proof.
  unfold emergency_deck, emergency_spec.
  rewrite (foldl_append_copies_faces "em_" (λ v id, number_card id v)
             (λ v, Z.to_nat (Z.max 1 (v `div` 2))) number_face); done.
Qed.

Lemma emergency_deck_length (card_id : N) :
  length (emergency_deck card_id) = 38%nat.
Proof.
  rewrite <- (length_fmap face), emergency_deck_faces. reflexivity.
Qed.

(** From here on the shuffle, the random integer and the emergency deck
    are used through the lemmas above only. *)
#[global] Opaque shuffle randint emergency_deck.

Lemma draw_card_from_deck (self : GameState) (rest : list Card) (card : Card) :
  deck self = rest ++ [card] →
  draw_card self = Some (card, set_deck rest self).
Proof.
  intros Hd. unfold draw_card.
  assert (deck self ≠ []) as Hne by (rewrite Hd; by destruct rest).
  destruct (decide (deck self = [])) as [He|_]; [done|].
  cbn_state. destruct (decide (deck self = [])) as [He|_]; [done|].
  rewrite Hd, py_pop_snoc. done.
Qed.

(** What [draw_card] returns, by the state of the deck and of the discard
    pile. *)
Lemma draw_card_cases (self : GameState) :
  ∃ card self',
    draw_card self = Some (card, self')
    ∧ players self' = players self
    ∧ if decide (deck self ≠ []) then
        deck self = deck self' ++ [card]
        ∧ discard_pile self' = discard_pile self
      else if decide (discard_pile self ≠ []) then
        deck self' ++ [card] ≡ₚ discard_pile self
        ∧ discard_pile self' = []
      else
        (∃ card_id, (10000 ≤ card_id ≤ 99999)%N
                    ∧ deck self' ++ [card] ≡ₚ emergency_deck card_id)
        ∧ face <$> (deck self' ++ [card]) ≡ₚ emergency_spec
        ∧ Forall (λ c, card_type c = NUMBER) (deck self' ++ [card])
        ∧ length (deck self' ++ [card]) = 38%nat
        ∧ discard_pile self' = [].
Proof.
  unfold draw_card.
  destruct (decide (deck self = [])) as [Hd|Hd].
  - destruct (decide (discard_pile self ≠ [])) as [Hp|Hp].
    + (* reshuffle of the discard pile *)
      pose proof (shuffle_Permutation (discard_pile self) (rng self)) as Hperm.
      destruct (shuffle (discard_pile self) (rng self)) as [d g].
      cbn [fst] in Hperm.
      assert (d ≠ []) as Hdne.
      { intros ->. apply Permutation_nil_l in Hperm. by symmetry in Hperm. }
      cbn_state. destruct (decide (d = [])) as [?|_]; [done|].
      destruct (py_pop_is_Some d Hdne) as (x & r & Hpop & ->).
      cbn_state. rewrite Hpop. cbn_state.
      exists x, (set_deck r
                   (set_rng g (set_deck (r ++ [x]) (set_discard_pile [] self)))).
      split; [done|]. split; [done|].
      destruct (decide (deck self ≠ [])) as [?|_]; [congruence|].
      destruct (decide (discard_pile self ≠ [])) as [_|?]; [|tauto].
      split; [exact Hperm|reflexivity].
    + (* emergency deck *)
      cbn_state. destruct (decide (deck self = [])) as [_|?]; [|done].
      pose proof (randint_range 10000 99999 (rng self)) as Hrange.
      destruct (randint 10000 99999 (rng self)) as [cid g].
      cbn [fst] in Hrange.
      pose proof (shuffle_Permutation (emergency_deck cid) g) as Hperm.
      destruct (shuffle (emergency_deck cid) g) as [d g'].
      cbn [fst] in Hperm.
      assert (d ≠ []) as Hdne.
      { intros ->. apply Permutation_length in Hperm.
        rewrite emergency_deck_length in Hperm. discriminate Hperm. }
      destruct (py_pop_is_Some d Hdne) as (x & r & Hpop & ->).
      cbn_state. rewrite Hpop. cbn_state.
      exists x, (set_deck r (set_rng g' (set_deck (r ++ [x]) self))).
      split; [done|]. split; [done|].
      destruct (decide (deck self ≠ [])) as [?|_]; [congruence|].
      destruct (decide (discard_pile self ≠ [])) as [?|_]; [tauto|].
      cbn_state.
      assert (face <$> r ++ [x] ≡ₚ emergency_spec) as Hfaces.
      { rewrite Hperm. by rewrite emergency_deck_faces. }
      split_and!.
      * exists cid. split; [|exact Hperm].
        apply Hrange. lia.
      * done.
      * rewrite Hperm.
        apply Forall_forall. intros c Hc.
        assert (face c ∈ emergency_spec) as Hf.
        { rewrite <- (emergency_deck_faces cid). by apply list_elem_of_fmap_2. }
        revert Hf. unfold face. generalize (card_type c).
        intros k Hf. vm_compute in Hf.
        repeat (apply elem_of_cons in Hf as [Hf|Hf]; [by injection Hf|]).
        by apply elem_of_nil in Hf.
      * rewrite Hperm. apply emergency_deck_length.
      * apply dec_stable in Hp. exact Hp.
  - cbn_state. destruct (decide (deck self = [])) as [He|_]; [done|].
    destruct (py_pop_is_Some (deck self) Hd) as (x & r & Hpop & Hdeck).
    rewrite Hpop. cbn_state.
    exists x, (set_deck r self). split; [done|]. split; [done|].
    destruct (decide (deck self ≠ [])) as [_|?]; [|tauto].
    split; [exact Hdeck|reflexivity].
Qed.

(** C5.  [draw_card] returns a card in every state.  With a non-empty
    deck it pops the last card.  With an empty deck and a non-empty
    discard pile the shuffled discard pile becomes the deck and the
    discard pile is cleared.  With both empty the deck becomes a shuffled
    emergency deck: Number cards only, [max(1, v div 2)] copies of each
    value 0..12, 38 cards, so the draw succeeds there too. *)
Theorem draw_card_total (self : GameState) :
  ∃ card self',
    draw_card self = Some (card, self')
    ∧ players self' = players self
    ∧ if decide (deck self ≠ []) then
        deck self = deck self' ++ [card]
        ∧ discard_pile self' = discard_pile self
      else if decide (discard_pile self ≠ []) then
        deck self' ++ [card] ≡ₚ discard_pile self
        ∧ discard_pile self' = []
      else
        (∃ card_id, (10000 ≤ card_id ≤ 99999)%N
                    ∧ deck self' ++ [card] ≡ₚ emergency_deck card_id)
        ∧ face <$> (deck self' ++ [card]) ≡ₚ emergency_spec
        ∧ Forall (λ c, card_type c = NUMBER) (deck self' ++ [card])
        ∧ length (deck self' ++ [card]) = 38%nat
        ∧ discard_pile self' = [].
Proof.
  destruct (draw_card_cases self) as (card & self' & Hdraw & Hplayers & Hcases).
  exists card, self'. split; [exact Hdraw|]. split; [exact Hplayers|].
  exact Hcases.
Qed.

(** One pass of the deck-building loop appends one copy of the base
    deck (the code puts the single 0 first). *)
Lemma append_base_deck_faces (acc : list Card * N) :
  face <$> (append_base_deck acc).1 ≡ₚ (face <$> acc.1) ++ base_copy_spec.
Proof.
  unfold append_base_deck.
  rewrite (foldl_append_copies_faces "card_" (λ k id, action_card id k)
             (λ _, 3%nat) action_face) by done.
  rewrite (append_copies_faces "card_" _ (multiply_face 2)) by done.
  rewrite (foldl_append_copies_faces "card_" (λ a id, modifier_card id ADD a)
             (λ _, 3%nat) add_face) by done.
  rewrite (foldl_append_copies_faces "card_" (λ v id, number_card id v)
             (λ v, Z.to_nat (if decide (v > 0) then v else 1)) number_face)
    by done.
  rewrite <- !app_assoc. apply Permutation_app_head.
  unfold base_copy_spec, ActionType_members.
  change (seqZ 0 13 ≫= _)
    with (number_face 0
          :: (seqZ 1 12 ≫= λ v, replicate (Z.to_nat v) (number_face v))).
  apply (Permutation_middle _ _ (number_face 0)).
Qed.

Lemma unshuffled_deck_faces (k : nat) :
  face <$> (Nat.iter k append_base_deck ([], 0%N)).1 ≡ₚ copies_spec k.
Proof.
  induction k as [|k IH]; [reflexivity|].
  rewrite Nat.iter_succ, append_base_deck_faces, IH.
  unfold copies_spec.
  change (mjoin (replicate (S k) base_copy_spec))
    with (base_copy_spec ++ mjoin (replicate k base_copy_spec)).
  apply Permutation_app_comm.
Qed.

Lemma create_deck_faces (num_players : Z) (g : Rng) :
  face <$> (create_deck num_players g).1
  ≡ₚ copies_spec (Z.to_nat (num_decks_of num_players)).
Proof.
  unfold create_deck. rewrite shuffle_Permutation.
  apply unshuffled_deck_faces.
Qed.

Lemma count_face_fmap (f : Face) (l : list Card) :
  count_face f l = length (filter (λ x, x = f) (face <$> l)).
Proof.
  unfold count_face. induction l as [|c l IH]; [done|].
  rewrite fmap_cons, !filter_cons.
  destruct (decide (face c = f)); simpl; by rewrite IH.
Qed.

Lemma count_copies_spec (f : Face) (k : nat) :
  length (filter (λ x, x = f) (copies_spec k))
  = (k * length (filter (λ x, x = f) base_copy_spec))%nat.
Proof.
  unfold copies_spec. induction k as [|k IH]; [reflexivity|].
  change (mjoin (replicate (S k) base_copy_spec))
    with (base_copy_spec ++ mjoin (replicate k base_copy_spec)).
  rewrite filter_app, length_app, IH. lia.
Qed.

Lemma count_face_create_deck (f : Face) (num_players : Z) (g : Rng) :
  count_face f (create_deck num_players g).1
  = (Z.to_nat (num_decks_of num_players)
     * length (filter (λ x, x = f) base_copy_spec))%nat.
Proof.
  rewrite count_face_fmap, create_deck_faces. apply count_copies_spec.
Qed.

Lemma base_copy_spec_length : length base_copy_spec = 104%nat.
Proof. reflexivity. Qed.

Lemma create_deck_length (num_players : Z) (g : Rng) :
  length (create_deck num_players g).1
  = (Z.to_nat (num_decks_of num_players) * 104)%nat.
Proof.
  rewrite <- (length_fmap face), create_deck_faces.
  unfold copies_spec.
  induction (Z.to_nat (num_decks_of num_players)) as [|k IH]; [reflexivity|].
  change (mjoin (replicate (S k) base_copy_spec))
    with (base_copy_spec ++ mjoin (replicate k base_copy_spec)).
  rewrite length_app, IH, base_copy_spec_length. lia.
Qed.

(** C4 (amended).  The deck built for [num_players] players consists of
    exactly [max(2, (num_players + 2) div 3)] copies of the base deck,
    the division rounding down: per copy [v] Number cards of each value
    [v] in 1..12 and one of value 0, three Add cards for each of 2, 4, 6,
    8, 10, one Multiply(x2), three Action cards of each kind, and nothing
    else (104 cards). *)
Theorem create_deck_composition (num_players : Z) (g : Rng) :
  let copies := Z.to_nat (Z.max 2 ((num_players + 2) `div` 3)) in
  let deck := (create_deck num_players g).1 in
  face <$> deck ≡ₚ copies_spec copies
  ∧ (∀ v, 1 ≤ v ≤ 12 →
       count_face (number_face v) deck = (copies * Z.to_nat v)%nat)
  ∧ count_face (number_face 0) deck = copies
  ∧ (∀ a, a ∈ [2; 4; 6; 8; 10] →
       count_face (add_face a) deck = (copies * 3)%nat)
  ∧ count_face (multiply_face 2) deck = copies
  ∧ (∀ k : ActionType, count_face (action_face k) deck = (copies * 3)%nat)
  ∧ length deck = (copies * 104)%nat.
Proof.
  intros copies deck. subst copies deck.
  change (Z.max 2 ((num_players + 2) `div` 3)) with (num_decks_of num_players).
  split_and!.
  - apply create_deck_faces.
  - intros v Hv. rewrite count_face_create_deck. f_equal.
    assert (v = 1 ∨ v = 2 ∨ v = 3 ∨ v = 4 ∨ v = 5 ∨ v = 6 ∨ v = 7 ∨ v = 8
            ∨ v = 9 ∨ v = 10 ∨ v = 11 ∨ v = 12) as Hcases by lia.
    repeat (destruct Hcases as [->|Hcases]; [reflexivity|]).
    subst v. reflexivity.
  - rewrite count_face_create_deck.
    change (length (filter _ base_copy_spec)) with 1%nat. lia.
  - intros a Ha. rewrite count_face_create_deck. f_equal.
    repeat (apply elem_of_cons in Ha as [->|Ha]; [reflexivity|]).
    by apply elem_of_nil in Ha.
  - rewrite count_face_create_deck.
    change (length (filter _ base_copy_spec)) with 1%nat. lia.
  - intros k. rewrite count_face_create_deck. f_equal.
    by destruct k.
  - apply create_deck_length.
Qed.

(** C4, as stated, fails for five players: the code builds
    [(5 + 2) div 3 = 2] copies (208 cards), the stated
    [ceil((5 + 2) / 3) = 3] copies would be 312 cards. *)
Lemma create_deck_copies_counterexample :
  copies_stated 5 = 3
  ∧ length (create_deck 5 zero_rng).1 = 208%nat
  ∧ count_face (multiply_face 2) (create_deck 5 zero_rng).1 = 2%nat
  ∧ ¬ (face <$> (create_deck 5 zero_rng).1
         ≡ₚ copies_spec (Z.to_nat (copies_stated 5))).
Proof.
  split; [reflexivity|].
  split; [vm_compute; reflexivity|].
  split; [vm_compute; reflexivity|].
  intros Hperm. apply Permutation_length in Hperm.
  rewrite length_fmap in Hperm. vm_compute in Hperm. discriminate Hperm.
Qed.

(** ** Frame lemmas: what each operation leaves unchanged *)

Lemma update_player_lookup (i : nat) (f : Player → Player) (gs : GameState)
    (p : Player) :
  players gs !! i = Some p →
  players (update_player i f gs) !! i = Some (f p).
Proof. intros H. simpl. by rewrite list_lookup_alter_eq, H. Qed.

Lemma update_player_lookup_ne (i j : nat) (f : Player → Player)
    (gs : GameState) :
  i ≠ j → players (update_player i f gs) !! j = players gs !! j.
Proof. intros H. simpl. by rewrite list_lookup_alter_ne. Qed.

Lemma update_player_length (i : nat) (f : Player → Player) (gs : GameState) :
  length (players (update_player i f gs)) = length (players gs).
Proof. simpl. apply length_alter. Qed.

Lemma draw_card_players (gs gs' : GameState) (card : Card) :
  draw_card gs = Some (card, gs') → players gs' = players gs.
Proof.
  intros H. destruct (draw_card_cases gs) as (c & s & Hd & Hp & _).
  rewrite Hd in H. by injection H as <- <-.
Qed.

(** ** Turn resolution *)

(** C2.  In a hit batch, when the drawn card is a Number card whose
    value the player already holds: with Second Chance the flag is
    consumed, the card goes to the discard pile and not to the hand, the
    player stays as active as before, and the batch goes on with the
    remaining draws; without it the player busts (round score 0,
    [has_busted], deactivated) and the batch returns at once, whatever
    number of draws was left. *)
Theorem hit_batch_duplicate (n i : nat) (gs gs1 : GameState)
    (card : Card) (player : Player) :
  draw_card gs = Some (card, gs1) →
  players gs !! i = Some player →
  would_bust player card = true →
  (has_second_chance player = true →
     let player' := set_has_second_chance false player in
     let gs2 := set_discard_pile (discard_pile gs1 ++ [card])
                  (update_player i (set_has_second_chance false) gs1) in
     hit_batch (S n) i gs = hit_batch n i gs2
     ∧ players gs2 !! i = Some player'
     ∧ is_active player' = is_active player
     ∧ has_second_chance player' = false
     ∧ cards player' = cards player
     ∧ discard_pile gs2 = discard_pile gs1 ++ [card]
     ∧ deck gs2 = deck gs1)
  ∧ (has_second_chance player = false →
     let player' := bust_player player in
     let gs2 := update_player i bust_player gs1 in
     hit_batch (S n) i gs = Some (gs2, BatchBust)
     ∧ players gs2 !! i = Some player'
     ∧ round_score player' = 0
     ∧ has_busted player' = true
     ∧ is_active player' = false
     ∧ cards player' = cards player
     ∧ deck gs2 = deck gs1
     ∧ discard_pile gs2 = discard_pile gs1).
Proof.
  intros Hdraw Hp Hbust.
  pose proof (draw_card_players _ _ _ Hdraw) as Hps.
  assert (players gs1 !! i = Some player) as Hp1 by (by rewrite Hps).
  split; intros Hsc.
  - cbn zeta. split_and!; try done.
    + cbn [hit_batch]. rewrite Hdraw. simpl.
      rewrite Hp1. simpl. by rewrite Hbust, Hsc.
    + simpl. by rewrite list_lookup_alter_eq, Hp1.
  - cbn zeta. split_and!; try done.
    + cbn [hit_batch]. rewrite Hdraw. simpl.
      rewrite Hp1. simpl. by rewrite Hbust, Hsc.
    + simpl. by rewrite list_lookup_alter_eq, Hp1.
Qed.

Lemma hit_batch_duplicate_witness :
  (hit_batch 3 0 (duplicate_on_top true)
   = hit_batch 2 0
       (set_discard_pile [number_card "card_12" 5]
          (update_player 0 (set_has_second_chance false)
             (set_deck [number_card "card_37" 9] (duplicate_on_top true)))))
  ∧ hit_batch 3 0 (duplicate_on_top false)
    = Some (update_player 0 bust_player
              (set_deck [number_card "card_37" 9] (duplicate_on_top false)),
            BatchBust).
Proof.
  split.
  - refine (proj1 (proj1 (hit_batch_duplicate 2 0 (duplicate_on_top true)
                     (set_deck [number_card "card_37" 9] (duplicate_on_top true))
                     (number_card "card_12" 5) (five_holder true)
                     _ _ _) _));
      reflexivity.
  - refine (proj1 (proj2 (hit_batch_duplicate 2 0 (duplicate_on_top false)
                     (set_deck [number_card "card_37" 9] (duplicate_on_top false))
                     (number_card "card_12" 5) (five_holder false)
                     _ _ _) _));
      reflexivity.
Defined.

(** ** Well-formed cards and hands *)

Lemma wf_card_cases (c : Card) :
  wf_card c →
  (card_type c = NUMBER ∧ ∃ v, value c = Some v ∧ 0 ≤ v ≤ 12)
  ∨ (card_type c = MODIFIER
     ∧ ∃ k a, modifier_type c = Some k ∧ modifier_value c = Some a ∧ 2 ≤ a ≤ 10)
  ∨ (card_type c = ACTION ∧ is_Some (action_type c)).
Proof.
  unfold wf_card. rewrite <- elem_of_remove_dups. unfold face.
  destruct c as [id k v a mt mv]. simpl.
  intros H. vm_compute in H.
  repeat (apply elem_of_cons in H as [H|H];
          [ injection H as -> -> -> -> ->;
            first [ left; split; [done|]; eexists; split; [done|lia]
                  | right; left; split; [done|];
                    do 2 eexists; split_and!; [done|done|lia|lia]
                  | right; right; split; [done|]; by eexists ]
          | ]).
  by apply elem_of_nil in H.
Qed.

Lemma wf_card_number (c : Card) :
  wf_card c → card_type c = NUMBER → ∃ v, value c = Some v ∧ 0 ≤ v ≤ 12.
Proof.
  intros Hwf Hk.
  destruct (wf_card_cases c Hwf) as [[_ H]|[[Hk' _]|[Hk' _]]];
    [done| congruence | congruence].
Qed.

Lemma wf_card_modifier (c : Card) :
  wf_card c → card_type c = MODIFIER →
  ∃ a, modifier_value c = Some a ∧ 0 ≤ a.
Proof.
  intros Hwf Hk.
  destruct (wf_card_cases c Hwf) as [[Hk' _]|[[_ H]|[Hk' _]]];
    [congruence| | congruence].
  destruct H as (k & a & _ & Ha & Hr). exists a. split; [done|lia].
Qed.

Lemma emergency_spec_wf (f : Face) : f ∈ emergency_spec → f ∈ base_copy_spec.
Proof.
  assert (Forall (λ f, f ∈ base_copy_spec) emergency_spec) as Hall.
  { apply (bool_decide_unpack _). vm_compute. exact I. }
  rewrite Forall_forall in Hall. apply Hall.
Qed.

(** A loop whose body keeps an invariant returns, in a state that
    satisfies it. *)
Lemma for_each_invariant {A S : Type} (P : S → Prop) (Q : A → Prop)
    (body : S → A → option S) (xs : list A) (s : S) :
  (∀ s x, P s → Q x → ∃ s', body s x = Some s' ∧ P s') →
  Forall Q xs → P s →
  ∃ r, for_each body xs s = Some r ∧ P r.
Proof.
  intros Hbody Hxs. revert s.
  induction Hxs as [|x xs Hx _ IH]; intros s Hs; simpl; [by exists s|].
  destruct (Hbody s x Hs Hx) as (s' & -> & Hs'). simpl. by apply IH.
Qed.

Lemma number_cards_wf (p : Player) :
  Forall wf_card (cards p) →
  Forall (λ x, ∃ v, x = Some v ∧ 0 ≤ v ≤ 12) (get_number_values p).
Proof.
  intros Hwf. unfold get_number_values, get_number_cards.
  apply Forall_fmap, Forall_forall. intros c Hc.
  apply list_elem_of_filter in Hc as [Hk Hc].
  rewrite Forall_forall in Hwf. simpl.
  destruct (wf_card_number c (Hwf c Hc) Hk) as (v & Hv & Hr). eauto.
Qed.

Lemma modifier_cards_wf (p : Player) :
  Forall wf_card (cards p) →
  Forall (λ c, ∃ a, modifier_value c = Some a ∧ 0 ≤ a) (get_modifier_cards p).
Proof.
  intros Hwf. unfold get_modifier_cards.
  apply Forall_forall. intros c Hc.
  apply list_elem_of_filter in Hc as [Hk Hc].
  rewrite Forall_forall in Hwf. by apply wf_card_modifier; [apply Hwf|].
Qed.

(** On a hand of well-formed cards the score is defined and is not
    negative. *)
Lemma calculate_score_nonneg (p : Player) (is_flip7 : bool) :
  Forall wf_card (cards p) →
  ∃ s, calculate_score p is_flip7 = Some s ∧ 0 ≤ s.
Proof.
  intros Hwf. unfold calculate_score, py_sum.
  destruct (for_each_invariant (λ t, 0 ≤ t)
              (λ x, ∃ v, x = Some v ∧ 0 ≤ v ≤ 12)
              (λ total x, v ← x; Some (total + v))
              (get_number_values p) 0) as (t1 & -> & Ht1);
    [|by apply number_cards_wf|done|].
  { intros s x Hs (v & -> & Hv). simpl. eexists; split; [done|lia]. }
  simpl.
  destruct (for_each_invariant (λ t, 0 ≤ t)
              (λ c, ∃ a, modifier_value c = Some a ∧ 0 ≤ a)
              (λ total card,
                 if decide (modifier_type card = Some MULTIPLY)
                 then v ← modifier_value card; Some (total * v)
                 else Some total)
              (get_modifier_cards p) t1) as (t2 & -> & Ht2);
    [|by apply modifier_cards_wf|done|].
  { intros s c Hs (a & Ha & Hr). case_decide; [|by eexists].
    rewrite Ha. simpl. eexists; split; [done|nia]. }
  simpl.
  destruct (for_each_invariant (λ t, 0 ≤ t)
              (λ c, ∃ a, modifier_value c = Some a ∧ 0 ≤ a)
              (λ total card,
                 if decide (modifier_type card = Some ADD)
                 then v ← modifier_value card; Some (total + v)
                 else Some total)
              (get_modifier_cards p) t2) as (t3 & -> & Ht3);
    [|by apply modifier_cards_wf|done|].
  { intros s c Hs (a & Ha & Hr). case_decide; [|by eexists].
    rewrite Ha. simpl. eexists; split; [done|lia]. }
  simpl. eexists; split; [done|]. destruct is_flip7; lia.
Qed.

(** The Flip 7 bonus is a flat 15 on top of the plain score. *)
Lemma calculate_score_bonus (p : Player) (s : Z) :
  calculate_score p false = Some s → calculate_score p true = Some (s + 15).
Proof.
  unfold calculate_score.
  destruct (py_sum _) as [t1|]; simpl; [|done].
  destruct (for_each _ _ t1) as [t2|]; simpl; [|done].
  destruct (for_each _ _ t2) as [t3|]; simpl; [|done].
  by intros [= ->].
Qed.

(** ** Preservation of the state invariant *)

Lemma hand_ok_nil (p : Player) : cards p = [] → hand_ok p.
Proof.
  intros H. unfold hand_ok, get_number_values, get_number_cards.
  rewrite H. split; [constructor|]. simpl. constructor.
Qed.

Lemma number_values_snoc (p : Player) (card : Card) :
  get_number_values (set_cards (cards p ++ [card]) p)
  = get_number_values p
    ++ (if decide (card_type card = NUMBER) then [value card] else []).
Proof.
  unfold get_number_values, get_number_cards. simpl.
  rewrite filter_app, fmap_app, filter_cons, filter_nil.
  by case_decide.
Qed.

Lemma number_cards_snoc (p : Player) (card : Card) :
  get_number_cards (set_cards (cards p ++ [card]) p)
  = get_number_cards p
    ++ (if decide (card_type card = NUMBER) then [card] else []).
Proof.
  unfold get_number_cards. simpl.
  rewrite filter_app, filter_cons, filter_nil.
  by case_decide.
Qed.

(** A card that passes the bust check keeps the hand free of duplicate
    values. *)
Lemma hand_ok_snoc (p : Player) (card : Card) :
  hand_ok p → wf_card card → would_bust p card = false →
  hand_ok (set_cards (cards p ++ [card]) p).
Proof.
  intros [Hwf Hnd] Hc Hb. split.
  - simpl. apply Forall_app. split; [done|by constructor].
  - rewrite number_values_snoc. unfold would_bust in Hb.
    destruct (decide (card_type card = NUMBER)) as [Hk|Hk].
    + rewrite decide_False in Hb by (intros H; by apply H).
      apply bool_decide_eq_false in Hb.
      apply NoDup_app. split_and!; [done| |apply NoDup_singleton].
      intros x Hx Hx'. apply list_elem_of_singleton in Hx'. by subst x.
    + by rewrite app_nil_r.
Qed.

Lemma hand_ok_same_cards (p q : Player) :
  cards q = cards p → hand_ok p → hand_ok q.
Proof.
  unfold hand_ok, get_number_values, get_number_cards. by intros ->.
Qed.

Lemma Forall_alter_weak {A : Type} (P : A → Prop) (f : A → A) (l : list A)
    (i : nat) :
  Forall P l → (∀ x, l !! i = Some x → P x → P (f x)) → Forall P (alter f i l).
Proof.
  intros Hl Hf. apply Forall_lookup. intros j y Hy.
  destruct (decide (i = j)) as [->|Hne].
  - rewrite list_lookup_alter_eq in Hy.
    destruct (l !! j) as [x|] eqn:Hx; [|done].
    injection Hy as <-. apply Hf; [done|].
    by eapply Forall_lookup_1.
  - rewrite list_lookup_alter_ne in Hy by done.
    by eapply Forall_lookup_1.
Qed.

Lemma state_ok_update_player (i : nat) (f : Player → Player) (gs : GameState) :
  state_ok gs →
  (∀ p, players gs !! i = Some p → hand_ok p → hand_ok (f p)) →
  (∀ p, players gs !! i = Some p → 0 ≤ round_score p → 0 ≤ round_score (f p)) →
  state_ok (update_player i f gs).
Proof.
  intros [H1 H2 H3 H4 H5 H6] Hh Hr. split; simpl; try done.
  - by apply Forall_alter_weak.
  - by apply Forall_alter_weak.
  - intros Hnil. apply H5. apply (f_equal length) in Hnil.
    rewrite length_alter in Hnil. by destruct (players gs).
  - by rewrite length_alter.
Qed.

Lemma draw_card_frame (gs gs' : GameState) (card : Card) :
  draw_card gs = Some (card, gs') →
  gs' = set_rng (rng gs') (set_discard_pile (discard_pile gs')
          (set_deck (deck gs') gs)).
Proof.
  unfold draw_card.
  destruct (decide (deck gs = [])) as [Hd|Hd].
  - destruct (decide (discard_pile gs ≠ [])) as [Hp|Hp].
    + destruct (shuffle (discard_pile gs) (rng gs)) as [d g]. simpl.
      destruct (decide (d = [])) as [Hd'|Hd'].
      * destruct (randint _ _ g) as [cid g1].
        destruct (shuffle (emergency_deck cid) g1) as [d2 g2]. simpl.
        destruct (py_pop d2) as [[c r]|]; simpl; [|done].
        by intros [= <- <-].
      * simpl. destruct (py_pop d) as [[c r]|]; simpl; [|done].
        by intros [= <- <-].
    + rewrite decide_True by done.
      destruct (randint _ _ (rng gs)) as [cid g1].
      destruct (shuffle (emergency_deck cid) g1) as [d2 g2]. simpl.
      destruct (py_pop d2) as [[c r]|]; simpl; [|done].
      intros [= <- <-]. by destruct gs.
  - rewrite decide_False by done.
    destruct (py_pop (deck gs)) as [[c r]|]; simpl; [|done].
    intros [= <- <-]. by destruct gs.
Qed.

Lemma draw_card_ok (gs gs' : GameState) (card : Card) :
  state_ok gs → draw_card gs = Some (card, gs') →
  state_ok gs' ∧ wf_card card.
Proof.
  intros [H1 H2 H3 H4 H5 H6] Hdraw.
  pose proof (draw_card_frame _ _ _ Hdraw) as Hframe.
  destruct (draw_card_cases gs) as (c & s & Hd & Hp & Hcases).
  rewrite Hd in Hdraw. injection Hdraw as -> ->.
  assert (Forall wf_card (deck gs' ++ [card]) ∧ Forall wf_card (discard_pile gs'))
    as [Hdeck Hdisc].
  { destruct (decide (deck gs ≠ [])) as [Hne|He].
    - destruct Hcases as [Hdk Hds]. by rewrite <- Hdk, Hds.
    - destruct (decide (discard_pile gs ≠ [])) as [Hne|He'].
      + destruct Hcases as [Hperm ->]. split; [|constructor].
        by rewrite Hperm.
      + destruct Hcases as (_ & Hfaces & _ & _ & ->). split; [|constructor].
        apply Forall_forall. intros x Hx. unfold wf_card.
        apply emergency_spec_wf. rewrite <- Hfaces.
        by apply list_elem_of_fmap_2. }
  apply Forall_app in Hdeck as [Hdeck Hcard].
  split; [|by inversion Hcard].
  rewrite Hframe. split; simpl; by rewrite ?Hp.
Qed.

(** *** The seating and the cumulative scores *)

Lemma same_seats_refl (gs : GameState) : same_seats gs gs.
Proof. done. Qed.

Lemma same_seats_trans (a b c : GameState) :
  same_seats a b → same_seats b c → same_seats a c.
Proof.
  intros (H1 & H2 & H3) (H4 & H5 & H6).
  split_and!; congruence.
Qed.

Lemma same_seats_length (gs gs' : GameState) :
  same_seats gs gs' → length (players gs') = length (players gs).
Proof.
  intros (H & _). apply (f_equal length) in H. by rewrite !length_fmap in H.
Qed.

Lemma same_seats_score (gs gs' : GameState) (i : nat) (p p' : Player) :
  same_seats gs gs' →
  players gs !! i = Some p → players gs' !! i = Some p' → score p' = score p.
Proof.
  intros (H & _) Hp Hp'.
  apply (f_equal (λ l, l !! i)) in H.
  rewrite !list_lookup_fmap, Hp, Hp' in H. by injection H.
Qed.

Lemma same_seats_update_player (i : nat) (f : Player → Player) (gs : GameState) :
  (∀ p, score (f p) = score p) → same_seats gs (update_player i f gs).
Proof.
  intros Hf. split_and!; try done. simpl.
  apply list_eq. intros j. rewrite !list_lookup_fmap.
  destruct (decide (i = j)) as [->|Hne].
  - rewrite list_lookup_alter_eq. destruct (players gs !! j); simpl; [|done].
    by rewrite Hf.
  - by rewrite list_lookup_alter_ne.
Qed.

Lemma same_seats_draw_card (gs gs' : GameState) (card : Card) :
  draw_card gs = Some (card, gs') → same_seats gs gs'.
Proof.
  intros H. pose proof (draw_card_frame _ _ _ H) as ->. done.
Qed.

Lemma same_seats_handle_action_card (i : nat) (card : Card) (gs : GameState) :
  same_seats gs (handle_action_card i card gs).
Proof.
  unfold handle_action_card.
  repeat case_decide; try apply same_seats_refl;
    by apply same_seats_update_player.
Qed.

Lemma state_ok_handle_action_card (i : nat) (card : Card) (gs : GameState) :
  state_ok gs → state_ok (handle_action_card i card gs).
Proof.
  intros Hok. unfold handle_action_card.
  repeat case_decide; try done;
    apply state_ok_update_player; try done;
    intros p _; by apply hand_ok_same_cards.
Qed.

Lemma handle_action_card_cards (i : nat) (card : Card) (gs : GameState) :
  cards <$> players (handle_action_card i card gs) = cards <$> players gs.
Proof.
  unfold handle_action_card.
  repeat case_decide; try done; simpl;
    apply list_eq; intros k; rewrite !list_lookup_fmap;
    (destruct (decide (i = k)) as [->|Hne];
     [ rewrite list_lookup_alter_eq; by destruct (players gs !! k)
     | by rewrite list_lookup_alter_ne ]).
Qed.

(** ** The initial deal *)

Lemma deal_one_unfold (gs : GameState) (i : nat) :
  ∃ card gs1,
    draw_card gs = Some (card, gs1)
    ∧ deal_one gs i
      = Some (handle_action_card i card
                (update_player i (λ p, set_cards (cards p ++ [card]) p) gs1)).
Proof.
  destruct (draw_card_cases gs) as (card & gs1 & Hd & _).
  exists card, gs1. split; [done|]. unfold deal_one. by rewrite Hd.
Qed.

Lemma update_player_cards (i : nat) (f : Player → Player) (g : list Card → list Card)
    (gs : GameState) :
  (∀ p, cards (f p) = g (cards p)) →
  cards <$> players (update_player i f gs) = alter g i (cards <$> players gs).
Proof.
  intros Hf. simpl. apply list_eq. intros k. rewrite !list_lookup_fmap.
  destruct (decide (i = k)) as [->|Hne].
  - rewrite !list_lookup_alter_eq, list_lookup_fmap.
    destruct (players gs !! k); simpl; [|done]. by rewrite Hf.
  - by rewrite !list_lookup_alter_ne, list_lookup_fmap.
Qed.

(** One deal step on an empty hand: the player at [i] receives one
    well-formed card, nobody else's hand changes. *)
Lemma deal_one_ok (gs gs' : GameState) (i : nat) :
  state_ok gs →
  (∀ p, players gs !! i = Some p → cards p = []) →
  deal_one gs i = Some gs' →
  state_ok gs' ∧ same_seats gs gs'
  ∧ ∃ card, cards <$> players gs'
            = alter (λ cs, cs ++ [card]) i (cards <$> players gs).
Proof.
  intros Hok Hempty H.
  destruct (deal_one_unfold gs i) as (card & gs1 & Hd & Hdeal).
  rewrite Hdeal in H. injection H as <-.
  destruct (draw_card_ok _ _ _ Hok Hd) as [Hok1 Hwf].
  pose proof (draw_card_players _ _ _ Hd) as Hps.
  split_and!.
  - apply state_ok_handle_action_card, state_ok_update_player; [done| |done].
    intros p Hp _. rewrite Hps in Hp. specialize (Hempty p Hp).
    split.
    + simpl. rewrite Hempty. by constructor.
    + unfold get_number_values, get_number_cards. simpl. rewrite Hempty.
      simpl. rewrite filter_cons, filter_nil.
      case_decide; simpl; [apply NoDup_singleton|constructor].
  - eapply same_seats_trans; [by eapply same_seats_draw_card|].
    eapply same_seats_trans; [|apply same_seats_handle_action_card].
    by apply same_seats_update_player.
  - exists card. rewrite handle_action_card_cards.
    rewrite (update_player_cards i _ (λ cs, cs ++ [card])) by done.
    by rewrite Hps.
Qed.

Lemma deal_loop_ok (k a : nat) (gs gs' : GameState) :
  state_ok gs →
  (∀ j cs, (a ≤ j)%nat → (cards <$> players gs) !! j = Some cs → cs = []) →
  for_each deal_one (seq a k) gs = Some gs' →
  state_ok gs' ∧ same_seats gs gs'
  ∧ (∀ j, (j < a ∨ a + k ≤ j)%nat →
       (cards <$> players gs') !! j = (cards <$> players gs) !! j)
  ∧ (∀ j cs, (a ≤ j < a + k)%nat →
       (cards <$> players gs') !! j = Some cs → length cs = 1%nat).
Proof.
  revert a gs. induction k as [|k IH]; intros a gs Hok Hempty Hloop.
  - injection Hloop as <-. split_and!; try done. intros j cs Hj. lia.
  - simpl in Hloop.
    destruct (deal_one gs a) as [gs1|] eqn:Hone; simpl in Hloop; [|done].
    destruct (deal_one_ok gs gs1 a Hok) as (Hok1 & Hseat1 & card & Hcards1);
      [|done|].
    { intros p Hp. apply (Hempty a); [lia|].
      by rewrite list_lookup_fmap, Hp. }
    destruct (IH (S a) gs1 Hok1) as (Hok' & Hseat' & Hout & Hin); [|done|].
    { intros j cs Hj Hcs. rewrite Hcards1, list_lookup_alter_ne in Hcs by lia.
      apply (Hempty j); [lia|done]. }
    split_and!; [done|by eapply same_seats_trans| |].
    + intros j Hj. rewrite Hout by lia.
      rewrite Hcards1, list_lookup_alter_ne by lia. done.
    + intros j cs Hj Hcs. destruct (decide (j = a)) as [->|Hne].
      * rewrite Hout, Hcards1, list_lookup_alter_eq in Hcs by lia.
        destruct ((cards <$> players gs) !! a) as [cs0|] eqn:Hcs0; [|done].
        injection Hcs as <-. rewrite (Hempty a cs0); [done|lia|done].
      * apply (Hin j); [lia|done].
Qed.

Lemma deal_upto_returns (xs : list nat) (gs : GameState) :
  is_Some (for_each deal_one xs gs).
Proof.
  revert gs. induction xs as [|x xs IH]; intros gs; simpl; [done|].
  destruct (deal_one_unfold gs x) as (card & gs1 & _ & ->). simpl. apply IH.
Qed.

Lemma state_ok_reset_players (gs : GameState) :
  state_ok gs → state_ok (reset_players gs).
Proof.
  intros [H1 H2 H3 H4 H5 H6]. split; simpl; try done.
  - apply Forall_fmap, Forall_forall. intros p _. by apply hand_ok_nil.
  - apply Forall_fmap, Forall_forall. by intros p _.
  - by destruct (players gs).
  - by rewrite length_fmap.
Qed.

Lemma same_seats_reset_players (gs : GameState) :
  same_seats gs (reset_players gs).
Proof.
  split_and!; try done. simpl. rewrite <- list_fmap_compose.
  by apply list_fmap_ext.
Qed.

Lemma reset_players_hands (gs : GameState) (j : nat) (cs : list Card) :
  (cards <$> players (reset_players gs)) !! j = Some cs → cs = [].
Proof.
  simpl. rewrite <- list_fmap_compose, list_lookup_fmap.
  destruct (players gs !! j); simpl; [|done]. by intros [= <-].
Qed.

(** What the deal to the first [k] players, after the reset, leaves:
    one card in each of the first [k] hands, the others empty. *)
Lemma deal_upto_ok (k : nat) (gs gs' : GameState) :
  state_ok gs →
  deal_upto k (reset_players gs) = Some gs' →
  state_ok gs' ∧ same_seats gs gs'
  ∧ (∀ j cs, (cards <$> players gs') !! j = Some cs →
       if decide (j < k)%nat then length cs = 1%nat else cs = []).
Proof.
  intros Hok Hdeal. unfold deal_upto in Hdeal.
  destruct (deal_loop_ok k 0 (reset_players gs) gs') as (Hok' & Hs & Hout & Hin);
    [by apply state_ok_reset_players| |done|].
  { intros j cs _. apply reset_players_hands. }
  split_and!; [done| |].
  - eapply same_seats_trans; [apply same_seats_reset_players|done].
  - intros j cs Hcs. case_decide.
    + apply (Hin j); [lia|done].
    + rewrite Hout in Hcs by lia. by eapply reset_players_hands.
Qed.

(** ** The hit loop and the turn keep the invariant *)

Lemma state_ok_set_discard_pile (d : list Card) (gs : GameState) :
  state_ok gs → Forall wf_card d → state_ok (set_discard_pile d gs).
Proof. intros [H1 H2 H3 H4 H5 H6] Hd. by split. Qed.

Lemma hit_batch_ok (n i : nat) (gs gs' : GameState) (o : BatchOutcome) :
  state_ok gs → hit_batch n i gs = Some (gs', o) →
  state_ok gs' ∧ same_seats gs gs'.
Proof.
  revert gs. induction n as [|n IH]; intros gs Hok H.
  - injection H as <- <-. done.
  - cbn [hit_batch] in H.
    destruct (draw_card gs) as [[card gs1]|] eqn:Hd; simpl in H; [|done].
    destruct (draw_card_ok _ _ _ Hok Hd) as [Hok1 Hwf].
    pose proof (same_seats_draw_card _ _ _ Hd) as Hs1.
    destruct (players gs1 !! i) as [player|] eqn:Hp; simpl in H; [|done].
    destruct (would_bust player card) eqn:Hb.
    + destruct (has_second_chance player) eqn:Hsc.
      * apply IH in H as [Hok' Hs'].
        -- split; [done|]. eapply same_seats_trans; [done|].
           eapply same_seats_trans; [|done].
           by apply (same_seats_update_player i (set_has_second_chance false)).
        -- apply state_ok_set_discard_pile.
           ++ apply state_ok_update_player; [done| |done].
              intros p _. by apply hand_ok_same_cards.
           ++ simpl. apply Forall_app. split; [apply Hok1|by constructor].
      * injection H as <- <-. split.
        -- apply state_ok_update_player; [done| |done].
           intros p _. by apply hand_ok_same_cards.
        -- eapply same_seats_trans; [done|].
           by apply same_seats_update_player.
    + apply IH in H as [Hok' Hs'].
      * split; [done|]. eapply same_seats_trans; [done|].
        eapply same_seats_trans; [|done].
        eapply same_seats_trans; [|apply same_seats_handle_action_card].
        by apply same_seats_update_player.
      * apply state_ok_handle_action_card, state_ok_update_player; [done| |done].
        intros p Hp' Hh. rewrite Hp in Hp'. injection Hp' as <-.
        by apply hand_ok_snoc.
Qed.

Lemma hit_batch_returns (n i : nat) (gs : GameState) :
  (i < length (players gs))%nat → is_Some (hit_batch n i gs).
Proof.
  revert gs. induction n as [|n IH]; intros gs Hi; [done|].
  cbn [hit_batch].
  destruct (draw_card_cases gs) as (card & gs1 & -> & Hps & _). simpl.
  destruct (lookup_lt_is_Some_2 (players gs1) i) as [player Hp];
    [by rewrite Hps|].
  rewrite Hp. simpl.
  destruct (would_bust player card); [destruct (has_second_chance player)|];
    [apply IH|done|apply IH]; simpl;
    rewrite ?length_alter; unfold handle_action_card;
    repeat case_decide; simpl; rewrite ?length_alter, ?Hps; done.
Qed.

Lemma state_ok_bank (i : nat) (s : Z) (gs : GameState) :
  state_ok gs → 0 ≤ s → state_ok (update_player i (bank s) gs).
Proof.
  intros Hok Hs. apply state_ok_update_player; [done| |done].
  intros p _. by apply hand_ok_same_cards.
Qed.

Lemma state_ok_score (gs : GameState) (i : nat) (p : Player) (b : bool) :
  state_ok gs → players gs !! i = Some p →
  ∃ s, calculate_score p b = Some s ∧ 0 ≤ s.
Proof.
  intros Hok Hp. apply calculate_score_nonneg.
  pose proof (ok_hands gs Hok) as Hh.
  by destruct (Forall_lookup_1 _ _ _ _ Hh Hp).
Qed.

Lemma play_turn_ok (i : nat) (strategy : BotStrategy) (gs gs' : GameState)
    (b : bool) :
  state_ok gs → play_turn i strategy gs = Some (gs', b) →
  state_ok gs' ∧ same_seats gs gs'.
Proof.
  intros Hok H. unfold play_turn in H.
  destruct (players gs !! i) as [player|] eqn:Hp; simpl in H; [|done].
  destruct (is_active player); simpl in H; [|by injection H as <- <-].
  pose proof (λ s, same_seats_update_player i (bank s) gs
                     (λ p, eq_refl)) as Hbank.
  destruct (has_flip7 player).
  { destruct (state_ok_score gs i player true Hok Hp) as (s & Hs & Hs0).
    rewrite Hs in H. injection H as <- <-. split; [by apply state_ok_bank|done]. }
  destruct (decide (10 ≤ length (get_number_cards player))%nat).
  { destruct (state_ok_score gs i player false Hok Hp) as (s & Hs & Hs0).
    rewrite Hs in H. injection H as <- <-. split; [by apply state_ok_bank|done]. }
  destruct (should_hit strategy player gs) as [hit|]; simpl in H; [|done].
  destruct hit; simpl in H.
  2:{ destruct (state_ok_score gs i player false Hok Hp) as (s & Hs & Hs0).
      rewrite Hs in H. injection H as <- <-.
      split; [by apply state_ok_bank|done]. }
  destruct (hit_batch _ i gs) as [[gs1 o]|] eqn:Hbatch; simpl in H; [|done].
  destruct (hit_batch_ok _ _ _ _ _ Hok Hbatch) as [Hok1 Hs1].
  destruct o; [|by injection H as <- <-].
  destruct (players gs1 !! i) as [player1|] eqn:Hp1; simpl in H; [|done].
  destruct (has_flip7 player1).
  { destruct (state_ok_score gs1 i player1 true Hok1 Hp1) as (s & Hs & Hs0).
    rewrite Hs in H. injection H as <- <-. split; [by apply state_ok_bank|].
    eapply same_seats_trans; [done|]. by apply same_seats_update_player. }
  injection H as <- <-. case_decide; [|done]. split.
  - apply state_ok_update_player; [done| |done].
    intros p _. by apply hand_ok_same_cards.
  - eapply same_seats_trans; [done|]. by apply same_seats_update_player.
Qed.

Lemma play_turn_returns (i : nat) (strategy : BotStrategy) (gs : GameState) :
  state_ok gs → (i < length (players gs))%nat → total_strategy strategy →
  is_Some (play_turn i strategy gs).
Proof.
  intros Hok Hi Htot. unfold play_turn.
  destruct (lookup_lt_is_Some_2 (players gs) i Hi) as [player Hp].
  rewrite Hp. simpl.
  destruct (is_active player); simpl; [|done].
  destruct (has_flip7 player).
  { destruct (state_ok_score gs i player true Hok Hp) as (s & -> & _). done. }
  destruct (decide (10 ≤ length (get_number_cards player))%nat).
  { destruct (state_ok_score gs i player false Hok Hp) as (s & -> & _). done. }
  destruct (Htot player gs) as [hit ->];
    [exact (Forall_lookup_1 _ _ _ _ (ok_hands gs Hok) Hp)|]. simpl.
  destruct hit; simpl.
  2:{ destruct (state_ok_score gs i player false Hok Hp) as (s & -> & _). done. }
  destruct (hit_batch_returns (if has_flip_three_active player then 3 else 1)%nat
              i gs Hi) as [[gs1 o] Hbatch].
  rewrite Hbatch. simpl.
  destruct (hit_batch_ok _ _ _ _ _ Hok Hbatch) as [Hok1 Hs1].
  destruct o; [|done].
  destruct (lookup_lt_is_Some_2 (players gs1) i) as [player1 Hp1].
  { by rewrite (same_seats_length _ _ Hs1). }
  rewrite Hp1. simpl.
  destruct (has_flip7 player1); [|done].
  destruct (state_ok_score gs1 i player1 true Hok1 Hp1) as (s & -> & _). done.
Qed.

(** ** Turn order, rounds and the match *)

(** The turn bound is used as a symbol in the proofs below. *)
#[global] Opaque max_turns.

Lemma state_ok_set_current_player_idx (i : nat) (gs : GameState) :
  state_ok gs → (i < length (players gs))%nat →
  state_ok (set_current_player_idx i gs).
Proof. intros [H1 H2 H3 H4 H5 H6] Hi. by split. Qed.

Lemma next_player_loop_frame (fuel start : nat) (gs gs' : GameState) :
  next_player_loop fuel start gs = Some gs' →
  gs' = set_current_player_idx (current_player_idx gs') gs
  ∧ (current_player_idx gs' < length (players gs))%nat.
Proof.
  revert gs. induction fuel as [|fuel IH]; intros gs H; [done|].
  cbn [next_player_loop] in H. case_decide as Hn; [done|].
  cbn zeta in H.
  set (idx := ((current_player_idx gs + 1) `mod` length (players gs))%nat) in *.
  assert (idx < length (players gs))%nat as Hidx
    by (apply Nat.mod_upper_bound; done).
  simpl in H. destruct (players gs !! idx) as [p|]; simpl in H; [|done].
  destruct (is_active p); [by injection H as <-|].
  case_decide; [by injection H as <-|].
  apply IH in H as [Hgs' Hlt]. simpl in Hlt. split; [|done].
  rewrite Hgs'. by destruct gs.
Qed.

Lemma next_player_ok (gs gs' : GameState) :
  state_ok gs → next_player gs = Some gs' →
  state_ok gs' ∧ players gs' = players gs ∧ deck gs' = deck gs
  ∧ discard_pile gs' = discard_pile gs.
Proof.
  intros Hok H. apply next_player_loop_frame in H as [-> Hlt].
  split_and!; try done. by apply state_ok_set_current_player_idx.
Qed.

(** The loop of [next_player] needs no more than [len(players)]
    iterations: after that many steps the index is back at its start. *)
Lemma next_player_loop_returns (fuel start : nat) (gs : GameState) :
  (start < length (players gs))%nat →
  (current_player_idx gs < length (players gs))%nat →
  ((if decide (current_player_idx gs < start)%nat
    then start - current_player_idx gs
    else length (players gs) - current_player_idx gs + start) ≤ fuel)%nat →
  is_Some (next_player_loop fuel start gs).
Proof.
  revert gs. induction fuel as [|fuel IH]; intros gs Hstart Hcur Hfuel.
  { exfalso. case_decide; lia. }
  cbn [next_player_loop]. rewrite decide_False by lia. cbn zeta.
  set (n := length (players gs)) in *.
  set (cur := current_player_idx gs) in *.
  assert (((cur + 1) `mod` n = if decide (cur + 1 < n)%nat then cur + 1 else 0)%nat)
    as Hmod.
  { destruct (decide (cur + 1 < n)%nat).
    - by apply Nat.mod_small.
    - assert (cur + 1 = n)%nat as -> by lia. apply Nat.Div0.mod_same. }
  rewrite Hmod. clear Hmod.
  set (idx := (if decide (cur + 1 < n)%nat then cur + 1 else 0)%nat).
  assert (idx < n)%nat as Hidx
    by (unfold idx; destruct (decide (cur + 1 < n)%nat); lia).
  simpl. destruct (lookup_lt_is_Some_2 (players gs) idx Hidx) as [p ->].
  simpl. destruct (is_active p); [done|].
  destruct (decide (idx = start)) as [|Hs]; [done|].
  apply IH; simpl; [done|done|].
  fold n. unfold idx in *.
  destruct (decide (cur + 1 < n)%nat); destruct (decide (cur < start)%nat);
    repeat case_decide; lia.
Qed.

Lemma next_player_returns (gs : GameState) :
  (current_player_idx gs < length (players gs))%nat →
  is_Some (next_player gs).
Proof.
  intros H. apply next_player_loop_returns; [done|done|].
  rewrite decide_False by lia. lia.
Qed.

Lemma state_ok_add_round_scores (gs : GameState) :
  state_ok gs → state_ok (add_round_scores gs).
Proof.
  intros [H1 H2 H3 H4 H5 H6]. split; simpl; try done.
  - apply Forall_fmap. eapply Forall_impl; [exact H1|].
    intros p Hp. apply (hand_ok_same_cards p); [reflexivity|exact Hp].
  - by apply Forall_fmap.
  - by destruct (players gs).
  - by rewrite length_fmap.
Qed.

Lemma state_ok_next_round (gs gs' : GameState) :
  state_ok gs → next_round gs = Some gs' → state_ok gs'.
Proof.
  intros [H1 H2 H3 H4 H5 H6] H. unfold next_round in H.
  case_decide as Hn; [done|]. injection H as <-.
  split; simpl; try done. by apply Nat.mod_upper_bound.
Qed.

Lemma state_ok_initialize_game (strategies : list BotStrategy) (g : Rng)
    (gs : GameState) :
  initialize_game strategies g = Some gs → state_ok gs.
Proof.
  unfold initialize_game.
  destruct (create_deck _ g) as [d g'] eqn:Hd.
  case_decide as Hn; [done|]. intros [= <-].
  rewrite length_imap in Hn.
  split; simpl.
  - apply Forall_forall. intros p Hp.
    apply list_elem_of_lookup in Hp as [j Hp].
    rewrite list_lookup_imap in Hp.
    destruct (strategies !! j); simpl in Hp; [|done].
    injection Hp as <-. by apply hand_ok_nil.
  - apply Forall_forall. intros p Hp.
    apply list_elem_of_lookup in Hp as [j Hp].
    rewrite list_lookup_imap in Hp.
    destruct (strategies !! j); simpl in Hp; [|done].
    by injection Hp as <-.
  - apply Forall_forall. intros c Hc. unfold wf_card.
    pose proof (create_deck_faces (Z.of_nat (length strategies)) g) as Hf.
    rewrite length_imap in Hd. rewrite Hd in Hf. simpl in Hf.
    assert (face c ∈ copies_spec (Z.to_nat (num_decks_of (Z.of_nat (length strategies)))))
      as Hin by (rewrite <- Hf; by apply list_elem_of_fmap_2).
    unfold copies_spec in Hin. apply list_elem_of_join in Hin as (l & Hl & Hin).
    apply elem_of_replicate in Hin as [-> _]. done.
  - constructor.
  - intros Himap. apply (f_equal length) in Himap.
    rewrite length_imap in Himap. done.
  - rewrite length_imap. by apply Nat.mod_upper_bound.
Qed.

(** Every state of a match satisfies the invariant. *)
Lemma reachable_ok (gs : GameState) : reachable gs → state_ok gs.
Proof.
  induction 1 as [strategies g gs Hinit
                 | gs k gs' _ IH Hk Hdeal
                 | gs n i gs' o _ IH Hn Hhit
                 | gs i strategy gs' b _ IH Hturn
                 | gs gs' _ IH Hnext
                 | gs _ IH
                 | gs w _ IH Hw
                 | gs gs' _ IH Hnext].
  - by eapply state_ok_initialize_game.
  - by destruct (deal_upto_ok k gs gs' IH Hdeal).
  - by destruct (hit_batch_ok _ _ _ _ _ IH Hhit).
  - by destruct (play_turn_ok _ _ _ _ _ IH Hturn).
  - by destruct (next_player_ok _ _ IH Hnext).
  - by apply state_ok_add_round_scores.
  - destruct IH. by split.
  - by eapply state_ok_next_round.
Qed.

(** The round loop stays inside the reachable states and keeps the
    seating. *)
Lemma round_loop_reachable (n : nat) (strategies : list BotStrategy)
    (gs gs' : GameState) :
  reachable gs → round_loop n strategies gs = Some gs' →
  reachable gs' ∧ score <$> players gs' = score <$> players gs.
Proof.
  revert gs. induction n as [|n IH]; intros gs Hr H.
  { injection H as <-. by split. }
  cbn [round_loop] in H.
  destruct (existsb is_active (players gs)); simpl in H.
  2: { injection H as <-. by split. }
  destruct (get_current_player gs); simpl in H; [|done].
  destruct (strategies !! current_player_idx gs) as [strategy|];
    simpl in H; [|done].
  destruct (play_turn _ strategy gs) as [[gs1 b]|] eqn:Hturn;
    simpl in H; [|done].
  pose proof (reach_turn _ _ _ _ _ Hr Hturn) as Hr1.
  destruct (play_turn_ok _ _ _ _ _ (reachable_ok _ Hr) Hturn) as [_ (Hs1 & _)].
  destruct b; simpl in H.
  2: { injection H as <-. by split. }
  destruct (next_player gs1) as [gs2|] eqn:Hnext; simpl in H; [|done].
  pose proof (reach_next_player _ _ Hr1 Hnext) as Hr2.
  destruct (next_player_ok _ _ (reachable_ok _ Hr1) Hnext) as (_ & Hps & _).
  apply IH in H as [Hr' Hs']; [|done]. split; [done|].
  by rewrite Hs', Hps.
Qed.

Lemma play_round_reachable (strategies : list BotStrategy) (gs gs' : GameState) :
  reachable gs → play_round strategies gs = Some gs' → reachable gs'.
Proof.
  intros Hr H. unfold play_round in H.
  destruct (deal_initial_cards (reset_players gs)) as [gs1|] eqn:Hdeal;
    simpl in H; [|done].
  assert (reachable gs1) as Hr1.
  { unfold deal_initial_cards in Hdeal. simpl in Hdeal.
    rewrite length_fmap in Hdeal. by eapply reach_deal. }
  destruct (round_loop max_turns strategies gs1) as [gs2|] eqn:Hloop;
    simpl in H; [|done].
  injection H as <-. apply reach_scores.
  by destruct (round_loop_reachable _ _ _ _ Hr1 Hloop).
Qed.

(** ** Executions stay inside the reachable states *)

Lemma rounds_played_reachable (k : nat) (strategies : list BotStrategy)
    (gs gs' : GameState) :
  reachable gs → rounds_played k strategies gs = Some gs' → reachable gs'.
Proof.
  revert gs. induction k as [|k IH]; intros gs Hr H.
  { by injection H as <-. }
  cbn [rounds_played] in H.
  destruct (play_round strategies gs) as [gs1|] eqn:Hround; simpl in H; [|done].
  destruct (next_round gs1) as [gs2|] eqn:Hnext; simpl in H; [|done].
  apply (IH gs2); [|done].
  eapply reach_next_round; [|done]. by eapply play_round_reachable.
Qed.

Lemma match_prefix_reachable (rounds turns : nat)
    (strategies : list BotStrategy) (g : Rng) (gs : GameState) :
  match_prefix rounds turns strategies g = Some gs → reachable gs.
Proof.
  unfold match_prefix. intros H.
  destruct (initialize_game strategies g) as [gs0|] eqn:H0; simpl in H; [|done].
  destruct (rounds_played rounds strategies gs0) as [gs1|] eqn:H1;
    simpl in H; [|done].
  destruct (deal_initial_cards (reset_players gs1)) as [gs2|] eqn:H2;
    simpl in H; [|done].
  assert (reachable gs1) as Hr1.
  { eapply rounds_played_reachable; [|done]. by eapply reach_init. }
  assert (reachable gs2) as Hr2.
  { unfold deal_initial_cards in H2. simpl in H2. rewrite length_fmap in H2.
    by eapply reach_deal. }
  by destruct (round_loop_reachable _ _ _ _ Hr2 H).
Qed.

Lemma game_loop_reachable (n : nat) (strategies : list BotStrategy)
    (gs gs' : GameState) (w : nat) :
  reachable gs → game_loop n strategies gs = Some (gs', w) → reachable gs'.
Proof.
  revert gs. induction n as [|n IH]; intros gs Hr H; [done|].
  cbn [game_loop] in H.
  destruct (play_round strategies gs) as [gs1|] eqn:Hround; simpl in H; [|done].
  pose proof (play_round_reachable _ _ _ Hr Hround) as Hr1.
  destruct (find_winner (players gs1)) as [w1|] eqn:Hw.
  - injection H as <- <-. by apply reach_winner.
  - destruct (next_round gs1) as [gs2|] eqn:Hnext; simpl in H; [|done].
    apply (IH gs2); [|done]. by eapply reach_next_round.
Qed.

(** The states named above are states of real matches. *)
Lemma ten_cards_state_prefix :
  match_prefix 0 9 ten_cards_bots ten_cards_rng = Some ten_cards_state.
Proof. vm_compute. reflexivity. Qed.

Lemma flip7_eve_prefix :
  match_prefix 0 10 flip7_bots flip7_rng = Some flip7_eve.
Proof. vm_compute. reflexivity. Qed.

Lemma dry_state_prefix :
  match_prefix 41 6 dry_bots zero_rng = Some dry_state.
Proof. vm_compute. reflexivity. Qed.

Lemma before_last_round_reachable : reachable before_last_round.
Proof.
  apply (rounds_played_reachable 12 cautious_bots
           (default exhausted_state (initialize_game cautious_bots zero_rng))).
  - apply (reach_init cautious_bots zero_rng). vm_compute. reflexivity.
  - vm_compute. reflexivity.
Qed.

(** ** Hands never hold a number value twice *)

Lemma distinct_values_size (p : Player) :
  NoDup (get_number_values p) →
  size (list_to_set (get_number_values p) : gset (option Z))
  = length (get_number_cards p).
Proof.
  intros Hnd. rewrite size_list_to_set by done.
  unfold get_number_values. apply length_fmap.
Qed.

Lemma reachable_hand_ok (gs : GameState) (i : nat) (p : Player) :
  reachable gs → players gs !! i = Some p → hand_ok p.
Proof.
  intros Hr Hp. pose proof (ok_hands gs (reachable_ok gs Hr)) as Hh.
  by eapply Forall_lookup_1.
Qed.

Lemma deal_initial_cards_single (gs gs' : GameState) (p : Player) :
  reachable gs → deal_initial_cards (reset_players gs) = Some gs' →
  p ∈ players gs' → length (cards p) = 1%nat.
Proof.
  intros Hr Hdeal Hp. unfold deal_initial_cards in Hdeal.
  destruct (deal_upto_ok _ gs gs' (reachable_ok gs Hr) Hdeal)
    as (_ & Hseat & Hlen).
  apply list_elem_of_lookup in Hp as [j Hp].
  specialize (Hlen j (cards p)). rewrite list_lookup_fmap, Hp in Hlen.
  specialize (Hlen eq_refl).
  destruct (decide (j < length (players (reset_players gs)))%nat) as [|Hge];
    [done|].
  exfalso. apply Hge. apply lookup_lt_Some in Hp.
  rewrite (same_seats_length _ _ Hseat) in Hp.
  simpl. by rewrite length_fmap.
Qed.

(** C10.  The initial deal leaves exactly one card in every hand, and
    in every reachable state no hand holds two Number cards of the same
    value: the number of Number cards equals the number of distinct
    values, and [has_flip7] says exactly that the hand holds seven
    Number cards. *)
Theorem reachable_hands_distinct (gs : GameState) (p : Player) :
  reachable gs → p ∈ players gs →
  NoDup (get_number_values p)
  ∧ size (list_to_set (get_number_values p) : gset (option Z))
    = length (get_number_cards p)
  ∧ (has_flip7 p = true ↔ length (get_number_cards p) = 7%nat)
  ∧ (∀ gs', deal_initial_cards (reset_players gs) = Some gs' →
       ∀ q, q ∈ players gs' → length (cards q) = 1%nat).
Proof.
  intros Hr Hp. apply list_elem_of_lookup in Hp as [i Hp].
  destruct (reachable_hand_ok gs i p Hr Hp) as [_ Hnd].
  split_and!.
  - done.
  - by apply distinct_values_size.
  - unfold has_flip7. rewrite bool_decide_eq_true.
    by rewrite distinct_values_size.
  - intros gs' Hdeal q Hq. by eapply deal_initial_cards_single.
Qed.

Lemma reachable_hands_distinct_witness :
  ∃ p, players ten_cards_state !! 1%nat = Some p
       ∧ length (get_number_cards p) = 10%nat
       ∧ NoDup (get_number_values p)
       ∧ has_flip7 p = false.
Proof.
  destruct (players ten_cards_state !! 1%nat) as [p|] eqn:Hp.
  - exists p.
    destruct (reachable_hands_distinct ten_cards_state p) as (Hnd & Hsz & Hf & _).
    + exact (match_prefix_reachable _ _ _ _ _ ten_cards_state_prefix).
    + by eapply list_elem_of_lookup_2.
    + assert (length (get_number_cards p) = 10%nat) as Hlen.
      { revert Hp. vm_compute. intros [= <-]. reflexivity. }
      split_and!; [done|done|done|].
      destruct (has_flip7 p); [|done].
      destruct Hf as [Hf _]. specialize (Hf eq_refl). congruence.
  - exfalso. revert Hp. vm_compute. discriminate.
Defined.

(** ** The ten-card safety valve *)



(** ** Flip 7 ends the round *)

(** C3.  When an active player holds seven distinct number values at
    the start of the turn, or after a completed hit batch, [play_turn]
    banks the score with the flat 15 on top (the player's round score
    becomes the plain score plus 15), deactivates the player, leaves
    every other player's record as it was, and reports the end of the
    round; the round loop then returns that very state: nobody takes
    another turn, and the scoring that follows adds the bonus score to
    the player's total. *)
Theorem flip7_ends_round (i : nat) (strategy : BotStrategy) (gs : GameState)
    (player : Player) :
  players gs !! i = Some player →
  is_active player = true →
  (* at the start of the turn *)
  (∀ s, has_flip7 player = true →
        calculate_score player false = Some s →
        play_turn i strategy gs = Some (update_player i (bank (s + 15)) gs, false)
        ∧ ∃ gs' p',
            play_turn i strategy gs = Some (gs', false)
            ∧ players gs' !! i = Some p'
            ∧ round_score p' = s + 15
            ∧ is_active p' = false
            ∧ p' = set_is_active false (set_round_score (s + 15) player)
            ∧ (∀ j, j ≠ i → players gs' !! j = players gs !! j)
            ∧ deck gs' = deck gs ∧ discard_pile gs' = discard_pile gs)
  (* after a completed hit batch *)
  ∧ (∀ gs1 player1 s,
       has_flip7 player = false →
       (length (get_number_cards player) < 10)%nat →
       should_hit strategy player gs = Some true →
       hit_batch (if has_flip_three_active player then 3 else 1)%nat i gs
       = Some (gs1, BatchCompleted) →
       players gs1 !! i = Some player1 →
       has_flip7 player1 = true →
       calculate_score player1 false = Some s →
       play_turn i strategy gs
       = Some (update_player i (bank (s + 15)) gs1, false)
       ∧ ∃ gs' p',
           play_turn i strategy gs = Some (gs', false)
           ∧ players gs' !! i = Some p'
           ∧ round_score p' = s + 15
           ∧ is_active p' = false
           ∧ p' = set_is_active false (set_round_score (s + 15) player1)
           ∧ (∀ j, j ≠ i → players gs' !! j = players gs1 !! j)
           ∧ deck gs' = deck gs1 ∧ discard_pile gs' = discard_pile gs1)
  (* the round is over for everyone *)
  ∧ (∀ gs' n strategies,
       play_turn i strategy gs = Some (gs', false) →
       i = current_player_idx gs →
       strategies !! i = Some strategy →
       round_loop (S n) strategies gs = Some gs'
       ∧ ∀ p', players gs' !! i = Some p' →
               ∃ q, players (add_round_scores gs') !! i = Some q
                    ∧ score q = score p' + round_score p'
                    ∧ round_score q = round_score p'
                    ∧ is_active q = is_active p').
Proof.
  intros Hp Hact.
  assert (∀ s gs0 p0, players gs0 !! i = Some p0 →
            ∃ gs' p',
              gs' = update_player i (bank (s + 15)) gs0
              ∧ players gs' !! i = Some p'
              ∧ round_score p' = s + 15
              ∧ is_active p' = false
              ∧ p' = set_is_active false (set_round_score (s + 15) p0)
              ∧ (∀ j, j ≠ i → players gs' !! j = players gs0 !! j)
              ∧ deck gs' = deck gs0 ∧ discard_pile gs' = discard_pile gs0)
    as Hbank.
  { intros s gs0 p0 Hp0.
    exists (update_player i (bank (s + 15)) gs0),
           (set_is_active false (set_round_score (s + 15) p0)).
    split; [reflexivity|].
    split; [exact (update_player_lookup i (bank (s + 15)) gs0 p0 Hp0)|].
    split; [reflexivity|]. split; [reflexivity|]. split; [reflexivity|].
    split; [|split; reflexivity].
    intros j Hj. by apply update_player_lookup_ne. }
  split_and!.
  - intros s H7 Hs.
    assert (play_turn i strategy gs
            = Some (update_player i (bank (s + 15)) gs, false)) as Hturn.
    { unfold play_turn. rewrite Hp. simpl. rewrite Hact, H7. simpl.
      by rewrite (calculate_score_bonus _ _ Hs). }
    split; [exact Hturn|].
    destruct (Hbank s gs player Hp) as (gs' & p' & -> & Hrest).
    exists (update_player i (bank (s + 15)) gs), p'.
    split; [exact Hturn|exact Hrest].
  - intros gs1 player1 s H7 Hlt Hhit Hbatch Hp1 H71 Hs.
    assert (play_turn i strategy gs
            = Some (update_player i (bank (s + 15)) gs1, false)) as Hturn.
    { unfold play_turn. rewrite Hp. simpl. rewrite Hact, H7. simpl.
      destruct (decide (10 ≤ length (get_number_cards player))%nat); [lia|].
      rewrite Hhit. simpl. rewrite Hbatch. simpl.
      rewrite Hp1. simpl. rewrite H71.
      by rewrite (calculate_score_bonus _ _ Hs). }
    split; [exact Hturn|].
    destruct (Hbank s gs1 player1 Hp1) as (gs' & p' & -> & Hrest).
    exists (update_player i (bank (s + 15)) gs1), p'.
    split; [exact Hturn|exact Hrest].
  - intros gs' n strategies Hturn -> Hstrat. split.
    + cbn [round_loop].
      assert (existsb is_active (players gs) = true) as ->.
      { apply existsb_exists. exists player. split; [|done].
        apply list_elem_of_In. by eapply list_elem_of_lookup_2. }
      unfold get_current_player. rewrite Hp, Hstrat. simpl.
      by rewrite Hturn.
    + intros p' Hp'. exists (set_score (score p' + round_score p') p').
      split; [|split_and!; reflexivity].
      simpl. by rewrite list_lookup_fmap, Hp'.
Qed.

(** The turn reports the end of the round in no other case: the state
    it returns with [false] is one in which the player has just been
    banked on a hand of seven distinct values. *)
Lemma play_turn_false_is_flip7 (i : nat) (strategy : BotStrategy)
    (gs gs' : GameState) :
  play_turn i strategy gs = Some (gs', false) →
  ∃ gs1 p s, players gs1 !! i = Some p ∧ has_flip7 p = true
             ∧ calculate_score p true = Some s
             ∧ gs' = update_player i (bank s) gs1.
Proof.
  unfold play_turn. intros H.
  destruct (players gs !! i) as [player|] eqn:Hp; simpl in H; [|done].
  destruct (is_active player); simpl in H; [|done].
  destruct (has_flip7 player) eqn:H7.
  { destruct (calculate_score player true) as [s|] eqn:Hs; simpl in H; [|done].
    injection H as <-. by exists gs, player, s. }
  destruct (decide (10 ≤ length (get_number_cards player))%nat).
  { destruct (calculate_score player false); simpl in H; done. }
  destruct (should_hit strategy player gs) as [[|]|]; simpl in H; [| |done].
  2:{ destruct (calculate_score player false); simpl in H; done. }
  destruct (hit_batch _ i gs) as [[gs1 [|]]|]; simpl in H; [| done | done].
  destruct (players gs1 !! i) as [player1|] eqn:Hp1; simpl in H; [|done].
  destruct (has_flip7 player1) eqn:H71; [|done].
  destruct (calculate_score player1 true) as [s|] eqn:Hs; simpl in H; [|done].
  injection H as <-. by exists gs1, player1, s.
Qed.

Lemma flip7_ends_round_witness :
  (* the turn that completes the seven values *)
  play_turn 1 always_hit flip7_eve
  = Some (update_player 1 (bank (28 + 15)) flip7_drawn, false)
  (* the player is banked with 28 + 15 and leaves the round *)
  ∧ (∃ gs' p',
       play_turn 1 always_hit flip7_eve = Some (gs', false)
       ∧ players gs' !! 1%nat = Some p'
       ∧ round_score p' = 43
       ∧ is_active p' = false
       ∧ players gs' !! 0%nat = players flip7_drawn !! 0%nat)
  (* the loop stops there, with the other player still active *)
  ∧ round_loop 90 flip7_bots flip7_eve
    = Some (update_player 1 (bank (28 + 15)) flip7_drawn)
  ∧ is_active <$> players (update_player 1 (bank (28 + 15)) flip7_drawn)
    = [true; false]
  (* seven values at the start of a turn *)
  ∧ play_turn 0 always_hit seven_state
    = Some (update_player 0 (bank (21 + 15)) seven_state, false).
Proof.
  assert (players flip7_eve !! 1%nat
          = Some (default (example_player []) (players flip7_eve !! 1%nat)))
    as Hp by (vm_compute; reflexivity).
  assert (players flip7_drawn !! 1%nat
          = Some (default (example_player []) (players flip7_drawn !! 1%nat)))
    as Hp1 by (vm_compute; reflexivity).
  assert (play_turn 1 always_hit flip7_eve
          = Some (update_player 1 (bank (28 + 15)) flip7_drawn, false)
          ∧ ∃ gs' p',
              play_turn 1 always_hit flip7_eve = Some (gs', false)
              ∧ players gs' !! 1%nat = Some p'
              ∧ round_score p' = 28 + 15
              ∧ is_active p' = false
              ∧ p' = set_is_active false
                       (set_round_score (28 + 15)
                          (default (example_player [])
                             (players flip7_drawn !! 1%nat)))
              ∧ (∀ j, j ≠ 1%nat → players gs' !! j = players flip7_drawn !! j)
              ∧ deck gs' = deck flip7_drawn
              ∧ discard_pile gs' = discard_pile flip7_drawn) as [Hturn Hobs].
  { refine (proj1 (proj2 (flip7_ends_round 1 always_hit flip7_eve _ Hp _))
              flip7_drawn _ 28 _ _ _ _ Hp1 _ _);
      vm_compute; first [reflexivity | lia]. }
  split_and!.
  - exact Hturn.
  - destruct Hobs as (gs' & p' & Ht & Hp' & Hrs & Hia & _ & Hothers & _).
    exists gs', p'. split; [exact Ht|]. split; [exact Hp'|].
    split; [exact Hrs|]. split; [exact Hia|].
    apply Hothers. lia.
  - refine (proj1 (proj2 (proj2 (flip7_ends_round 1 always_hit flip7_eve _ Hp _))
              _ 89%nat flip7_bots Hturn _ _));
      vm_compute; reflexivity.
  - vm_compute. reflexivity.
  - refine (proj1 (proj1 (flip7_ends_round 0 always_hit seven_state _ _ _) 21 _ _));
      vm_compute; reflexivity.
Defined.

(** ** Scores across rounds, and the end of the match *)

Lemma add_round_scores_lookup (gs : GameState) (i : nat) (p' : Player) :
  players (add_round_scores gs) !! i = Some p' →
  ∃ p, players gs !! i = Some p
       ∧ p' = set_score (score p + round_score p) p.
Proof.
  simpl. rewrite list_lookup_fmap.
  destruct (players gs !! i) as [p|]; simpl; [|done].
  intros [= <-]. by exists p.
Qed.

(** One round: every total grows by the round score, which is not
    negative. *)
Lemma play_round_scores (strategies : list BotStrategy) (gs gs' : GameState)
    (i : nat) (p p' : Player) :
  reachable gs → play_round strategies gs = Some gs' →
  players gs !! i = Some p → players gs' !! i = Some p' →
  score p' = score p + round_score p' ∧ 0 ≤ round_score p'.
Proof.
  intros Hr Hround Hp Hp'. unfold play_round in Hround.
  destruct (deal_initial_cards (reset_players gs)) as [gs1|] eqn:Hdeal;
    simpl in Hround; [|done].
  destruct (round_loop max_turns strategies gs1) as [gs2|] eqn:Hloop;
    simpl in Hround; [|done].
  injection Hround as <-.
  unfold deal_initial_cards in Hdeal.
  destruct (deal_upto_ok _ gs gs1 (reachable_ok gs Hr) Hdeal) as (_ & Hs1 & _).
  assert (reachable gs1) as Hr1.
  { simpl in Hdeal. rewrite length_fmap in Hdeal. by eapply reach_deal. }
  destruct (round_loop_reachable _ _ _ _ Hr1 Hloop) as [Hr2 Hs2].
  apply add_round_scores_lookup in Hp' as (p2 & Hp2 & ->). simpl.
  assert (score p2 = score p) as ->.
  { destruct Hs1 as (Hs1 & _).
    assert ((score <$> players gs2) !! i = (score <$> players gs) !! i) as Heq
      by (by rewrite Hs2, Hs1).
    rewrite !list_lookup_fmap, Hp2, Hp in Heq. by injection Heq. }
  split; [done|].
  pose proof (ok_round_scores gs2 (reachable_ok gs2 Hr2)) as Hrs.
  by apply (Forall_lookup_1 _ _ _ _ Hrs Hp2).
Qed.

Lemma play_round_length (strategies : list BotStrategy) (gs gs' : GameState) :
  reachable gs → play_round strategies gs = Some gs' →
  length (players gs') = length (players gs).
Proof.
  intros Hr Hround. unfold play_round in Hround.
  destruct (deal_initial_cards (reset_players gs)) as [gs1|] eqn:Hdeal;
    simpl in Hround; [|done].
  destruct (round_loop max_turns strategies gs1) as [gs2|] eqn:Hloop;
    simpl in Hround; [|done].
  injection Hround as <-.
  unfold deal_initial_cards in Hdeal.
  destruct (deal_upto_ok _ gs gs1 (reachable_ok gs Hr) Hdeal) as (_ & Hs1 & _).
  assert (reachable gs1) as Hr1.
  { simpl in Hdeal. rewrite length_fmap in Hdeal. by eapply reach_deal. }
  destruct (round_loop_reachable _ _ _ _ Hr1 Hloop) as [Hr2 Hs2].
  simpl. rewrite length_fmap.
  apply (f_equal length) in Hs2. rewrite !length_fmap in Hs2.
  rewrite Hs2. by apply same_seats_length.
Qed.

(** A whole match: no total ever decreases. *)
Lemma game_loop_scores (n : nat) (strategies : list BotStrategy)
    (gs gs' : GameState) (w i : nat) (p p' : Player) :
  reachable gs → game_loop n strategies gs = Some (gs', w) →
  players gs !! i = Some p → players gs' !! i = Some p' →
  score p ≤ score p'.
Proof.
  revert gs p. induction n as [|n IH]; intros gs p Hr H Hp Hp'; [done|].
  cbn [game_loop] in H.
  destruct (play_round strategies gs) as [gs1|] eqn:Hround; simpl in H; [|done].
  pose proof (play_round_reachable _ _ _ Hr Hround) as Hr1.
  destruct (lookup_lt_is_Some_2 (players gs1) i) as [p1 Hp1].
  { rewrite (play_round_length _ _ _ Hr Hround). by eapply lookup_lt_Some. }
  destruct (play_round_scores _ _ _ i p p1 Hr Hround Hp Hp1) as [Hsum Hpos].
  destruct (find_winner (players gs1)) as [w1|] eqn:Hw.
  - injection H as <- <-. simpl in Hp'. rewrite Hp1 in Hp'.
    injection Hp' as <-. lia.
  - destruct (next_round gs1) as [gs2|] eqn:Hnext; simpl in H; [|done].
    assert (players gs2 = players gs1) as Hps.
    { unfold next_round in Hnext. case_decide; [done|]. by injection Hnext as <-. }
    transitivity (score p1); [lia|].
    apply (IH gs2 p1); [by eapply reach_next_round|done| |done].
    by rewrite Hps.
Qed.

(** C9.  In a match a player's total never decreases: a round adds the
    round score to it and nothing else touches it; the round score is 0
    at the start of a round and on a bust, and otherwise a value of
    [calculate_score], which is defined and not negative on every hand
    of a reachable state. *)
Theorem total_score_monotone (strategies : list BotStrategy)
    (gs gs' : GameState) (i : nat) (p p' : Player) :
  reachable gs → play_round strategies gs = Some gs' →
  players gs !! i = Some p → players gs' !! i = Some p' →
  score p' = score p + round_score p'
  ∧ 0 ≤ round_score p'
  ∧ score p ≤ score p'
  ∧ (∀ b, ∃ s, calculate_score p b = Some s ∧ 0 ≤ s)
  ∧ round_score (reset_player p) = 0
  ∧ round_score (bust_player p) = 0
  ∧ (∀ n gsf w pf,
       game_loop n strategies gs = Some (gsf, w) →
       players gsf !! i = Some pf → score p ≤ score pf).
Proof.
  intros Hr Hround Hp Hp'.
  destruct (play_round_scores _ _ _ i p p' Hr Hround Hp Hp') as [Hsum Hpos].
  split_and!; [done|done|lia| |done|done|].
  - intros b. by eapply state_ok_score; [apply reachable_ok|].
  - intros n gsf w pf Hgame Hpf. by eapply game_loop_scores.
Qed.

Lemma total_score_monotone_witness :
  score <$> players before_last_round = [198; 179]
  ∧ score <$> players after_last_round = [208; 189]
  ∧ ∃ p p', players before_last_round !! 1%nat = Some p
            ∧ players after_last_round !! 1%nat = Some p'
            ∧ score p' = score p + round_score p'
            ∧ score p ≤ score p'.
Proof.
  split; [vm_compute; reflexivity|]. split; [vm_compute; reflexivity|].
  exists (default (example_player []) (players before_last_round !! 1%nat)),
         (default (example_player []) (players after_last_round !! 1%nat)).
  assert (players before_last_round !! 1%nat
          = Some (default (example_player [])
                    (players before_last_round !! 1%nat))) as Hp
    by (vm_compute; reflexivity).
  assert (players after_last_round !! 1%nat
          = Some (default (example_player [])
                    (players after_last_round !! 1%nat))) as Hp'
    by (vm_compute; reflexivity).
  assert (play_round cautious_bots before_last_round = Some after_last_round)
    as Hround by (vm_compute; reflexivity).
  destruct (total_score_monotone cautious_bots before_last_round
              after_last_round 1 _ _ before_last_round_reachable Hround Hp Hp')
    as (Hsum & _ & Hle & _).
  split_and!; [exact Hp|exact Hp'|exact Hsum|exact Hle].
Defined.

Lemma find_winner_Some (ps : list Player) (w : nat) :
  find_winner ps = Some w ↔
  ∃ pw, ps !! w = Some pw ∧ 200 ≤ score pw
        ∧ ∀ j q, ps !! j = Some q → (j < w)%nat → score q < 200.
Proof.
  unfold find_winner. split.
  - intros H. apply fmap_Some in H as ([w' pw] & Hfind & ->).
    apply list_find_Some in Hfind as (Hpw & Hs & Hmin).
    exists pw. split_and!; [done|done|].
    intros j q Hq Hj. specialize (Hmin j q Hq Hj). simpl. lia.
  - intros (pw & Hpw & Hs & Hmin).
    assert (list_find (λ p, 200 ≤ score p) ps = Some (w, pw)) as ->; [|done].
    apply list_find_Some. split_and!; [done|done|].
    intros j q Hq Hj. specialize (Hmin j q Hq Hj). lia.
Qed.

Lemma find_winner_None (ps : list Player) :
  find_winner ps = None ↔ ∀ q, q ∈ ps → score q < 200.
Proof.
  unfold find_winner. rewrite fmap_None, list_find_None, Forall_forall.
  split; intros H q Hq; specialize (H q Hq); lia.
Qed.

(** C7.  After a round of a match every total has grown by the round
    score.  If some total is then at least 200, the match is over: the
    loop returns at once with the first such player, in player order, as
    the winner and plays no further round.  Otherwise all totals are
    below 200 and the loop goes on with the bookkeeping between rounds
    and another round. *)
Theorem match_step (strategies : list BotStrategy) (gs gs1 : GameState) :
  reachable gs → play_round strategies gs = Some gs1 →
  (∀ i p p1, players gs !! i = Some p → players gs1 !! i = Some p1 →
             score p1 = score p + round_score p1)
  ∧ ((∃ q, q ∈ players gs1 ∧ 200 ≤ score q) ↔
     is_Some (find_winner (players gs1)))
  ∧ (∀ w, find_winner (players gs1) = Some w →
       (∃ pw, players gs1 !! w = Some pw ∧ 200 ≤ score pw
              ∧ ∀ j q, players gs1 !! j = Some q → (j < w)%nat →
                       score q < 200)
       ∧ ∀ n, game_loop (S n) strategies gs
              = Some (set_winner (Some w) (set_game_over true gs1), w))
  ∧ (find_winner (players gs1) = None →
       (∀ q, q ∈ players gs1 → score q < 200)
       ∧ ∀ n, game_loop (S n) strategies gs
              = gs2 ← next_round gs1; game_loop n strategies gs2).
Proof.
  intros Hr Hround. split_and!.
  - intros i p p1 Hp Hp1.
    by destruct (play_round_scores _ _ _ i p p1 Hr Hround Hp Hp1).
  - split.
    + intros (q & Hq & Hs).
      destruct (find_winner (players gs1)) as [w|] eqn:Hw; [done|].
      rewrite find_winner_None in Hw. specialize (Hw q Hq). lia.
    + intros [w Hw]. apply find_winner_Some in Hw as (pw & Hpw & Hs & _).
      exists pw. split; [|done]. by eapply list_elem_of_lookup_2.
  - intros w Hw. split.
    + by apply find_winner_Some.
    + intros n. cbn [game_loop]. rewrite Hround. simpl. by rewrite Hw.
  - intros Hw. split.
    + by apply find_winner_None.
    + intros n. cbn [game_loop]. rewrite Hround. simpl. by rewrite Hw.
Qed.

Lemma match_step_witness :
  (* the deciding round: 198 and 179 become 208 and 189, player 0 wins *)
  game_loop 1 cautious_bots before_last_round
  = Some (set_winner (Some 0%nat) (set_game_over true after_last_round), 0%nat)
  (* the first round decides nothing: the loop goes on *)
  ∧ game_loop 13 cautious_bots cautious_start
    = gs2 ← next_round after_first_round; game_loop 12 cautious_bots gs2.
Proof.
  split.
  - assert (play_round cautious_bots before_last_round = Some after_last_round)
      as Hround by (vm_compute; reflexivity).
    destruct (match_step cautious_bots before_last_round after_last_round
                before_last_round_reachable Hround) as (_ & _ & Hwin & _).
    apply (Hwin 0%nat). vm_compute. reflexivity.
  - assert (play_round cautious_bots cautious_start = Some after_first_round)
      as Hround by (vm_compute; reflexivity).
    assert (reachable cautious_start) as Hr.
    { apply (reach_init cautious_bots zero_rng). vm_compute. reflexivity. }
    destruct (match_step cautious_bots cautious_start after_first_round
                Hr Hround) as (_ & _ & _ & Hnone).
    apply Hnone. vm_compute. reflexivity.
Defined.

(** ** The bust-probability strategy *)

Lemma py_sum_present_acc (xs : list (option Z)) (acc : Z) :
  Forall (λ x, ∃ v, x = Some v ∧ 0 ≤ v ≤ 12) xs →
  for_each (λ total x, v ← x; Some (total + v)) xs acc
  = Some (acc + sum_present xs).
Proof.
  intros H. revert acc. induction H as [|x xs (v & -> & _) _ IH]; intros acc.
  - simpl. f_equal. lia.
  - simpl. rewrite IH. f_equal. lia.
Qed.

Lemma sum_present_submseteq (l k : list (option Z)) :
  l ⊆+ k → Forall (λ x, ∃ v, x = Some v ∧ 0 ≤ v ≤ 12) k →
  sum_present l ≤ sum_present k.
Proof.
  induction 1 as [|x l k _ IH|x y l|x l k _ IH|l k m _ IH1 Hkm IH2];
    intros Hk; simpl.
  - lia.
  - apply Forall_cons in Hk as [_ Hk]. specialize (IH Hk). lia.
  - lia.
  - apply Forall_cons in Hk as [(v & -> & Hv) Hk]. specialize (IH Hk).
    simpl. lia.
  - assert (Forall (λ x, ∃ v, x = Some v ∧ 0 ≤ v ≤ 12) k) as Hk'.
    { apply Forall_forall. intros x Hx. rewrite Forall_forall in Hk.
      apply Hk. by eapply elem_of_submseteq. }
    specialize (IH1 Hk'). specialize (IH2 Hk). lia.
Qed.

Lemma sum_present_nonneg (xs : list (option Z)) :
  Forall (λ x, ∃ v, x = Some v ∧ 0 ≤ v ≤ 12) xs → 0 ≤ sum_present xs.
Proof.
  induction 1 as [|x xs (v & -> & Hv) _ IH]; simpl; lia.
Qed.

(** The sum of the distinct values of a well-formed hand is defined and
    lies between 0 and 78. *)
Lemma sum_distinct_values_bounds (player : Player) :
  Forall wf_card (cards player) →
  ∃ s, sum_distinct_values player = Some s ∧ 0 ≤ s ≤ 78.
Proof.
  intros Hwf. unfold sum_distinct_values, py_sum.
  set (xs := elements (list_to_set (get_number_values player) : gset (option Z))).
  assert (Forall (λ x, ∃ v, x = Some v ∧ 0 ≤ v ≤ 12) xs) as Hxs.
  { apply Forall_forall. intros x Hx. unfold xs in Hx.
    apply elem_of_elements, elem_of_list_to_set in Hx.
    pose proof (number_cards_wf player Hwf) as Hall.
    rewrite Forall_forall in Hall. by apply Hall. }
  rewrite py_sum_present_acc by done.
  exists (0 + sum_present xs). split; [done|].
  pose proof (sum_present_nonneg xs Hxs).
  assert (sum_present xs ≤ sum_present (Some <$> seqZ 0 13)) as Hle.
  { apply sum_present_submseteq.
    - apply NoDup_submseteq; [apply NoDup_elements|].
      intros x Hx. rewrite Forall_forall in Hxs.
      destruct (Hxs x Hx) as (v & -> & Hv).
      apply list_elem_of_fmap_2, elem_of_seqZ. lia.
    - apply Forall_fmap, Forall_forall. intros v Hv.
      apply elem_of_seqZ in Hv. exists v. split; [done|lia]. }
  change (sum_present (Some <$> seqZ 0 13)) with 78 in Hle. lia.
Qed.

(** The strategy's answer on a well-formed hand whose distinct values
    sum to [s]. *)
Lemma bust_probability_unfold (p : float) (scAware : bool)
    (player : Player) (gs : GameState) (s : Z) :
  sum_distinct_values player = Some s →
  BustProbabilityStrategy_should_hit p scAware player gs
  = Some (if decide (deck gs = [] ∧ discard_pile gs = []) then false
          else PrimFloat.leb (bust_estimate s)
                 (effective_threshold p scAware player)).
Proof.
  intros Hs. unfold BustProbabilityStrategy_should_hit.
  destruct (decide (length (deck gs) + length (discard_pile gs) = 0)%nat)
    as [Hz|Hnz].
  - rewrite decide_True; [done|].
    destruct (deck gs), (discard_pile gs); done.
  - rewrite decide_False.
    2:{ intros [Hd Hp]. rewrite Hd, Hp in Hnz. done. }
    rewrite Hs. simpl.
    destruct (decide (total_number_cards > 0)) as [_|Hn];
      [|exfalso; apply Hn; reflexivity].
    unfold py_truediv.
    destruct (decide (total_number_cards = 0)) as [Hn|_];
      [discriminate Hn|].
    reflexivity.
Qed.

(** C6 (amended).  With a deck or a discard pile to draw from, the
    strategy hits exactly when the estimate, the sum of the distinct
    values held over 78, is at most the effective threshold; with both
    empty it stays, whatever the estimate. *)
Theorem bust_probability_should_hit (p : float) (scAware : bool)
    (player : Player) (gs : GameState) :
  Forall wf_card (cards player) →
  ∃ s, sum_distinct_values player = Some s ∧ 0 ≤ s ≤ 78
       ∧ BustProbabilityStrategy_should_hit p scAware player gs
         = Some (if decide (deck gs = [] ∧ discard_pile gs = []) then false
                 else PrimFloat.leb (bust_estimate s)
                        (effective_threshold p scAware player))
       ∧ (deck gs ≠ [] ∨ discard_pile gs ≠ [] →
          (BustProbabilityStrategy_should_hit p scAware player gs = Some true
           ↔ PrimFloat.leb (bust_estimate s)
               (effective_threshold p scAware player) = true))
       ∧ (deck gs = [] → discard_pile gs = [] →
          BustProbabilityStrategy_should_hit p scAware player gs = Some false).
Proof.
  intros Hwf.
  destruct (sum_distinct_values_bounds player Hwf) as (s & Hs & Hbounds).
  exists s. split; [done|]. split; [done|].
  pose proof (bust_probability_unfold p scAware player gs s Hs) as Heq.
  split; [exact Heq|]. split.
  - intros Hne. rewrite Heq.
    destruct (decide (deck gs = [] ∧ discard_pile gs = [])) as [[Hd Hp]|_].
    + destruct Hne; congruence.
    + split; [by intros [= ->]|by intros ->].
  - intros Hd Hp. rewrite Heq. by rewrite decide_True.
Qed.

Lemma bust_probability_should_hit_witness :
  (* with cards to draw: 17/78 is within 50%, the strategy hits *)
  BustProbabilityStrategy_should_hit 0.5 false dry_player
    (set_deck [number_card "card_37" 9] dry_state) = Some true
  (* the same hand on the exhausted deck: it stays *)
  ∧ BustProbabilityStrategy_should_hit 0.5 false dry_player dry_state
    = Some false.
Proof.
  assert (Forall wf_card (cards dry_player)) as Hwf.
  { apply (bool_decide_unpack _). vm_compute. exact I. }
  split.
  - destruct (bust_probability_should_hit 0.5 false dry_player
                (set_deck [number_card "card_37" 9] dry_state) Hwf)
      as (s & Hs & _ & _ & Hiff & _).
    apply Hiff; [by left|].
    revert Hs. vm_compute. intros [= <-]. reflexivity.
  - destruct (bust_probability_should_hit 0.5 false dry_player dry_state Hwf)
      as (s & _ & _ & _ & _ & Hdry).
    apply Hdry; vm_compute; reflexivity.
Defined.

(** C6, as stated, fails in a state of a real match: in the 42nd round
    of the match of two 50% players on the zero tape, the player to move
    is active, holds 6, 5, 4, 2 (four Number cards, no Flip 7) and is
    asked to decide on an empty deck and an empty discard pile.  The
    estimate 17/78 is within the threshold 0.5, yet the strategy
    stays. *)
Lemma bust_probability_counterexample :
  reachable dry_state
  ∧ players dry_state !! current_player_idx dry_state = Some dry_player
  ∧ is_active dry_player = true
  ∧ has_flip7 dry_player = false
  ∧ length (get_number_cards dry_player) = 4%nat
  ∧ deck dry_state = [] ∧ discard_pile dry_state = []
  ∧ sum_distinct_values dry_player = Some 17
  ∧ PrimFloat.leb (bust_estimate 17) (effective_threshold 0.5 false dry_player)
    = true
  ∧ BustProbabilityStrategy_should_hit 0.5 false dry_player dry_state
    = Some false
  ∧ ¬ hits_iff_within_threshold 0.5 false dry_player dry_state.
Proof.
  assert (sum_distinct_values dry_player = Some 17) as Hs
    by (vm_compute; reflexivity).
  assert (PrimFloat.leb (bust_estimate 17)
            (effective_threshold 0.5 false dry_player) = true) as Hle
    by (vm_compute; reflexivity).
  assert (BustProbabilityStrategy_should_hit 0.5 false dry_player dry_state
          = Some false) as Hstay by (vm_compute; reflexivity).
  split; [exact (match_prefix_reachable _ _ _ _ _ dry_state_prefix)|].
  split; [vm_compute; reflexivity|].
  split; [vm_compute; reflexivity|].
  split; [vm_compute; reflexivity|].
  split; [vm_compute; reflexivity|].
  split; [vm_compute; reflexivity|].
  split; [vm_compute; reflexivity|].
  split; [exact Hs|].
  split; [exact Hle|].
  split; [exact Hstay|].
  intros Hiff. destruct (Hiff 17 Hs) as [_ Hback].
  specialize (Hback Hle). rewrite Hstay in Hback. discriminate Hback.
Qed.

(** * Further properties of the code *)

(** ** Hands *)

Lemma mapM_option_Permutation {A B : Type} (f : A → option B) (l k : list A) :
  l ≡ₚ k →
  match mapM f l, mapM f k with
  | Some l', Some k' => l' ≡ₚ k'
  | None, None => True
  | _, _ => False
  end.
Proof.
  induction 1 as [|x l k _ IH|x y l|l k m _ IH1 _ IH2]; simpl.
  - done.
  - destruct (f x); simpl; [|done].
    destruct (mapM f l), (mapM f k); simpl; try done. by constructor.
  - destruct (f x), (f y); simpl; try done;
      destruct (mapM f l); simpl; try done. apply Permutation_swap.
  - destruct (mapM f l), (mapM f k), (mapM f m); try done.
    by etrans.
Qed.

Lemma foldl_add_Permutation (l k : list Z) (a : Z) :
  l ≡ₚ k → foldl Z.add a l = foldl Z.add a k.
Proof.
  intros H. revert a.
  induction H as [|x l k _ IH|x y l|l k m _ IH1 _ IH2]; intros a; simpl.
  - done.
  - apply IH.
  - f_equal. lia.
  - by rewrite IH1.
Qed.

Lemma foldl_mul_Permutation (l k : list Z) (a : Z) :
  l ≡ₚ k → foldl Z.mul a l = foldl Z.mul a k.
Proof.
  intros H. revert a.
  induction H as [|x l k _ IH|x y l|l k m _ IH1 _ IH2]; intros a; simpl.
  - done.
  - apply IH.
  - f_equal. lia.
  - by rewrite IH1.
Qed.

(** X1.  The score does not depend on the order of the hand: any
    rearrangement of the cards, modifiers included, scores the same
    (and raises on the same hands). *)
Theorem calculate_score_Permutation (p q : Player) (is_flip7 : bool) :
  cards p ≡ₚ cards q →
  calculate_score p is_flip7 = calculate_score q is_flip7.
Proof.
  intros Hperm. rewrite !calculate_score_spec. unfold score_spec.
  assert (filter (λ c, card_type c = NUMBER) (cards p)
          ≡ₚ filter (λ c, card_type c = NUMBER) (cards q)) as Hn
    by (by rewrite Hperm).
  assert (filter is_multiply_modifier (cards p)
          ≡ₚ filter is_multiply_modifier (cards q)) as Hm
    by (by rewrite Hperm).
  assert (filter is_add_modifier (cards p)
          ≡ₚ filter is_add_modifier (cards q)) as Ha
    by (by rewrite Hperm).
  apply (mapM_option_Permutation value) in Hn.
  apply (mapM_option_Permutation modifier_value) in Hm.
  apply (mapM_option_Permutation modifier_value) in Ha.
  revert Hn Hm Ha.
  destruct (mapM value (filter _ (cards p))) as [n1|],
           (mapM value (filter _ (cards q))) as [n2|]; simpl; try done.
  intros Hn.
  destruct (mapM modifier_value (filter is_multiply_modifier (cards p))) as [m1|],
           (mapM modifier_value (filter is_multiply_modifier (cards q))) as [m2|];
    simpl; try done.
  intros Hm.
  destruct (mapM modifier_value (filter is_add_modifier (cards p))) as [a1|],
           (mapM modifier_value (filter is_add_modifier (cards q))) as [a2|];
    simpl; try done.
  intros Ha. f_equal. f_equal.
  rewrite (foldl_add_Permutation n1 n2 0 Hn).
  rewrite (foldl_mul_Permutation m1 m2 _ Hm).
  by rewrite (foldl_add_Permutation a1 a2 _ Ha).
Qed.

Lemma calculate_score_Permutation_witness :
  calculate_score (example_player (reverse example_hand)) false = Some 24.
Proof.
  rewrite (calculate_score_Permutation (example_player (reverse example_hand))
             (example_player example_hand) false).
  - reflexivity.
  - apply reverse_Permutation.
Defined.

(** X2.  The three accessors split the hand: every card is returned by
    exactly one of [get_number_cards], [get_modifier_cards] and
    [get_action_cards]. *)
Theorem hand_accessors_partition (self : Player) :
  get_number_cards self ++ get_modifier_cards self ++ get_action_cards self
    ≡ₚ cards self
  ∧ (length (get_number_cards self) + length (get_modifier_cards self)
     + length (get_action_cards self) = length (cards self))%nat
  ∧ ∀ c, c ∈ cards self →
         (c ∈ get_number_cards self ↔ card_type c = NUMBER)
         ∧ (c ∈ get_modifier_cards self ↔ card_type c = MODIFIER)
         ∧ (c ∈ get_action_cards self ↔ card_type c = ACTION).
Proof.
  unfold get_number_cards, get_modifier_cards, get_action_cards.
  assert (∀ l : list Card,
            filter (λ c, card_type c = NUMBER) l
            ++ filter (λ c, card_type c = MODIFIER) l
            ++ filter (λ c, card_type c = ACTION) l ≡ₚ l) as Hsplit.
  { induction l as [|c l IH]; [done|].
    rewrite !filter_cons.
    destruct (card_type c) eqn:Hk; simpl.
    - by rewrite IH.
    - rewrite <- IH at 4. rewrite !app_assoc.
      by rewrite <- Permutation_middle.
    - rewrite <- IH at 4.
      rewrite (app_comm_cons _ _ c), Permutation_app_comm.
      simpl. by rewrite Permutation_app_comm. }
  split_and!.
  - apply Hsplit.
  - pose proof (Permutation_length (Hsplit (cards self))) as Hlen.
    rewrite !length_app in Hlen. lia.
  - intros c Hc. rewrite !list_elem_of_filter. tauto.
Qed.

(** X3.  How the bust check follows the hand: a card that is not a
    Number card never busts, and after [d] has been appended to the hand
    a Number card [c] busts exactly if it busted before or [d] is a
    Number card of the same value.  Cards of other kinds in the hand play
    no part. *)
Theorem would_bust_snoc (self : Player) (d c : Card) :
  (card_type c ≠ NUMBER → would_bust self c = false)
  ∧ would_bust (set_cards (cards self ++ [d]) self) c
    = would_bust self c
      || bool_decide (card_type c = NUMBER ∧ card_type d = NUMBER
                      ∧ value c = value d).
Proof.
  unfold would_bust. split.
  - intros Hk. by rewrite decide_True.
  - rewrite number_values_snoc.
    destruct (decide (card_type c ≠ NUMBER)) as [Hk|Hk].
    + symmetry. apply bool_decide_eq_false. tauto.
    + apply dec_stable in Hk.
      destruct (decide (card_type d = NUMBER)) as [Hd|Hd].
      * rewrite <- bool_decide_or. apply bool_decide_ext.
        rewrite elem_of_app, list_elem_of_singleton. tauto.
      * rewrite app_nil_r.
        rewrite (bool_decide_eq_false_2 (_ ∧ _)) by tauto.
        by rewrite orb_false_r.
Qed.

(** X4.  [has_flip7] counts distinct values: it needs at least seven
    Number cards, and on a hand of exactly seven Number cards it holds
    exactly when no value is held twice. *)
Theorem has_flip7_distinct (self : Player) :
  (has_flip7 self = true → (7 ≤ length (get_number_cards self))%nat)
  ∧ (length (get_number_cards self) = 7%nat →
     (has_flip7 self = true ↔ NoDup (get_number_values self))).
Proof.
  unfold has_flip7. rewrite bool_decide_eq_true.
  set (vs := get_number_values self).
  assert (length vs = length (get_number_cards self)) as Hlen
    by apply length_fmap.
  assert (elements (list_to_set vs : gset (option Z)) ⊆+ vs) as Hsub.
  { apply NoDup_submseteq; [apply NoDup_elements|].
    intros x Hx. by apply elem_of_elements, elem_of_list_to_set in Hx. }
  split.
  - intros H7. rewrite <- Hlen, <- H7. by apply submseteq_length.
  - intros H7. rewrite <- Hlen in H7. split.
    + intros Hd.
      rewrite <- (submseteq_length_Permutation _ _ Hsub).
      * apply NoDup_elements.
      * unfold size, set_size in Hd. simpl in Hd. lia.
    + intros Hnd. by rewrite size_list_to_set.
Qed.

Lemma has_flip7_distinct_witness :
  has_flip7 (example_player seven_with_duplicate) = false.
Proof.
  destruct (has_flip7 (example_player seven_with_duplicate)) eqn:H7; [|done].
  apply (proj2 (has_flip7_distinct (example_player seven_with_duplicate))
           eq_refl) in H7.
  exfalso. revert H7. apply (bool_decide_unpack _). vm_compute. exact I.
Defined.

(** ** Turn order *)

Lemma mod_below_twice (a n : nat) :
  (0 < n)%nat → (a < 2 * n)%nat →
  (a `mod` n = if decide (a < n) then a else a - n)%nat.
Proof.
  intros Hn Ha. case_decide as Hlt.
  - by apply Nat.mod_small.
  - replace a with ((a - n) + 1 * n)%nat at 1 by lia.
    rewrite Nat.Div0.mod_add. apply Nat.mod_small. lia.
Qed.

(** The loop of [next_player], [m] steps after its start: the players
    it has passed are inactive; it stops on an active player, or back at
    its start when nobody is active. *)
Lemma next_player_loop_active (fuel start m : nat) (gs gs' : GameState) :
  (start < length (players gs))%nat → (m < length (players gs))%nat →
  current_player_idx gs = ((start + m) `mod` length (players gs))%nat →
  (∀ t p, (1 ≤ t ≤ m)%nat →
          players gs !! ((start + t) `mod` length (players gs))%nat = Some p →
          is_active p = false) →
  next_player_loop fuel start gs = Some gs' →
  (∃ p, players gs !! current_player_idx gs' = Some p ∧ is_active p = true)
  ∨ (current_player_idx gs' = start
     ∧ Forall (λ p, is_active p = false) (players gs)).
Proof.
  revert m gs. induction fuel as [|fuel IH]; intros m gs Hstart Hm Hcur Hpast H;
    [done|].
  cbn [next_player_loop] in H.
  destruct (decide (length (players gs) = 0%nat)) as [|Hn]; [done|].
  cbn zeta in H.
  set (n := length (players gs)) in *.
  assert (((current_player_idx gs + 1) `mod` n = (start + S m) `mod` n)%nat)
    as Hidx.
  { rewrite Hcur, Nat.Div0.add_mod_idemp_l. f_equal. lia. }
  rewrite Hidx in H. clear Hidx.
  set (idx := ((start + S m) `mod` n)%nat) in *.
  simpl in H.
  destruct (players gs !! idx) as [p|] eqn:Hp; simpl in H; [|done].
  destruct (is_active p) eqn:Hact.
  { injection H as <-. left. exists p. by split. }
  assert (idx = if decide (start + S m < n)%nat then start + S m
                else start + S m - n)%nat as Hidx
    by (apply mod_below_twice; lia).
  destruct (decide (idx = start)) as [Heq|Hne].
  - injection H as <-. right. split; [done|].
    assert (S m = n) as HSm by (destruct (decide (start + S m < n)%nat); lia).
    apply Forall_lookup. intros j q Hq.
    pose proof (lookup_lt_Some _ _ _ Hq) as Hj. fold n in Hj.
    destruct (decide (j = start)) as [->|Hjs].
    { rewrite <- Heq in Hq. rewrite Hp in Hq. by injection Hq as <-. }
    clear Hidx.
    destruct (decide (start < j)%nat) as [Hsj|Hsj].
    + apply (Hpast (j - start)%nat); [lia|].
      fold n. rewrite Nat.mod_small by lia.
      by replace (start + (j - start))%nat with j by lia.
    + apply (Hpast (j + n - start)%nat); [lia|].
      fold n. rewrite mod_below_twice by lia.
      destruct (decide (start + (j + n - start) < n)%nat); [lia|].
      by replace (start + (j + n - start) - n)%nat with j by lia.
  - assert (S m < n)%nat as HSm
      by (destruct (decide (start + S m < n)%nat); lia).
    apply (IH (S m)) in H; simpl; try done.
    intros t q Ht Hq.
    destruct (decide (t = S m)) as [->|Hts].
    + fold n idx in Hq. rewrite Hp in Hq. by injection Hq as <-.
    + apply (Hpast t); [lia|done].
Qed.

(** X5.  [next_player] returns in every state whose index is in range,
    leaves the players as they are, and moves the index to an active
    player whenever one exists; with no active player the index ends
    where it started. *)
Theorem next_player_lands_on_active (gs : GameState) :
  (current_player_idx gs < length (players gs))%nat →
  ∃ gs', next_player gs = Some gs'
         ∧ players gs' = players gs
         ∧ (current_player_idx gs' < length (players gs))%nat
         ∧ ((∃ q, q ∈ players gs ∧ is_active q = true) →
            ∃ p, players gs !! current_player_idx gs' = Some p
                 ∧ is_active p = true)
         ∧ (Forall (λ p, is_active p = false) (players gs) →
            current_player_idx gs' = current_player_idx gs).
Proof.
  intros Hcur. destruct (next_player_returns gs Hcur) as [gs' Hnext].
  exists gs'. split; [done|].
  pose proof (next_player_loop_frame _ _ _ _ Hnext) as [Hframe Hlt].
  assert ((∃ p, players gs !! current_player_idx gs' = Some p
                ∧ is_active p = true)
          ∨ (current_player_idx gs' = current_player_idx gs
             ∧ Forall (λ p, is_active p = false) (players gs))) as Hcases.
  { apply (next_player_loop_active (length (players gs))
             (current_player_idx gs) 0 gs gs'); [done|lia| | |exact Hnext].
    - rewrite Nat.add_0_r. symmetry. by apply Nat.mod_small.
    - intros t p Ht. lia. }
  split_and!.
  - by rewrite Hframe.
  - done.
  - intros (q & Hq & Hact). destruct Hcases as [|[_ Hall]]; [done|].
    rewrite Forall_forall in Hall. specialize (Hall q Hq). congruence.
  - intros Hall. destruct Hcases as [(p & Hp & Hact)|[? _]]; [|done].
    rewrite Forall_forall in Hall.
    assert (is_active p = false)
      by (apply Hall; by eapply list_elem_of_lookup_2).
    congruence.
Qed.

Lemma next_player_lands_on_active_witness :
  ∃ gs', next_player ten_cards_state = Some gs'
         ∧ current_player_idx gs' = 1%nat
         ∧ is_active <$> players gs' = [false; true].
Proof.
  destruct (next_player_lands_on_active ten_cards_state)
    as (gs' & Hnext & Hps & Hlt & Hactive & _).
  - vm_compute. lia.
  - exists gs'. split; [done|]. split.
    + destruct Hactive as (p & Hp & Hact).
      * exists (default (example_player []) (players ten_cards_state !! 1%nat)).
        split; [|vm_compute; reflexivity].
        apply (list_elem_of_lookup_2 _ 1%nat). vm_compute. reflexivity.
      * assert (length (players ten_cards_state) = 2%nat) as Hlen
          by (vm_compute; reflexivity).
        rewrite Hlen in Hlt.
        destruct (current_player_idx gs') as [|[|k]]; [|done|lia].
        exfalso. revert Hp Hact. vm_compute. intros [= <-]. discriminate.
    + rewrite Hps. vm_compute. reflexivity.
Defined.

(** ** Rounds and matches return *)

Lemma round_loop_returns (n : nat) (strategies : list BotStrategy)
    (gs : GameState) :
  state_ok gs → length strategies = length (players gs) →
  Forall total_strategy strategies →
  is_Some (round_loop n strategies gs).
Proof.
  revert gs. induction n as [|n IH]; intros gs Hok Hlen Htot; [done|].
  cbn [round_loop].
  destruct (existsb is_active (players gs)); simpl; [|done].
  pose proof (ok_current gs Hok) as Hcur.
  unfold get_current_player.
  destruct (lookup_lt_is_Some_2 (players gs) _ Hcur) as [p ->]. simpl.
  destruct (lookup_lt_is_Some_2 strategies (current_player_idx gs))
    as [strategy Hs]; [lia|].
  rewrite Hs. simpl.
  destruct (play_turn_returns (current_player_idx gs) strategy gs Hok Hcur)
    as [[gs1 b] Hturn].
  { rewrite Forall_forall in Htot. apply Htot.
    by eapply list_elem_of_lookup_2. }
  rewrite Hturn. simpl.
  destruct (play_turn_ok _ _ _ _ _ Hok Hturn) as [Hok1 Hs1].
  destruct b; simpl; [|done].
  destruct (next_player_returns gs1 (ok_current gs1 Hok1)) as [gs2 Hnext].
  rewrite Hnext. simpl.
  destruct (next_player_ok _ _ Hok1 Hnext) as (Hok2 & Hps & _).
  apply IH; [done| |done].
  rewrite Hps. by rewrite (same_seats_length _ _ Hs1).
Qed.

(** X6.  A round played from a state of a match, with one strategy per
    player and strategies that answer, returns: no draw, lookup or
    score computation raises.  The state it returns is again a state of
    a match with the same number of players, so the same holds for
    every later round. *)
Theorem play_round_returns (strategies : list BotStrategy) (gs : GameState) :
  reachable gs → length strategies = length (players gs) →
  Forall total_strategy strategies →
  (∃ gs', play_round strategies gs = Some gs'
          ∧ reachable gs' ∧ length (players gs') = length (players gs))
  ∧ ∀ k, is_Some (rounds_played k strategies gs).
Proof.
  assert (∀ gs, reachable gs → length strategies = length (players gs) →
                Forall total_strategy strategies →
                ∃ gs', play_round strategies gs = Some gs'
                       ∧ reachable gs'
                       ∧ length (players gs') = length (players gs)) as Hone.
  { clear gs. intros gs Hr Hlen Htot.
    pose proof (reachable_ok gs Hr) as Hok.
    destruct (deal_upto_returns (seq 0 (length (players (reset_players gs))))
                (reset_players gs)) as [gs1 Hdeal].
    destruct (deal_upto_ok _ gs gs1 Hok Hdeal) as (Hok1 & Hs1 & _).
    destruct (round_loop_returns max_turns strategies gs1 Hok1) as [gs2 Hloop];
      [by rewrite (same_seats_length _ _ Hs1)|done|].
    assert (play_round strategies gs = Some (add_round_scores gs2)) as Hround.
    { unfold play_round, deal_initial_cards, deal_upto.
      rewrite Hdeal. simpl. by rewrite Hloop. }
    exists (add_round_scores gs2). split; [done|]. split.
    - by eapply play_round_reachable.
    - by eapply play_round_length. }
  intros Hr Hlen Htot. split; [by apply Hone|].
  intros k. revert gs Hr Hlen. induction k as [|k IH]; intros gs Hr Hlen; [done|].
  cbn [rounds_played].
  destruct (Hone gs Hr Hlen Htot) as (gs1 & -> & Hr1 & Hlen1). simpl.
  assert (∃ gs2, next_round gs1 = Some gs2 ∧ players gs2 = players gs1)
    as (gs2 & Hnext & Hps).
  { unfold next_round.
    destruct (decide (length (players gs1) = 0%nat)) as [Hz|_].
    - pose proof (ok_players gs1 (reachable_ok gs1 Hr1)).
      by destruct (players gs1).
    - by eexists. }
  rewrite Hnext. simpl. apply IH.
  - by eapply reach_next_round.
  - rewrite Hps. lia.
Qed.

Lemma play_round_returns_witness :
  is_Some (play_round ten_cards_bots ten_cards_state)
  ∧ is_Some (rounds_played 3 ten_cards_bots ten_cards_state).
Proof.
  destruct (play_round_returns ten_cards_bots ten_cards_state)
    as [(gs' & Hround & _) Hall].
  - exact (match_prefix_reachable _ _ _ _ _ ten_cards_state_prefix).
  - vm_compute. reflexivity.
  - repeat constructor; intros player gs; by eexists.
  - split; [by rewrite Hround|apply Hall].
Defined.

(** ** The start of a match *)

(** X7.  [initialize_game] raises exactly on an empty strategy list (the
    first actor is [1 % len(players)]).  Otherwise it seats one fresh
    player per strategy, named after it, with an empty hand and no
    score; the deck is the shuffled deck for that many players; the
    dealer is player 0 and the first actor is player [1 mod n], which is
    player 0 in a single-player match. *)
Theorem initialize_game_spec (strategies : list BotStrategy) (g : Rng) :
  (initialize_game strategies g = None ↔ strategies = [])
  ∧ ∀ gs, initialize_game strategies g = Some gs →
      length (players gs) = length strategies
      ∧ (∀ i s, strategies !! i = Some s →
           players gs !! i
           = Some (mkPlayer ("player_" +:+ pretty i) (strategy_name s) [] 0 0
                            true false false false None))
      ∧ deck gs = (create_deck (Z.of_nat (length strategies)) g).1
      ∧ length (deck gs)
        = (Z.to_nat (Z.max 2 ((Z.of_nat (length strategies) + 2) `div` 3))
           * 104)%nat
      ∧ discard_pile gs = []
      ∧ dealer_idx gs = 0%nat
      ∧ current_player_idx gs = (1 `mod` length strategies)%nat
      ∧ (length strategies = 1%nat → current_player_idx gs = 0%nat)
      ∧ round_number gs = 1
      ∧ game_over gs = false ∧ winner gs = None.
Proof.
  unfold initialize_game.
  pose proof (create_deck_length (Z.of_nat (length strategies)) g) as Hlen.
  unfold num_decks_of in Hlen.
  rewrite length_imap.
  destruct (create_deck (Z.of_nat (length strategies)) g) as [d g'].
  cbn [fst] in Hlen.
  split.
  - destruct (decide (length strategies = 0%nat)) as [Hz|Hnz].
    + split; [|done]. intros _. by destruct strategies.
    + split; [done|]. intros ->. done.
  - intros gs. destruct (decide (length strategies = 0%nat)); [done|].
    intros [= <-]. cbn [players deck discard_pile dealer_idx current_player_idx
                       round_number game_over winner].
    split_and!; try done.
    + apply length_imap.
    + intros i s Hs. by rewrite list_lookup_imap, Hs.
    + by intros ->.
Qed.

(** ** The end of a match *)

(** X8.  When the match loop returns, the state it returns is marked
    over, its winner is the returned index, that player has at least 200
    points and every player seated before has fewer; and the bound on
    the number of rounds plays no part: any larger bound gives the same
    result. *)
Theorem game_loop_result (n : nat) (strategies : list BotStrategy)
    (gs gs' : GameState) (w : nat) :
  game_loop n strategies gs = Some (gs', w) →
  game_over gs' = true
  ∧ winner gs' = Some w
  ∧ (∃ pw, players gs' !! w = Some pw ∧ 200 ≤ score pw)
  ∧ (∀ j q, players gs' !! j = Some q → (j < w)%nat → score q < 200)
  ∧ ∀ m, (n ≤ m)%nat → game_loop m strategies gs = Some (gs', w).
Proof.
  revert gs. induction n as [|n IH]; intros gs H; [done|].
  cbn [game_loop] in H.
  destruct (play_round strategies gs) as [gs1|] eqn:Hround; simpl in H; [|done].
  destruct (find_winner (players gs1)) as [w1|] eqn:Hw.
  - injection H as <- <-.
    apply find_winner_Some in Hw as (pw & Hpw & Hs & Hmin).
    split_and!; try done.
    + by exists pw.
    + intros [|m] Hm; [lia|]. cbn [game_loop]. rewrite Hround. simpl.
      assert (find_winner (players gs1) = Some w1) as ->; [|done].
      apply find_winner_Some. by exists pw.
  - destruct (next_round gs1) as [gs2|] eqn:Hnext; simpl in H; [|done].
    destruct (IH gs2 H) as (H1 & H2 & H3 & H4 & H5).
    split_and!; try done.
    intros [|m] Hm; [lia|]. cbn [game_loop]. rewrite Hround. simpl.
    rewrite Hw, Hnext. simpl. apply H5. lia.
Qed.

Lemma game_loop_result_witness :
  ∃ gs', play_game 13 cautious_bots zero_rng = Some (gs', 0%nat)
         ∧ play_game 50 cautious_bots zero_rng = Some (gs', 0%nat)
         ∧ game_over gs' = true ∧ winner gs' = Some 0%nat.
Proof.
  assert (initialize_game cautious_bots zero_rng = Some cautious_start) as Hinit
    by (vm_compute; reflexivity).
  set (final := default (exhausted_state, 0%nat)
                  (game_loop 13 cautious_bots cautious_start)).
  assert (game_loop 13 cautious_bots cautious_start = Some (final.1, 0%nat))
    as Hgame by (vm_compute; reflexivity).
  destruct (game_loop_result 13 cautious_bots cautious_start final.1 0 Hgame)
    as (Hover & Hwin & _ & _ & Hmore).
  exists final.1. unfold play_game. rewrite Hinit.
  split; [exact Hgame|].
  split; [exact (Hmore 50%nat ltac:(lia))|].
  split; [exact Hover|exact Hwin].
Defined.

(** ** What a turn touches *)

Lemma handle_action_card_frame (i : nat) (card : Card) (gs : GameState) :
  (∀ j, j ≠ i → players (handle_action_card i card gs) !! j = players gs !! j)
  ∧ deck (handle_action_card i card gs) = deck gs
  ∧ discard_pile (handle_action_card i card gs) = discard_pile gs
  ∧ ∀ p, players gs !! i = Some p →
         ∃ p', players (handle_action_card i card gs) !! i = Some p'
               ∧ cards p' = cards p ∧ score p' = score p
               ∧ round_score p' = round_score p
               ∧ is_active p' = is_active p ∧ has_busted p' = has_busted p
               ∧ player_id p' = player_id p.
Proof.
  assert (∀ f : Player → Player,
            (∀ p, cards (f p) = cards p ∧ score (f p) = score p
                  ∧ round_score (f p) = round_score p
                  ∧ is_active (f p) = is_active p
                  ∧ has_busted (f p) = has_busted p
                  ∧ player_id (f p) = player_id p) →
            (∀ j, j ≠ i → players (update_player i f gs) !! j = players gs !! j)
            ∧ deck (update_player i f gs) = deck gs
            ∧ discard_pile (update_player i f gs) = discard_pile gs
            ∧ ∀ p, players gs !! i = Some p →
                   ∃ p', players (update_player i f gs) !! i = Some p'
                         ∧ cards p' = cards p ∧ score p' = score p
                         ∧ round_score p' = round_score p
                         ∧ is_active p' = is_active p
                         ∧ has_busted p' = has_busted p
                         ∧ player_id p' = player_id p) as Hupd.
  { intros f Hf. split_and!; [|reflexivity|reflexivity|].
    - intros j Hj. by apply update_player_lookup_ne.
    - intros p Hp. exists (f p).
      split; [by apply update_player_lookup|apply Hf]. }
  unfold handle_action_card.
  destruct (decide (card_type card = ACTION)).
  2:{ split_and!; try reflexivity. intros p Hp. exists p. by split_and!. }
  destruct (decide (action_type card = Some SECOND_CHANCE)).
  { apply Hupd. intros p. by split_and!. }
  destruct (decide (action_type card = Some FLIP_THREE)).
  { apply Hupd. intros p. by split_and!. }
  split_and!; try reflexivity. intros p Hp. exists p. by split_and!.
Qed.

(** The hit loop changes the record of the drawing player only: the
    hand grows at its end, the total and the identifier stay; a loop
    that completes leaves the player's round state alone, a bust leaves
    the player inactive with nothing. *)
Lemma hit_batch_frame (n i : nat) (gs gs' : GameState) (o : BatchOutcome) :
  hit_batch n i gs = Some (gs', o) →
  (∀ j, j ≠ i → players gs' !! j = players gs !! j)
  ∧ ∀ p, players gs !! i = Some p →
      ∃ p', players gs' !! i = Some p'
            ∧ cards p `prefix_of` cards p'
            ∧ score p' = score p ∧ player_id p' = player_id p
            ∧ match o with
              | BatchCompleted =>
                  is_active p' = is_active p
                  ∧ round_score p' = round_score p
                  ∧ has_busted p' = has_busted p
              | BatchBust =>
                  is_active p' = false ∧ round_score p' = 0
                  ∧ has_busted p' = true
              end.
Proof.
  revert gs. induction n as [|n IH]; intros gs H.
  { injection H as <- <-. split; [done|]. intros p Hp. by exists p. }
  cbn [hit_batch] in H.
  destruct (draw_card gs) as [[card gs1]|] eqn:Hd; simpl in H; [|done].
  pose proof (draw_card_players _ _ _ Hd) as Hps.
  destruct (players gs1 !! i) as [player|] eqn:Hp1; simpl in H; [|done].
  destruct (would_bust player card).
  - destruct (has_second_chance player).
    + apply IH in H as [Hothers Hself]. split.
      * intros j Hj. rewrite (Hothers j Hj). simpl.
        rewrite list_lookup_alter_ne by done. by rewrite Hps.
      * intros p Hp. rewrite <- Hps, Hp1 in Hp. injection Hp as <-.
        destruct (Hself (set_has_second_chance false player))
          as (p' & Hp' & Hpre & Hrest).
        { simpl. by rewrite list_lookup_alter_eq, Hp1. }
        exists p'. split; [done|]. split; [done|]. exact Hrest.
    + injection H as <- <-. split.
      * intros j Hj. rewrite update_player_lookup_ne by done. by rewrite Hps.
      * intros p Hp. rewrite <- Hps, Hp1 in Hp. injection Hp as <-.
        exists (bust_player player).
        split; [by apply update_player_lookup|done].
  - apply IH in H as [Hothers Hself].
    destruct (handle_action_card_frame i card
                (update_player i (λ p, set_cards (cards p ++ [card]) p) gs1))
      as (Hfo & _ & _ & Hfs).
    split.
    + intros j Hj. rewrite (Hothers j Hj), (Hfo j Hj).
      rewrite update_player_lookup_ne by done. by rewrite Hps.
    + intros p Hp. rewrite <- Hps, Hp1 in Hp. injection Hp as <-.
      destruct (Hfs (set_cards (cards player ++ [card]) player))
        as (p1 & Hp1' & Hc1 & Hs1 & Hr1 & Ha1 & Hb1 & Hid1).
      { exact (update_player_lookup i (λ p, set_cards (cards p ++ [card]) p)
                 gs1 player Hp1). }
      destruct (Hself p1 Hp1') as (p' & Hp' & Hpre & Hs' & Hid' & Hrest).
      exists p'. split; [done|]. split_and!.
      * etrans; [|exact Hpre]. rewrite Hc1. simpl. by apply prefix_app_r.
      * by rewrite Hs', Hs1.
      * by rewrite Hid', Hid1.
      * destruct o; [|done].
        destruct Hrest as (-> & -> & ->). by rewrite Ha1, Hr1, Hb1.
Qed.

(** X9.  A turn changes the record of the acting player only.  For that
    player the hand only grows at its end (no card ever leaves a hand
    during a turn), the cumulative score and the identifier are kept,
    and a turn of a player who is no longer active changes nothing at
    all. *)
Theorem play_turn_frame (i : nat) (strategy : BotStrategy)
    (gs gs' : GameState) (b : bool) :
  play_turn i strategy gs = Some (gs', b) →
  (∀ j, j ≠ i → players gs' !! j = players gs !! j)
  ∧ ∃ p p', players gs !! i = Some p ∧ players gs' !! i = Some p'
            ∧ cards p `prefix_of` cards p'
            ∧ score p' = score p ∧ player_id p' = player_id p
            ∧ (is_active p = false → gs' = gs ∧ b = true).
Proof.
  unfold play_turn. intros H.
  destruct (players gs !! i) as [player|] eqn:Hp; simpl in H; [|done].
  assert (∀ s gs0 p0, players gs0 !! i = Some p0 →
            (∀ j, j ≠ i → players (update_player i (bank s) gs0) !! j
                          = players gs0 !! j)
            ∧ players (update_player i (bank s) gs0) !! i = Some (bank s p0))
    as Hbank.
  { intros s gs0 p0 Hp0. split.
    - intros j Hj. by apply update_player_lookup_ne.
    - by apply update_player_lookup. }
  destruct (is_active player) eqn:Hact; simpl in H.
  2:{ injection H as <- <-. split; [done|]. exists player, player.
      split_and!; try done. }
  destruct (has_flip7 player).
  { destruct (calculate_score player true) as [s|]; simpl in H; [|done].
    injection H as <- <-. destruct (Hbank s gs player Hp) as [Ho Hs].
    split; [done|]. exists player, (bank s player).
    split_and!; try done; congruence. }
  destruct (decide (10 ≤ length (get_number_cards player))%nat).
  { destruct (calculate_score player false) as [s|]; simpl in H; [|done].
    injection H as <- <-. destruct (Hbank s gs player Hp) as [Ho Hs].
    split; [done|]. exists player, (bank s player).
    split_and!; try done; congruence. }
  destruct (should_hit strategy player gs) as [[|]|]; simpl in H; [| |done].
  2:{ destruct (calculate_score player false) as [s|]; simpl in H; [|done].
      injection H as <- <-. destruct (Hbank s gs player Hp) as [Ho Hs].
      split; [done|]. exists player, (bank s player).
    split_and!; try done; congruence. }
  destruct (hit_batch _ i gs) as [[gs1 o]|] eqn:Hbatch; simpl in H; [|done].
  destruct (hit_batch_frame _ _ _ _ _ Hbatch) as [Hothers Hself].
  destruct (Hself player Hp) as (p1 & Hp1 & Hpre & Hs1 & Hid1 & _).
  destruct o.
  2:{ injection H as <- <-. split; [done|]. exists player, p1.
      split_and!; try done. congruence. }
  rewrite Hp1 in H. simpl in H.
  destruct (has_flip7 p1).
  { destruct (calculate_score p1 true) as [s|]; simpl in H; [|done].
    injection H as <- <-. destruct (Hbank s gs1 p1 Hp1) as [Ho Hs].
    split.
    - intros j Hj. by rewrite Ho, Hothers.
    - exists player, (bank s p1). split_and!; try done. congruence. }
  injection H as <- <-.
  destruct (decide ((if has_flip_three_active player then 3 else 1) = 3)%nat).
  - split.
    + intros j Hj. rewrite update_player_lookup_ne by done. by apply Hothers.
    + exists player, (set_has_flip_three_active false p1).
      split_and!; try done; [by apply update_player_lookup|congruence].
  - split; [done|]. exists player, p1. split_and!; try done. congruence.
Qed.

Lemma play_turn_frame_witness :
  ∃ gs', play_turn 1 always_hit flip7_eve = Some (gs', false)
         ∧ players gs' !! 0%nat = players flip7_eve !! 0%nat.
Proof.
  set (r := default (exhausted_state, true) (play_turn 1 always_hit flip7_eve)).
  assert (play_turn 1 always_hit flip7_eve = Some (r.1, false)) as Hturn
    by (vm_compute; reflexivity).
  exists r.1. split; [exact Hturn|].
  apply (proj1 (play_turn_frame 1 always_hit flip7_eve _ _ Hturn) 0%nat).
  lia.
Defined.

(** ** The bookkeeping invariant *)

Lemma table_ok_update_player (i : nat) (f : Player → Player) (gs : GameState) :
  table_ok gs →
  (∀ p, players gs !! i = Some p → round_state_ok p → round_state_ok (f p)) →
  table_ok (update_player i f gs).
Proof.
  intros [HD HR HT] Hf. split.
  - exact HD.
  - simpl. apply Forall_alter; [exact HR|exact Hf].
  - unfold rotation_ok. rewrite update_player_length. exact HT.
Qed.

Lemma table_ok_draw_card (gs gs' : GameState) (card : Card) :
  draw_card gs = Some (card, gs') → table_ok gs → table_ok gs'.
Proof.
  intros Hd [HD HR HT].
  destruct (draw_card_cases gs) as (c & g1 & Hd' & Hps & Hcases).
  rewrite Hd in Hd'. injection Hd' as <- <-.
  pose proof (draw_card_frame _ _ _ Hd) as Hfr.
  assert (round_number gs' = round_number gs) as Hrn
    by (rewrite Hfr; reflexivity).
  assert (dealer_idx gs' = dealer_idx gs) as Hdl
    by (rewrite Hfr; reflexivity).
  split.
  - destruct (decide (deck gs ≠ [])).
    { destruct Hcases as [_ ->]. exact HD. }
    destruct (decide (discard_pile gs ≠ [])).
    { destruct Hcases as [_ ->]. constructor. }
    destruct Hcases as (_ & _ & _ & _ & ->). constructor.
  - rewrite Hps. exact HR.
  - unfold rotation_ok. rewrite Hrn, Hdl, Hps. exact HT.
Qed.

Lemma table_ok_handle_action_card (i : nat) (card : Card) (gs : GameState) :
  table_ok gs → table_ok (handle_action_card i card gs).
Proof.
  intros H. unfold handle_action_card.
  destruct (decide (card_type card = ACTION)); [|exact H].
  destruct (decide (action_type card = Some SECOND_CHANCE)).
  { apply table_ok_update_player; [exact H|]. intros p _ Hp. exact Hp. }
  destruct (decide (action_type card = Some FLIP_THREE)); [|exact H].
  apply table_ok_update_player; [exact H|]. intros p _ Hp. exact Hp.
Qed.

Lemma table_ok_deal_one (gs gs' : GameState) (i : nat) :
  deal_one gs i = Some gs' → table_ok gs → table_ok gs'.
Proof.
  intros H Hok. unfold deal_one in H.
  destruct (draw_card gs) as [[card gs1]|] eqn:Hd; simpl in H;
    [|discriminate H].
  injection H as <-.
  apply table_ok_handle_action_card, table_ok_update_player.
  - by eapply table_ok_draw_card.
  - intros p _ Hp. exact Hp.
Qed.

Lemma for_each_preserves {A S : Type} (P : S → Prop)
    (body : S → A → option S) (xs : list A) (s r : S) :
  (∀ s x s', body s x = Some s' → P s → P s') →
  for_each body xs s = Some r → P s → P r.
Proof.
  intros Hbody. revert s. induction xs as [|x xs IH]; intros s H Hs.
  - by injection H as <-.
  - simpl in H. destruct (body s x) as [s'|] eqn:Hb; simpl in H;
      [|discriminate H].
    apply (IH s' H). by eapply Hbody.
Qed.

Lemma table_ok_reset_players (gs : GameState) :
  table_ok gs → table_ok (reset_players gs).
Proof.
  intros [HD HR HT]. split.
  - exact HD.
  - simpl. apply Forall_fmap, Forall_forall. intros p _.
    split; simpl; [done|intros Hb; discriminate Hb].
  - unfold rotation_ok. simpl. rewrite length_fmap. exact HT.
Qed.

Lemma would_bust_number (player : Player) (card : Card) :
  would_bust player card = true → card_type card = NUMBER.
Proof.
  unfold would_bust.
  destruct (decide (card_type card ≠ NUMBER)) as [|Hn]; [done|].
  intros _. by destruct (decide (card_type card = NUMBER)).
Qed.

Lemma table_ok_hit_batch (n i : nat) (gs gs' : GameState) (o : BatchOutcome) :
  hit_batch n i gs = Some (gs', o) → table_ok gs → table_ok gs'.
Proof.
  revert gs. induction n as [|n IH]; intros gs H Hok.
  { by injection H as <- <-. }
  cbn [hit_batch] in H.
  destruct (draw_card gs) as [[card gs1]|] eqn:Hd; simpl in H;
    [|discriminate H].
  pose proof (table_ok_draw_card _ _ _ Hd Hok) as Hok1.
  destruct (players gs1 !! i) as [player|] eqn:Hp1; simpl in H;
    [|discriminate H].
  destruct (would_bust player card) eqn:Hb.
  - destruct (has_second_chance player).
    + apply IH in H; [exact H|].
      destruct (table_ok_update_player i (set_has_second_chance false) gs1 Hok1)
        as [HD HR HT].
      { intros p _ Hp. exact Hp. }
      split; [|exact HR|exact HT].
      simpl. apply Forall_app. split; [exact HD|].
      apply Forall_singleton. by eapply would_bust_number.
    + injection H as <- <-. apply table_ok_update_player; [exact Hok1|].
      intros p _ _. split; simpl; [intros Ha; discriminate Ha|done].
  - apply IH in H; [exact H|].
    apply table_ok_handle_action_card, table_ok_update_player; [exact Hok1|].
    intros p _ Hp. exact Hp.
Qed.

Lemma table_ok_bank (i : nat) (s : Z) (gs : GameState) (p : Player) :
  table_ok gs → players gs !! i = Some p → has_busted p = false →
  table_ok (update_player i (bank s) gs).
Proof.
  intros Hok Hp Hnb. apply table_ok_update_player; [exact Hok|].
  intros q Hq _. assert (q = p) as -> by congruence.
  split; simpl; [intros Ha; discriminate Ha|].
  intros Hb. congruence.
Qed.

Lemma table_ok_play_turn (i : nat) (strategy : BotStrategy)
    (gs gs' : GameState) (b : bool) :
  play_turn i strategy gs = Some (gs', b) → table_ok gs → table_ok gs'.
Proof.
  unfold play_turn. intros H Hok.
  destruct (players gs !! i) as [player|] eqn:Hp; simpl in H;
    [|discriminate H].
  destruct (is_active player) eqn:Hact; simpl in H;
    [|by injection H as <- <-].
  assert (has_busted player = false) as Hnb.
  { pose proof (tbl_round gs Hok) as HR.
    by apply (Forall_lookup_1 _ _ _ _ HR Hp). }
  destruct (has_flip7 player).
  { destruct (calculate_score player true) as [s|]; simpl in H;
      [|discriminate H].
    injection H as <- <-. by eapply table_ok_bank. }
  destruct (decide (10 ≤ length (get_number_cards player))%nat).
  { destruct (calculate_score player false) as [s|]; simpl in H;
      [|discriminate H].
    injection H as <- <-. by eapply table_ok_bank. }
  destruct (should_hit strategy player gs) as [[|]|]; simpl in H;
    [| |discriminate H].
  2:{ destruct (calculate_score player false) as [s|]; simpl in H;
        [|discriminate H].
      injection H as <- <-. by eapply table_ok_bank. }
  destruct (hit_batch _ i gs) as [[gs1 o]|] eqn:Hbatch; simpl in H;
    [|discriminate H].
  pose proof (table_ok_hit_batch _ _ _ _ _ Hbatch Hok) as Hok1.
  destruct (hit_batch_frame _ _ _ _ _ Hbatch) as [_ Hself].
  destruct (Hself player Hp) as (p1 & Hp1 & _ & _ & _ & Hrest).
  destruct o; [|by injection H as <- <-].
  destruct Hrest as (Ha1 & Hr1 & Hb1).
  rewrite Hp1 in H. simpl in H.
  destruct (has_flip7 p1).
  { destruct (calculate_score p1 true) as [s|]; simpl in H;
      [|discriminate H].
    injection H as <- <-. eapply table_ok_bank; [exact Hok1|exact Hp1|].
    congruence. }
  injection H as <- <-.
  destruct (decide ((if has_flip_three_active player then 3 else 1) = 3)%nat);
    [|exact Hok1].
  apply table_ok_update_player; [exact Hok1|]. intros p _ Hq. exact Hq.
Qed.

Lemma table_ok_next_player (gs gs' : GameState) :
  next_player gs = Some gs' → table_ok gs → table_ok gs'.
Proof.
  intros H [HD HR HT]. apply next_player_loop_frame in H as [-> _].
  by split.
Qed.

Lemma table_ok_add_round_scores (gs : GameState) :
  table_ok gs → table_ok (add_round_scores gs).
Proof.
  intros [HD HR HT]. split.
  - exact HD.
  - simpl. apply Forall_fmap. eapply Forall_impl; [exact HR|].
    intros p Hp. exact Hp.
  - unfold rotation_ok. simpl. rewrite length_fmap. exact HT.
Qed.

Lemma table_ok_next_round (gs gs' : GameState) :
  next_round gs = Some gs' → table_ok gs → table_ok gs'.
Proof.
  unfold next_round. intros H [HD HR [H1 Hdl]].
  destruct (decide (length (players gs) = 0%nat)) as [|Hn];
    [discriminate H|].
  injection H as <-. split; [exact HD|exact HR|].
  unfold rotation_ok. simpl. split; [lia|].
  rewrite Nat2Z.inj_mod, Nat2Z.inj_add, Hdl.
  rewrite Zplus_mod_idemp_l. f_equal. lia.
Qed.

Lemma table_ok_initialize_game (strategies : list BotStrategy) (g : Rng)
    (gs : GameState) :
  initialize_game strategies g = Some gs → table_ok gs.
Proof.
  unfold initialize_game.
  destruct (create_deck _ g) as [d g'].
  case_decide as Hn; [done|]. intros [= <-].
  split; simpl.
  - constructor.
  - apply Forall_forall. intros p Hp.
    apply list_elem_of_lookup in Hp as [j Hp].
    rewrite list_lookup_imap in Hp.
    destruct (strategies !! j); simpl in Hp; [|done].
    injection Hp as <-. split; simpl; [done|intros Hb; discriminate Hb].
  - split; simpl; [lia|]. by rewrite Zmod_0_l.
Qed.

Lemma reachable_table_ok (gs : GameState) : reachable gs → table_ok gs.
Proof.
  induction 1 as [strategies g gs Hinit
                 | gs k gs' _ IH Hk Hdeal
                 | gs n i gs' o _ IH Hn Hhit
                 | gs i strategy gs' b _ IH Hturn
                 | gs gs' _ IH Hnext
                 | gs _ IH
                 | gs w _ IH Hw
                 | gs gs' _ IH Hnext].
  - by eapply table_ok_initialize_game.
  - unfold deal_upto in Hdeal.
    apply (for_each_preserves table_ok deal_one _ _ _
             (λ s x s', table_ok_deal_one s s' x) Hdeal).
    by apply table_ok_reset_players.
  - by eapply table_ok_hit_batch.
  - by eapply table_ok_play_turn.
  - by eapply table_ok_next_player.
  - by apply table_ok_add_round_scores.
  - destruct IH. by split.
  - by eapply table_ok_next_round.
Qed.

(** ** Consequences of the bookkeeping invariant *)

(** X10.  A round gives nothing to a player who busted in it, and nothing
    to a player whom the turn limit left still active: the cumulative
    score after [play_round] is the one before it. *)
Theorem play_round_no_gain (strategies : list BotStrategy)
    (gs gs' : GameState) (i : nat) (p p' : Player) :
  reachable gs → play_round strategies gs = Some gs' →
  players gs !! i = Some p → players gs' !! i = Some p' →
  has_busted p' = true ∨ is_active p' = true →
  round_score p' = 0 ∧ score p' = score p.
Proof.
  intros Hr Hround Hp Hp' Hout.
  destruct (play_round_scores _ _ _ _ _ _ Hr Hround Hp Hp') as [Hsum _].
  assert (round_score p' = 0) as H0; [|split; [exact H0|lia]].
  unfold play_round in Hround.
  destruct (deal_initial_cards (reset_players gs)) as [gs1|] eqn:Hdeal;
    simpl in Hround; [|discriminate Hround].
  destruct (round_loop max_turns strategies gs1) as [gs2|] eqn:Hloop;
    simpl in Hround; [|discriminate Hround].
  injection Hround as <-.
  assert (reachable gs1) as Hr1.
  { unfold deal_initial_cards in Hdeal. simpl in Hdeal.
    rewrite length_fmap in Hdeal. by eapply reach_deal. }
  destruct (round_loop_reachable _ _ _ _ Hr1 Hloop) as [Hr2 _].
  apply add_round_scores_lookup in Hp' as (p2 & Hp2 & ->).
  pose proof (tbl_round gs2 (reachable_table_ok gs2 Hr2)) as HR.
  destruct (Forall_lookup_1 _ _ _ _ HR Hp2) as [Hact Hbust].
  destruct Hout as [Hb|Ha].
  - by destruct (Hbust Hb).
  - by destruct (Hact Ha).
Qed.

Lemma play_round_no_gain_witness :
  ∃ p p', players before_last_round !! 0%nat = Some p
          ∧ players after_reckless_round !! 0%nat = Some p'
          ∧ has_busted p' = true
          ∧ score p = 198 ∧ score p' = 198.
Proof.
  exists (default (example_player []) (players before_last_round !! 0%nat)),
         (default (example_player []) (players after_reckless_round !! 0%nat)).
  assert (players before_last_round !! 0%nat
          = Some (default (example_player [])
                    (players before_last_round !! 0%nat))) as Hp
    by (vm_compute; reflexivity).
  assert (players after_reckless_round !! 0%nat
          = Some (default (example_player [])
                    (players after_reckless_round !! 0%nat))) as Hp'
    by (vm_compute; reflexivity).
  assert (play_round reckless_bots before_last_round
          = Some after_reckless_round) as Hround by (vm_compute; reflexivity).
  assert (has_busted (default (example_player [])
                        (players after_reckless_round !! 0%nat)) = true)
    as Hb by (vm_compute; reflexivity).
  destruct (play_round_no_gain reckless_bots before_last_round
              after_reckless_round 0 _ _ before_last_round_reachable
              Hround Hp Hp' (or_introl Hb)) as [_ Hsc].
  split_and!; [exact Hp|exact Hp'|exact Hb|vm_compute; reflexivity|].
  rewrite Hsc. vm_compute. reflexivity.
Defined.



(** X12.  In every state of a match the round number is at least 1 and
    the dealer of round [r] is seat [(r - 1) mod n]: the dealer moves
    one seat per round, whatever happened inside the rounds. *)
Theorem dealer_follows_round (gs : GameState) :
  reachable gs →
  1 ≤ round_number gs
  ∧ (dealer_idx gs < length (players gs))%nat
  ∧ Z.of_nat (dealer_idx gs)
    = (round_number gs - 1) `mod` Z.of_nat (length (players gs)).
Proof.
  intros Hr.
  destruct (tbl_rotation gs (reachable_table_ok gs Hr)) as [H1 Hdl].
  pose proof (ok_players gs (reachable_ok gs Hr)) as Hne.
  assert (0 < Z.of_nat (length (players gs))) as Hn.
  { destruct (players gs); [done|]. simpl. lia. }
  split_and!; [exact H1| |exact Hdl].
  pose proof (Z.mod_pos_bound (round_number gs - 1) _ Hn). lia.
Qed.

Lemma dealer_follows_round_witness :
  round_number dry_state = 42 ∧ dealer_idx dry_state = 1%nat
  ∧ Z.of_nat (dealer_idx dry_state)
    = (round_number dry_state - 1) `mod` Z.of_nat (length (players dry_state)).
Proof.
  split; [vm_compute; reflexivity|]. split; [vm_compute; reflexivity|].
  apply (dealer_follows_round dry_state).
  exact (match_prefix_reachable _ _ _ _ _ dry_state_prefix).
Defined.

(** ** Flip Three *)

Lemma hit_batch_growth (n i : nat) (gs gs' : GameState) (o : BatchOutcome)
    (p p' : Player) :
  hit_batch n i gs = Some (gs', o) →
  players gs !! i = Some p → players gs' !! i = Some p' →
  (length (cards p') ≤ length (cards p) + n)%nat.
Proof.
  revert gs p. induction n as [|n IH]; intros gs p H Hp Hp'.
  { injection H as <- <-. rewrite Hp in Hp'. injection Hp' as <-. lia. }
  cbn [hit_batch] in H.
  destruct (draw_card gs) as [[card gs1]|] eqn:Hd; simpl in H;
    [|discriminate H].
  pose proof (draw_card_players _ _ _ Hd) as Hps.
  rewrite <- Hps in Hp. rewrite Hp in H. simpl in H.
  destruct (would_bust p card).
  - destruct (has_second_chance p).
    + pose proof (IH _ (set_has_second_chance false p) H) as Hle.
      simpl in Hle. rewrite list_lookup_alter_eq, Hp in Hle.
      specialize (Hle eq_refl Hp'). lia.
    + injection H as <- <-.
      rewrite (update_player_lookup i bust_player gs1 p Hp) in Hp'.
      injection Hp' as <-. simpl. lia.
  - destruct (handle_action_card_frame i card
                (update_player i (λ q, set_cards (cards q ++ [card]) q) gs1))
      as (_ & _ & _ & Hfs).
    destruct (Hfs (set_cards (cards p ++ [card]) p)) as (p1 & Hp1 & Hc1 & _).
    { exact (update_player_lookup i (λ q, set_cards (cards q ++ [card]) q)
               gs1 p Hp). }
    pose proof (IH _ p1 H Hp1 Hp') as Hle.
    rewrite Hc1 in Hle. simpl in Hle. rewrite length_app in Hle. simpl in Hle.
    lia.
Qed.

(** X13.  A turn adds at most one card to the hand of the acting player,
    three when a Flip Three is pending.  A player who is still active
    after an own turn has hit, and a pending Flip Three is used up by
    that turn: the flag is cleared after the three draws, also when one
    of the three cards was itself a Flip Three. *)
Theorem play_turn_hand_growth (i : nat) (strategy : BotStrategy)
    (gs gs' : GameState) (b : bool) (p p' : Player) :
  play_turn i strategy gs = Some (gs', b) →
  players gs !! i = Some p → players gs' !! i = Some p' →
  (length (cards p')
   ≤ length (cards p) + (if has_flip_three_active p then 3 else 1))%nat
  ∧ (is_active p = true → is_active p' = true →
     should_hit strategy p gs = Some true
     ∧ b = true
     ∧ (has_flip_three_active p = true → has_flip_three_active p' = false)).
Proof.
  unfold play_turn. intros H Hp Hp'. rewrite Hp in H. simpl in H.
  assert (∀ s gs0 p0, players gs0 !! i = Some p0 →
            players (update_player i (bank s) gs0) !! i = Some p' →
            cards p' = cards p0 ∧ is_active p' = false) as Hbank.
  { intros s gs0 p0 Hp0 Hq.
    rewrite (update_player_lookup i (bank s) gs0 p0 Hp0) in Hq.
    by injection Hq as <-. }
  destruct (is_active p) eqn:Hact; simpl in H.
  2:{ injection H as <- <-. rewrite Hp in Hp'. injection Hp' as <-.
      split; [lia|]. intros Ha. discriminate Ha. }
  destruct (has_flip7 p).
  { destruct (calculate_score p true) as [s|]; simpl in H; [|discriminate H].
    injection H as <- <-. destruct (Hbank s gs p Hp Hp') as [-> Hin].
    split; [lia|]. intros _ Ha. congruence. }
  destruct (decide (10 ≤ length (get_number_cards p))%nat).
  { destruct (calculate_score p false) as [s|]; simpl in H; [|discriminate H].
    injection H as <- <-. destruct (Hbank s gs p Hp Hp') as [-> Hin].
    split; [lia|]. intros _ Ha. congruence. }
  destruct (should_hit strategy p gs) as [[|]|]; simpl in H;
    [| |discriminate H].
  2:{ destruct (calculate_score p false) as [s|]; simpl in H;
        [|discriminate H].
      injection H as <- <-. destruct (Hbank s gs p Hp Hp') as [-> Hin].
      split; [lia|]. intros _ Ha. congruence. }
  destruct (hit_batch _ i gs) as [[gs1 o]|] eqn:Hbatch; simpl in H;
    [|discriminate H].
  destruct (hit_batch_frame _ _ _ _ _ Hbatch) as [_ Hself].
  destruct (Hself p Hp) as (p1 & Hp1 & _ & _ & _ & Hrest).
  pose proof (hit_batch_growth _ _ _ _ _ p p1 Hbatch Hp Hp1) as Hle.
  assert ((if has_flip_three_active p then 3 else 1)%nat
          = (if has_flip_three_active p then 3%nat else 1%nat)) as Hn
    by reflexivity.
  destruct o.
  2:{ injection H as <- <-. rewrite Hp1 in Hp'. injection Hp' as <-.
      split; [exact Hle|]. intros _ Ha. destruct Hrest as [Hin _].
      congruence. }
  rewrite Hp1 in H. simpl in H.
  destruct (has_flip7 p1).
  { destruct (calculate_score p1 true) as [s|]; simpl in H;
      [|discriminate H].
    injection H as <- <-. destruct (Hbank s gs1 p1 Hp1 Hp') as [Hc Hin].
    split; [rewrite Hc; exact Hle|]. intros _ Ha. congruence. }
  injection H as <- <-.
  destruct (has_flip_three_active p) eqn:Hf3.
  - rewrite decide_True in Hp' by reflexivity.
    rewrite (update_player_lookup i (set_has_flip_three_active false)
               gs1 p1 Hp1) in Hp'.
    injection Hp' as <-. split; [exact Hle|]. intros _ _.
    split_and!; reflexivity.
  - rewrite decide_False in Hp' by (intros Hx; discriminate Hx).
    rewrite Hp1 in Hp'. injection Hp' as <-. split; [exact Hle|].
    intros _ _. split_and!; [reflexivity|reflexivity|].
    intros Hx. discriminate Hx.
Qed.

Lemma play_turn_hand_growth_witness :
  ∃ gs' p p',
    play_turn 0 always_hit flip_three_state = Some (gs', true)
    ∧ players flip_three_state !! 0%nat = Some p
    ∧ players gs' !! 0%nat = Some p'
    ∧ action_type <$> cards p' !! 3%nat = Some (Some FLIP_THREE)
    ∧ is_active p' = true
    ∧ has_flip_three_active p' = false.
Proof.
  set (r := default (exhausted_state, true)
              (play_turn 0 always_hit flip_three_state)).
  set (p := default (example_player []) (players flip_three_state !! 0%nat)).
  set (p' := default (example_player []) (players r.1 !! 0%nat)).
  assert (play_turn 0 always_hit flip_three_state = Some (r.1, true)) as Hturn
    by (vm_compute; reflexivity).
  assert (players flip_three_state !! 0%nat = Some p) as Hp
    by (vm_compute; reflexivity).
  assert (players r.1 !! 0%nat = Some p') as Hp' by (vm_compute; reflexivity).
  assert (is_active p' = true) as Ha by (vm_compute; reflexivity).
  exists r.1, p, p'.
  destruct (play_turn_hand_growth 0 always_hit flip_three_state r.1 true p p'
              Hturn Hp Hp') as [_ Hflag].
  destruct Hflag as (_ & _ & Hf3); [vm_compute; reflexivity|exact Ha|].
  split_and!; [exact Hturn|exact Hp|exact Hp'|vm_compute; reflexivity
              |exact Ha|].
  apply Hf3. vm_compute. reflexivity.
Defined.

(** ** The strategies *)

Lemma bust_prob_value (s : Z) :
  (if decide (total_number_cards > 0)
   then py_truediv s total_number_cards else Some 0%float)
  = Some (bust_estimate s).
Proof.
  destruct (decide (total_number_cards > 0)) as [_|Hn];
    [|exfalso; apply Hn; reflexivity].
  unfold py_truediv.
  destruct (decide (total_number_cards = 0)) as [Hn|_]; [discriminate Hn|].
  reflexivity.
Qed.

Lemma forallb_seqZ (f : Z → bool) (m len x : Z) :
  forallb f (seqZ m len) = true → m ≤ x < m + len → f x = true.
Proof.
  intros H Hx. rewrite forallb_forall in H. apply H.
  apply list_elem_of_In, elem_of_seqZ. lia.
Qed.

(** Up to 50 players the binary64 comparison of the estimate with the
    tolerance decides the same as exact arithmetic. *)
Lemma ultimate_tolerance_exact (n s : Z) (protected cautious : bool) :
  0 ≤ n ≤ 50 → 0 ≤ s ≤ 78 →
  PrimFloat.leb (bust_estimate s) (ultimate_tolerance n protected cautious)
  = within_tolerance s (tolerance_percent n protected) cautious.
Proof.
  intros Hn Hs.
  assert (forallb (λ n, forallb (λ s, forallb (λ pr, forallb (λ c,
            Bool.eqb (PrimFloat.leb (bust_estimate s)
                        (ultimate_tolerance n pr c))
                     (within_tolerance s (tolerance_percent n pr) c))
            [false; true]) [false; true]) (seqZ 0 79)) (seqZ 0 51) = true)
    as Hall by (vm_compute; reflexivity).
  apply (forallb_seqZ _ 0 51 n) in Hall; [|lia].
  apply (forallb_seqZ _ 0 79 s) in Hall; [|lia].
  rewrite forallb_forall in Hall.
  assert (In protected [false; true]) as Hpr
    by (destruct protected; simpl; tauto).
  specialize (Hall protected Hpr).
  rewrite forallb_forall in Hall.
  apply Bool.eqb_prop, Hall.
  destruct cautious; simpl; tauto.
Qed.

Lemma half_players_exact (a n : Z) :
  0 ≤ a ≤ 50 → 0 ≤ n ≤ 50 →
  py_truediv n 2 = Some (PrimFloat.div (float_of_int n) (float_of_int 2))
  ∧ PrimFloat.leb (float_of_int a)
      (PrimFloat.div (float_of_int n) (float_of_int 2))
    = bool_decide (2 * a ≤ n).
Proof.
  intros Ha Hn. split; [reflexivity|].
  assert (forallb (λ n, forallb (λ a,
            Bool.eqb (PrimFloat.leb (float_of_int a)
                        (PrimFloat.div (float_of_int n) (float_of_int 2)))
                     (bool_decide (2 * a ≤ n)))
            (seqZ 0 51)) (seqZ 0 51) = true)
    as Hall by (vm_compute; reflexivity).
  apply (forallb_seqZ _ 0 51 n) in Hall; [|lia].
  apply (forallb_seqZ _ 0 51 a) in Hall; [|lia].
  by apply Bool.eqb_prop.
Qed.

Lemma dry_player_ok : hand_ok dry_player.
Proof.
  apply (Forall_lookup_1 _ _ 0%nat _
           (ok_hands _ (reachable_ok _
              (match_prefix_reachable _ _ _ _ _ dry_state_prefix)))).
  vm_compute. reflexivity.
Qed.

Lemma hybrid_unfold (mc tp : Z) (p : float) (sca : bool)
    (player : Player) (gs : GameState) (sc s : Z) :
  calculate_score player false = Some sc →
  sum_distinct_values player = Some s →
  HybridStrategy_should_hit mc tp p sca player gs
  = Some (if decide (Z.of_nat (length (get_number_cards player)) < mc)
          then true
          else if bool_decide (sc >= tp)
                  && negb (sca && has_second_chance player
                           && bool_decide (sc < tp + 10))
          then false
          else PrimFloat.leb (bust_estimate s)
                 (effective_threshold p sca player)).
Proof.
  intros Hsc Hs. unfold HybridStrategy_should_hit.
  rewrite Hsc. cbn [mbind option_bind].
  destruct (decide (Z.of_nat (length (get_number_cards player)) < mc));
    [reflexivity|].
  destruct (bool_decide (sc >= tp)
            && negb (sca && has_second_chance player
                     && bool_decide (sc < tp + 10))); [reflexivity|].
  rewrite Hs. cbn [mbind option_bind].
  rewrite bust_prob_value. reflexivity.
Qed.

(** X14.  Every strategy class of the module answers on every hand that
    can occur in a match: no [should_hit] raises there, for any
    parameters.  Only the base class [BotStrategy], whose method is
    [raise NotImplementedError], does not. *)
Theorem shipped_strategies_total :
  (∀ nm p sca, total_strategy (BustProbabilityStrategy nm p sca))
  ∧ (∀ nm t sca, total_strategy (CardCountStrategy nm t sca))
  ∧ (∀ nm t, total_strategy (PointThresholdStrategy nm t))
  ∧ (∀ nm mc tp p sca, total_strategy (HybridStrategy nm mc tp p sca))
  ∧ total_strategy UltimateAdaptiveStrategy
  ∧ (∀ nm, ¬ total_strategy (BotStrategy_base nm)).
Proof.
  split_and!.
  - intros nm p sca player gs [Hwf _].
    destruct (sum_distinct_values_bounds player Hwf) as (s & Hs & _).
    simpl. rewrite (bust_probability_unfold p sca player gs s Hs). by eexists.
  - intros nm t sca player gs _. by eexists.
  - intros nm t player gs [Hwf _].
    destruct (calculate_score_nonneg player false Hwf) as (sc & Hsc & _).
    simpl. unfold PointThresholdStrategy_should_hit. rewrite Hsc. by eexists.
  - intros nm mc tp p sca player gs [Hwf _].
    destruct (calculate_score_nonneg player false Hwf) as (sc & Hsc & _).
    destruct (sum_distinct_values_bounds player Hwf) as (s & Hs & _).
    simpl. rewrite (hybrid_unfold mc tp p sca player gs sc s Hsc Hs).
    by eexists.
  - intros player gs [Hwf _].
    destruct (calculate_score_nonneg player false Hwf) as (sc & Hsc & _).
    destruct (sum_distinct_values_bounds player Hwf) as (s & Hs & _).
    simpl. unfold UltimateAdaptiveStrategy_should_hit.
    rewrite Hsc. cbn [mbind option_bind]. rewrite Hs. cbn [mbind option_bind].
    rewrite bust_prob_value. cbn [mbind option_bind].
    destruct (decide (_ < 3)); [by eexists|].
    destruct (_ && has_second_chance player); [by eexists|].
    destruct (decide (sc >= _)).
    { destruct (has_second_chance player && _); by eexists. }
    unfold py_truediv.
    destruct (decide (2 = 0)) as [H2|_]; [discriminate H2|].
    cbn [mbind option_bind]. by eexists.
  - intros nm Htot.
    destruct (Htot (example_player []) exhausted_state) as [b Hb].
    + by apply hand_ok_nil.
    + discriminate Hb.
Qed.

(** X15.  [HybridStrategy] on a hand of a match: below the minimum
    number of Number cards it hits; with the point target reached it
    stays, unless it is Second-Chance aware, protected and less than 10
    points past the target; in every other case it applies the rule of
    [BustProbabilityStrategy] with the same parameters, and returns what
    that strategy returns as long as deck and discard pile are not both
    empty.  Its answer never depends on the table. *)
Theorem hybrid_should_hit_cases (mc tp : Z) (p : float) (sca : bool)
    (player : Player) (gs : GameState) :
  hand_ok player →
  ∃ sc s,
    calculate_score player false = Some sc ∧ 0 ≤ sc
    ∧ sum_distinct_values player = Some s ∧ 0 ≤ s ≤ 78
    (* below the minimum number of cards: hit *)
    ∧ (Z.of_nat (length (get_number_cards player)) < mc →
       HybridStrategy_should_hit mc tp p sca player gs = Some true)
    (* target reached and no protection to push on: stay *)
    ∧ (mc ≤ Z.of_nat (length (get_number_cards player)) → tp ≤ sc →
       sca && has_second_chance player = false ∨ tp + 10 ≤ sc →
       HybridStrategy_should_hit mc tp p sca player gs = Some false)
    (* otherwise the bust-probability rule *)
    ∧ (mc ≤ Z.of_nat (length (get_number_cards player)) →
       sc < tp ∨ (sca && has_second_chance player = true ∧ sc < tp + 10) →
       HybridStrategy_should_hit mc tp p sca player gs
       = Some (PrimFloat.leb (bust_estimate s)
                 (effective_threshold p sca player))
       ∧ (deck gs ≠ [] ∨ discard_pile gs ≠ [] →
          HybridStrategy_should_hit mc tp p sca player gs
          = BustProbabilityStrategy_should_hit p sca player gs))
    (* the table plays no part *)
    ∧ ∀ gs', HybridStrategy_should_hit mc tp p sca player gs'
             = HybridStrategy_should_hit mc tp p sca player gs.
Proof.
  intros [Hwf _].
  destruct (calculate_score_nonneg player false Hwf) as (sc & Hsc & Hsc0).
  destruct (sum_distinct_values_bounds player Hwf) as (s & Hs & Hs78).
  exists sc, s.
  split; [exact Hsc|]. split; [exact Hsc0|]. split; [exact Hs|].
  split; [exact Hs78|].
  pose proof (λ gs0, hybrid_unfold mc tp p sca player gs0 sc s Hsc Hs) as Hu.
  split_and!.
  - intros Hlt. rewrite Hu. by rewrite decide_True.
  - intros Hge Htp Hno. rewrite Hu. rewrite decide_False by lia.
    rewrite (bool_decide_eq_true_2 (sc >= tp)) by lia.
    destruct Hno as [-> | Hfar]; [reflexivity|].
    rewrite (bool_decide_eq_false_2 (sc < tp + 10)) by lia.
    by rewrite andb_false_r.
  - intros Hge Hgo.
    assert (HybridStrategy_should_hit mc tp p sca player gs
            = Some (PrimFloat.leb (bust_estimate s)
                      (effective_threshold p sca player))) as Heq.
    { rewrite Hu. rewrite decide_False by lia.
      destruct Hgo as [Hlt | [-> Hlt]].
      - by rewrite (bool_decide_eq_false_2 (sc >= tp)) by lia.
      - rewrite (bool_decide_eq_true_2 (sc < tp + 10)) by lia.
        by rewrite andb_false_r. }
    split; [exact Heq|].
    intros Hne. rewrite Heq, (bust_probability_unfold p sca player gs s Hs).
    rewrite decide_False; [reflexivity|].
    intros [Hd Hp]. destruct Hne; congruence.
  - intros gs'. by rewrite !Hu.
Qed.

Lemma hybrid_should_hit_cases_witness :
  HybridStrategy_should_hit 0 100 0.5 false dry_player dry_state = Some true
  ∧ BustProbabilityStrategy_should_hit 0.5 false dry_player dry_state
    = Some false.
Proof.
  destruct (hybrid_should_hit_cases 0 100 0.5 false dry_player dry_state
              dry_player_ok)
    as (sc & s & Hsc & _ & Hs & _ & _ & _ & Hrule & _).
  assert (calculate_score dry_player false = Some 17) as H17
    by (vm_compute; reflexivity).
  assert (sum_distinct_values dry_player = Some 17) as Hs17
    by (vm_compute; reflexivity).
  rewrite H17 in Hsc. injection Hsc as <-.
  rewrite Hs17 in Hs. injection Hs as <-.
  split; [|vm_compute; reflexivity].
  destruct Hrule as [-> _]; [lia|left; lia|].
  vm_compute. reflexivity.
Defined.

(** X16.  [UltimateAdaptiveStrategy] on a hand of a match, at a table
    of at most 50 players: it answers, and its binary64 computation
    decides exactly as the same rule in exact arithmetic
    ([ultimate_spec]): tolerance 20% plus 2% per player beyond two,
    doubled (capped at 100%) under Second Chance, times 0.8 when at most
    half of the players are still active; point target 40 + 2n, plus
    10 under Second Chance. *)
Theorem ultimate_adaptive_exact (player : Player) (gs : GameState) :
  hand_ok player → (length (players gs) ≤ 50)%nat →
  ∃ sc s,
    calculate_score player false = Some sc ∧ 0 ≤ sc
    ∧ sum_distinct_values player = Some s ∧ 0 ≤ s ≤ 78
    ∧ UltimateAdaptiveStrategy_should_hit player gs
      = Some (ultimate_spec (Z.of_nat (length (get_number_cards player))) sc s
                (Z.of_nat (length (players gs)))
                (Z.of_nat (length (get_active_players gs)))
                (has_second_chance player)).
Proof.
  intros [Hwf _] Hn.
  destruct (calculate_score_nonneg player false Hwf) as (sc & Hsc & Hsc0).
  destruct (sum_distinct_values_bounds player Hwf) as (s & Hs & Hs78).
  exists sc, s.
  split; [exact Hsc|]. split; [exact Hsc0|]. split; [exact Hs|].
  split; [exact Hs78|].
  unfold UltimateAdaptiveStrategy_should_hit.
  rewrite Hsc. cbn [mbind option_bind]. rewrite Hs. cbn [mbind option_bind].
  rewrite bust_prob_value. cbn [mbind option_bind].
  assert (length (get_active_players gs) ≤ length (players gs))%nat as Ha
    by apply length_filter.
  set (n := Z.of_nat (length (players gs))) in *.
  set (a := Z.of_nat (length (get_active_players gs))) in *.
  set (k := Z.of_nat (length (get_number_cards player))) in *.
  assert (0 ≤ n ≤ 50) as Hn' by lia.
  assert (0 ≤ a ≤ 50) as Ha' by lia.
  pose proof (λ pr c, ultimate_tolerance_exact n s pr c Hn' Hs78) as Htol.
  destruct (half_players_exact a n Ha' Hn') as [Hh1 Hh2].
  rewrite Hh1. cbn [mbind option_bind]. rewrite Hh2.
  unfold ultimate_spec.
  destruct (decide (k < 3)) as [Hk|Hk].
  { by rewrite bool_decide_eq_true_2. }
  rewrite (bool_decide_eq_false_2 (k < 3)) by exact Hk.
  destruct (has_second_chance player).
  - destruct (bool_decide (k = 6)); [reflexivity|]. cbn [andb].
    destruct (decide (sc >= 40 + n * 2 + 10)) as [Hge|Hlt].
    + rewrite (bool_decide_eq_true_2 (40 + 2 * n + 10 ≤ sc)) by lia.
      destruct (decide (sc < 40 + n * 2 + 10 + 15)) as [Hc|Hc].
      * rewrite (bool_decide_eq_true_2 _ Hc).
        rewrite (bool_decide_eq_true_2 (sc < 40 + 2 * n + 10 + 15)) by lia.
        exact (f_equal Some (Htol true false)).
      * rewrite (bool_decide_eq_false_2 _ Hc).
        rewrite (bool_decide_eq_false_2 (sc < 40 + 2 * n + 10 + 15)) by lia.
        reflexivity.
    + rewrite (bool_decide_eq_false_2 (40 + 2 * n + 10 ≤ sc)) by lia.
      destruct (bool_decide (2 * a ≤ n)).
      * exact (f_equal Some (Htol true true)).
      * exact (f_equal Some (Htol true false)).
  - rewrite andb_false_r. cbn [andb].
    destruct (decide (sc >= 40 + n * 2)) as [Hge|Hlt].
    + rewrite (bool_decide_eq_true_2 (40 + 2 * n + 0 ≤ sc)) by lia.
      reflexivity.
    + rewrite (bool_decide_eq_false_2 (40 + 2 * n + 0 ≤ sc)) by lia.
      destruct (bool_decide (2 * a ≤ n)).
      * exact (f_equal Some (Htol false true)).
      * exact (f_equal Some (Htol false false)).
Qed.

Lemma ultimate_adaptive_exact_witness :
  ∃ sc s,
    calculate_score dry_player false = Some sc
    ∧ sum_distinct_values dry_player = Some s
    ∧ UltimateAdaptiveStrategy_should_hit dry_player dry_state
      = Some (ultimate_spec 4 sc s 2
                (Z.of_nat (length (get_active_players dry_state))) false)
    ∧ ultimate_spec 4 17 17 2 2 false = false
    ∧ ultimate_spec 4 15 15 2 2 false = true.
Proof.
  destruct (ultimate_adaptive_exact dry_player dry_state dry_player_ok)
    as (sc & s & Hsc & _ & Hs & _ & Heq).
  { vm_compute. lia. }
  exists sc, s. split; [exact Hsc|]. split; [exact Hs|].
  split; [exact Heq|]. split; vm_compute; reflexivity.
Defined.

(** X17.  [CardCountStrategy] and the safety valve of [play_turn]: a
    target of 10 or more is never reached, since a player with ten
    Number cards is not asked; such a strategy hits whenever it is
    consulted, and all of them play every turn alike. *)
Theorem card_count_targets_agree (nm nm' : string) (t t' : Z)
    (sca sca' : bool) (i : nat) (gs : GameState) :
  10 ≤ t → 10 ≤ t' →
  play_turn i (CardCountStrategy nm t sca) gs
  = play_turn i (CardCountStrategy nm' t' sca') gs
  ∧ ∀ player, players gs !! i = Some player →
      (length (get_number_cards player) < 10)%nat →
      should_hit (CardCountStrategy nm t sca) player gs = Some true.
Proof.
  intros Ht Ht'.
  assert (∀ t0 sca0 player, 10 ≤ t0 →
            (length (get_number_cards player) < 10)%nat →
            CardCountStrategy_should_hit t0 sca0 player gs = Some true)
    as Hhit.
  { intros t0 sca0 player Ht0 Hlt. unfold CardCountStrategy_should_hit.
    f_equal. apply bool_decide_eq_true_2.
    destruct (sca0 && has_second_chance player); lia. }
  split.
  - unfold play_turn.
    destruct (players gs !! i) as [player|]; [|reflexivity].
    cbn [mbind option_bind].
    destruct (negb (is_active player)); [reflexivity|].
    destruct (has_flip7 player); [reflexivity|].
    destruct (decide (10 ≤ length (get_number_cards player))%nat) as [|Hlt];
      [reflexivity|].
    cbn [should_hit CardCountStrategy].
    rewrite !Hhit by lia. reflexivity.
  - intros player _ Hlt. apply Hhit; [exact Ht|exact Hlt].
Qed.

Lemma card_count_targets_agree_witness :
  play_turn 1 (CardCountStrategy "CardCount_10" 10 false) flip7_eve
  = play_turn 1 always_hit flip7_eve.
Proof.
  apply (card_count_targets_agree "CardCount_10" "CardCount_100" 10 100
           false false 1 flip7_eve); lia.
Defined.

(** X18.  [PointThresholdStrategy] on a hand of a match: it answers,
    hits exactly when the plain score is below the target, never hits
    with a target of 0 or less (scores are not negative), and a larger
    target hits whenever a smaller one does. *)
Theorem point_threshold_should_hit (t : Z) (player : Player) (gs : GameState) :
  hand_ok player →
  ∃ sc, calculate_score player false = Some sc ∧ 0 ≤ sc
        ∧ PointThresholdStrategy_should_hit t player gs
          = Some (bool_decide (sc < t))
        ∧ (t ≤ 0 → PointThresholdStrategy_should_hit t player gs = Some false)
        ∧ (∀ t', t ≤ t' →
             PointThresholdStrategy_should_hit t player gs = Some true →
             PointThresholdStrategy_should_hit t' player gs = Some true).
Proof.
  intros [Hwf _].
  destruct (calculate_score_nonneg player false Hwf) as (sc & Hsc & Hsc0).
  exists sc.
  assert (∀ t0, PointThresholdStrategy_should_hit t0 player gs
                = Some (bool_decide (sc < t0))) as Heq.
  { intros t0. unfold PointThresholdStrategy_should_hit. by rewrite Hsc. }
  split; [exact Hsc|]. split; [exact Hsc0|]. split; [apply Heq|]. split.
  - intros Ht. rewrite Heq. f_equal. apply bool_decide_eq_false_2. lia.
  - intros t' Hle. rewrite !Heq. intros [= Hb]. f_equal.
    apply bool_decide_eq_true in Hb. apply bool_decide_eq_true_2. lia.
Qed.

Lemma point_threshold_should_hit_witness :
  calculate_score dry_player false = Some 17
  ∧ PointThresholdStrategy_should_hit 17 dry_player dry_state = Some false
  ∧ PointThresholdStrategy_should_hit 18 dry_player dry_state = Some true.
Proof.
  destruct (point_threshold_should_hit 18 dry_player dry_state dry_player_ok)
    as (sc & Hsc & _ & Heq & _).
  assert (calculate_score dry_player false = Some 17) as H17
    by (vm_compute; reflexivity).
  split; [exact H17|]. split; [vm_compute; reflexivity|].
  rewrite Heq. rewrite H17 in Hsc. injection Hsc as <-. reflexivity.
Defined.

(** ** The deal *)

Lemma update_player_compose (i : nat) (f g : Player → Player) (gs : GameState) :
  update_player i f (update_player i g gs) = update_player i (f ∘ g) gs.
Proof.
  assert (alter f i (alter g i (players gs)) = alter (f ∘ g) i (players gs))
    as Heq.
  { apply list_eq. intros k. destruct (decide (i = k)) as [->|Hne].
    - rewrite !list_lookup_alter_eq. by destruct (players gs !! k).
    - by rewrite !list_lookup_alter_ne. }
  unfold update_player. simpl. by rewrite Heq.
Qed.

Lemma deal_one_receive (gs : GameState) (i : nat) (rest : list Card) (c : Card) :
  deck gs = rest ++ [c] →
  deal_one gs i = Some (update_player i (receive c) (set_deck rest gs)).
Proof.
  intros Hd. unfold deal_one. rewrite (draw_card_from_deck gs rest c Hd).
  cbn [mbind option_bind]. f_equal.
  unfold handle_action_card, receive.
  destruct (decide (card_type c = ACTION)); [|reflexivity].
  destruct (decide (action_type c = Some SECOND_CHANCE)).
  { by rewrite update_player_compose. }
  destruct (decide (action_type c = Some FLIP_THREE)); [|reflexivity].
  by rewrite update_player_compose.
Qed.

Lemma deal_loop_deck (cs : list Card) (a : nat) (gs : GameState) (d : list Card) :
  deck gs = d ++ reverse cs →
  ∃ gs', for_each deal_one (seq a (length cs)) gs = Some gs'
         ∧ deck gs' = d
         ∧ discard_pile gs' = discard_pile gs
         ∧ rng gs' = rng gs
         ∧ ∀ j, players gs' !! j
                = if decide (a ≤ j)%nat then
                    match cs !! (j - a)%nat with
                    | Some c => receive c <$> players gs !! j
                    | None => players gs !! j
                    end
                  else players gs !! j.
Proof.
  revert a gs. induction cs as [|c cs IH]; intros a gs Hd.
  { exists gs. rewrite app_nil_r in Hd. split_and!; try done.
    intros j. by destruct (decide (a ≤ j)%nat). }
  rewrite reverse_cons, app_assoc in Hd.
  cbn [length seq for_each].
  rewrite (deal_one_receive gs a _ c Hd). cbn [mbind option_bind].
  destruct (IH (S a) (update_player a (receive c)
                        (set_deck (d ++ reverse cs) gs)) eq_refl)
    as (gs' & Hloop & Hdeck & Hdis & Hrng & Hps).
  exists gs'. split; [exact Hloop|]. split; [exact Hdeck|].
  split; [exact Hdis|]. split; [exact Hrng|].
  intros j. rewrite Hps. simpl.
  destruct (decide (S a ≤ j)%nat) as [Hj|Hj].
  - rewrite decide_True by lia.
    replace (j - a)%nat with (S (j - S a)) by lia. cbn [lookup list_lookup].
    rewrite list_lookup_alter_ne by lia. reflexivity.
  - destruct (decide (a ≤ j)%nat) as [Hj'|Hj'].
    + assert (j = a) as -> by lia. rewrite Nat.sub_diag. cbn [lookup list_lookup].
      by rewrite list_lookup_alter_eq.
    + by rewrite list_lookup_alter_ne by lia.
Qed.

(** X19.  The deal of a round from a deck that holds a card for every
    player: player [j] receives the [j]-th card from the top (the end of
    the list), the deck loses exactly those cards, the discard pile and
    the entropy tape are untouched; every player then holds that one
    card, is active with nothing banked, and has the Second Chance or
    Flip Three flag exactly when that card is the action of that
    name. *)
Theorem deal_initial_cards_from_deck (gs : GameState) (d cs : list Card) :
  deck gs = d ++ reverse cs → length cs = length (players gs) →
  ∃ gs', deal_initial_cards (reset_players gs) = Some gs'
         ∧ deck gs' = d
         ∧ discard_pile gs' = discard_pile gs
         ∧ rng gs' = rng gs
         ∧ players gs' = zip_with receive cs (reset_player <$> players gs)
         ∧ ∀ j c p', cs !! j = Some c → players gs' !! j = Some p' →
             cards p' = [c] ∧ is_active p' = true ∧ has_busted p' = false
             ∧ round_score p' = 0
             ∧ (has_second_chance p' = true
                ↔ card_type c = ACTION ∧ action_type c = Some SECOND_CHANCE)
             ∧ (has_flip_three_active p' = true
                ↔ card_type c = ACTION ∧ action_type c = Some FLIP_THREE).
Proof.
  intros Hd Hlen.
  destruct (deal_loop_deck cs 0 (reset_players gs) d Hd)
    as (gs' & Hloop & Hdeck & Hdis & Hrng & Hps).
  assert (players gs' = zip_with receive cs (reset_player <$> players gs))
    as Heq.
  { apply list_eq. intros j. rewrite Hps, lookup_zip_with.
    rewrite decide_True by lia. rewrite Nat.sub_0_r.
    destruct (cs !! j) as [c|] eqn:Hc; simpl.
    - by destruct (players gs !! j).
    - rewrite list_lookup_fmap.
      apply lookup_ge_None_1 in Hc.
      rewrite (lookup_ge_None_2 (players gs) j) by lia. done. }
  exists gs'. split.
  { unfold deal_initial_cards, deal_upto. simpl. rewrite length_fmap, <- Hlen.
    exact Hloop. }
  split; [exact Hdeck|]. split; [exact Hdis|]. split; [exact Hrng|].
  split; [exact Heq|].
  intros j c p' Hc Hp'. rewrite Heq, lookup_zip_with, Hc in Hp'. simpl in Hp'.
  rewrite list_lookup_fmap in Hp'.
  destruct (players gs !! j) as [p|]; simpl in Hp'; [|discriminate Hp'].
  injection Hp' as <-. unfold receive.
  destruct (decide (card_type c = ACTION)) as [Ha|Ha].
  - destruct (decide (action_type c = Some SECOND_CHANCE)) as [Hs|Hs].
    + simpl. split_and!; try done. rewrite Hs. split; [done|].
      intros [_ [=]].
    + destruct (decide (action_type c = Some FLIP_THREE)) as [Hf|Hf]; simpl.
      * split_and!; try done. split; [done|]. intros [_ H']. done.
      * split_and!; try done; (split; [done|]); intros [_ H']; done.
  - simpl. split_and!; try done; (split; [done|]); intros [H' _]; done.
Qed.

Lemma deal_initial_cards_from_deck_witness :
  ∃ gs', deal_initial_cards (reset_players before_last_round) = Some gs'
         ∧ length (deck before_last_round) = 158%nat
         ∧ length (deck gs') = 156%nat
         ∧ players gs'
           = zip_with receive (reverse (drop 156 (deck before_last_round)))
               (reset_player <$> players before_last_round).
Proof.
  destruct (deal_initial_cards_from_deck before_last_round
              (take 156 (deck before_last_round))
              (reverse (drop 156 (deck before_last_round))))
    as (gs' & Hdeal & Hdeck & _ & _ & Hps & _).
  - vm_compute. reflexivity.
  - vm_compute. reflexivity.
  - exists gs'. split; [exact Hdeal|]. split; [vm_compute; reflexivity|].
    split; [|exact Hps]. rewrite Hdeck. vm_compute. reflexivity.
Defined.

(** ** Card identifiers *)

Lemma id_range_app (prefix : string) (cid : N) (n m : nat) :
  id_range prefix cid (n + m)
  = id_range prefix cid n ++ id_range prefix (cid + N.of_nat n) m.
Proof.
  unfold id_range. rewrite seq_app, fmap_app. f_equal.
  replace (seq (0 + n) m) with (Nat.add n <$> seq 0 m)
    by (rewrite fmap_add_seq; f_equal; lia).
  rewrite <- list_fmap_compose.
  apply list_fmap_ext. intros _ k _. simpl. do 2 f_equal. lia.
Qed.

Lemma id_range_NoDup (prefix : string) (cid : N) (n : nat) :
  NoDup (id_range prefix cid n).
Proof.
  unfold id_range. apply NoDup_fmap_2; [|apply NoDup_seq].
  intros j k Heq. apply (inj (String.app prefix)) in Heq.
  apply (inj pretty) in Heq. lia.
Qed.

Lemma append_copies_ids (prefix : string) (mk : string → Card) (n : nat)
    (acc : list Card * N) :
  (∀ id, card_id (mk id) = id) →
  card_id <$> (append_copies prefix mk n acc).1
  = (card_id <$> acc.1) ++ id_range prefix acc.2 n
  ∧ (append_copies prefix mk n acc).2 = (acc.2 + N.of_nat n)%N.
Proof.
  intros Hmk. revert acc. induction n as [|n IH]; intros [deck cid].
  - simpl. rewrite app_nil_r. split; [reflexivity|lia].
  - cbn [append_copies]. destruct (IH (deck ++ [mk (prefix +:+ pretty cid)],
                                      (cid + 1)%N)) as [-> ->].
    cbn [fst snd]. split; [|lia].
    rewrite fmap_app. cbn [fmap list_fmap]. rewrite Hmk.
    change (S n) with (1 + n)%nat. rewrite id_range_app, <- app_assoc.
    f_equal. change (N.of_nat 1) with 1%N.
    change (id_range prefix cid 1)
      with [prefix +:+ pretty (cid + N.of_nat 0)%N].
    change (N.of_nat 0) with 0%N. by rewrite N.add_0_r.
Qed.

Lemma foldl_append_copies_ids {X : Type} (prefix : string)
    (mk : X → string → Card) (cnt : X → nat) (xs : list X)
    (acc : list Card * N) :
  (∀ x id, card_id (mk x id) = id) →
  let r := foldl (λ acc x, append_copies prefix (mk x) (cnt x) acc) acc xs in
  card_id <$> r.1
  = (card_id <$> acc.1) ++ id_range prefix acc.2 (sum_list (cnt <$> xs))
  ∧ r.2 = (acc.2 + N.of_nat (sum_list (cnt <$> xs)))%N.
Proof.
  intros Hmk. revert acc. induction xs as [|x xs IH]; intros acc.
  - simpl. rewrite app_nil_r. split; [reflexivity|lia].
  - cbn [foldl fmap list_fmap sum_list sum_list_with].
    destruct (IH (append_copies prefix (mk x) (cnt x) acc)) as [Hids Hnext].
    destruct (append_copies_ids prefix (mk x) (cnt x) acc (Hmk x))
      as [Hids1 Hnext1].
    cbn zeta in *. rewrite Hids, Hnext, Hids1, Hnext1. unfold id. split; [|lia].
    by rewrite id_range_app, <- app_assoc.
Qed.

Lemma append_base_deck_ids (acc : list Card * N) :
  card_id <$> (append_base_deck acc).1
  = (card_id <$> acc.1) ++ id_range "card_" acc.2 104
  ∧ (append_base_deck acc).2 = (acc.2 + 104)%N.
Proof.
  unfold append_base_deck.
  pose proof (foldl_append_copies_ids "card_"
                (λ v id, number_card id v)
                (λ v, Z.to_nat (if decide (v > 0) then v else 1))
                (seqZ 0 13) acc (λ _ _, eq_refl)) as [H1 N1].
  set (a1 := foldl _ acc (seqZ 0 13)) in *.
  pose proof (foldl_append_copies_ids "card_"
                (λ v id, modifier_card id ADD v) (λ _, 3%nat)
                [2; 4; 6; 8; 10] a1 (λ _ _, eq_refl)) as [H2 N2].
  set (a2 := foldl _ a1 [2; 4; 6; 8; 10]) in *.
  pose proof (append_copies_ids "card_" (λ id, modifier_card id MULTIPLY 2)
                1 a2 (λ _, eq_refl)) as [H3 N3].
  set (a3 := append_copies _ _ 1 a2) in *.
  pose proof (foldl_append_copies_ids "card_"
                (λ a id, action_card id a) (λ _, 3%nat)
                ActionType_members a3 (λ _ _, eq_refl)) as [H4 N4].
  cbn zeta in *.
  rewrite H4, N4, H3, N3, H2, N2, H1, N1.
  change (sum_list ((λ v, Z.to_nat (if decide (v > 0) then v else 1))
                      <$> seqZ 0 13)) with 79%nat.
  change (sum_list ((λ _, 3%nat) <$> [2; 4; 6; 8; 10])) with 15%nat.
  change (sum_list ((λ _, 3%nat) <$> ActionType_members)) with 9%nat.
  split; [|lia].
  change 104%nat with (79 + (15 + (1 + 9)))%nat.
  rewrite !id_range_app, <- !app_assoc.
  repeat f_equal; lia.
Qed.

Lemma unshuffled_deck_ids (k : nat) :
  card_id <$> (Nat.iter k append_base_deck ([], 0%N)).1
  = id_range "card_" 0 (k * 104)
  ∧ (Nat.iter k append_base_deck ([], 0%N)).2 = N.of_nat (k * 104).
Proof.
  induction k as [|k [IH1 IH2]]; [done|].
  rewrite Nat.iter_succ.
  destruct (append_base_deck_ids (Nat.iter k append_base_deck ([], 0%N)))
    as [-> ->].
  rewrite IH1, IH2. split; [|lia].
  replace (S k * 104)%nat with (k * 104 + 104)%nat by lia.
  rewrite id_range_app. do 2 f_equal. 
Qed.

Lemma emergency_deck_ids (cid : N) :
  card_id <$> emergency_deck cid = id_range "em_" cid 38.
Proof.
  with_strategy transparent [emergency_deck] unfold emergency_deck.
  pose proof (foldl_append_copies_ids "em_"
                (λ v id, number_card id v)
                (λ v, Z.to_nat (Z.max 1 (v `div` 2)))
                (seqZ 0 13) ([], cid) (λ _ _, eq_refl)) as [H1 _].
  cbn zeta in H1. rewrite H1. reflexivity.
Qed.

(** X20.  Card identifiers.  The deck of [create_deck] carries the
    identifiers [card_0], [card_1], ... one per card, so no two of its
    cards share one; an emergency deck carries [em_c], ..., [em_(c+37)]
    for its starting number [c], again all distinct, and none of them
    is the identifier of a card of the regular deck.  Two emergency
    decks, however, can share identifiers on cards of different
    value. *)
Theorem card_ids_unique (num_players : Z) (g : Rng) (cid : N) :
  card_id <$> (create_deck num_players g).1
  ≡ₚ id_range "card_" 0 (Z.to_nat (num_decks_of num_players) * 104)
  ∧ NoDup (card_id <$> (create_deck num_players g).1)
  ∧ card_id <$> emergency_deck cid = id_range "em_" cid 38
  ∧ NoDup (card_id <$> emergency_deck cid)
  ∧ (∀ c e, c ∈ (create_deck num_players g).1 → e ∈ emergency_deck cid →
            card_id c ≠ card_id e)
  ∧ ∃ c e, c ∈ emergency_deck 10000 ∧ e ∈ emergency_deck 10001
           ∧ card_id c = card_id e ∧ value c ≠ value e.
Proof.
  assert (card_id <$> (create_deck num_players g).1
          ≡ₚ id_range "card_" 0 (Z.to_nat (num_decks_of num_players) * 104))
    as Hids.
  { unfold create_deck. rewrite shuffle_Permutation.
    unfold unshuffled_deck.
    by destruct (unshuffled_deck_ids (Z.to_nat (num_decks_of num_players)))
      as [-> _]. }
  split; [exact Hids|]. split.
  { rewrite Hids. apply id_range_NoDup. }
  split; [apply emergency_deck_ids|]. split.
  { rewrite emergency_deck_ids. apply id_range_NoDup. }
  split.
  - intros c e Hc He Heq.
    assert (card_id c ∈ id_range "card_" 0
              (Z.to_nat (num_decks_of num_players) * 104)) as Hc'.
    { rewrite <- Hids. by apply list_elem_of_fmap_2. }
    assert (card_id e ∈ id_range "em_" cid 38) as He'.
    { rewrite <- emergency_deck_ids. by apply list_elem_of_fmap_2. }
    unfold id_range in Hc', He'.
    apply list_elem_of_fmap in Hc' as (j & Hj & _).
    apply list_elem_of_fmap in He' as (k & Hk & _).
    rewrite Heq, Hk in Hj. discriminate Hj.
  - exists (number_card "em_10001" 1), (number_card "em_10001" 0).
    split; [|split; [|split; [reflexivity|intros [=]]]].
    + apply (list_elem_of_lookup_2 _ 1%nat). vm_compute. reflexivity.
    + apply (list_elem_of_lookup_2 _ 0%nat). vm_compute. reflexivity.
Qed.
